(** * chirpstack-simulator: the simulation lifecycle of
      [internal/simulator/simulator.go]

    A shallow embedding of the simulation orchestrator: the fixture set-up
    and tear-down steps, the concurrent device provisioning, the per-device
    gateway sampling of the run phase, and the device-list reader.

    Conventions of the embedding.
    - Go's [int], [int64] and [time.Duration] are [Z] with the 64-bit
      wrap-around written out ([wrap64]).
    - [lorawan.EUI64] is [[8]byte] and [lorawan.AES128Key] is [[16]byte]: lists
      of [Byte.byte].
    - A Go [map] is a [gmap]; the order of a [range] over it is chosen by the
      environment.
    - A Go function that returns an [error] returns [option error] ([None] is
      [nil]); a function that may also panic or end the process has an
      [Outcome].
    - Remote collaborators (management API, MQTT broker, traffic engine, file
      system, random sources, goroutine scheduler) are an environment [Env] of
      answers. Every call to them is recorded in a trace, together with the
      entry of each method of [simulation] and the errors [start] logs; the
      informational log lines are left out. *)

From Stdlib Require Import ZArith Lia Ascii String.
From Stdlib.Strings Require Byte.
From stdpp Require Import base option list gmap sets strings.

Local Open Scope Z_scope.

(** ** Machine integers *)

Definition int64_min : Z := - 2 ^ 63.
Definition int64_max : Z := 2 ^ 63 - 1.

(** The value a 64-bit signed integer holds after an arithmetic operation
    whose mathematical result is [z]. *)
Definition wrap64 (z : Z) : Z := (z + 2 ^ 63) mod 2 ^ 64 - 2 ^ 63.

Definition is_int64 (z : Z) : Prop := int64_min <= z <= int64_max.

(** [len(l)] as a Go [int]. *)
Definition len {A} (l : list A) : Z := Z.of_nat (length l).

(** ** Bytes, identities and keys *)

Abbreviation byte := Byte.byte.

Global Instance byte_eq_dec : EqDecision byte.
Proof. intros x y. destruct (Byte.byte_eq_dec x y); [left | right]; assumption. Defined.

Global Program Instance byte_countable : Countable byte :=
  inj_countable Byte.to_N Byte.of_N _.
Next Obligation. intros x. apply Byte.of_to_N. Qed.

(** [lorawan.EUI64], an [[8]byte], and its zero value. *)
Definition EUI64 : Type := list byte.
Definition EUI64_zero : EUI64 := repeat Byte.x00 8.

(** [lorawan.AES128Key], a [[16]byte], and its zero value. *)
Definition AES128Key : Type := list byte.
Definition AES128Key_zero : AES128Key := repeat Byte.x00 16.

(** ** Errors and outcomes *)

(** Go [error] values, kept structured: [errors.Wrap(err, msg)] is
    [ErrWrap msg err]. *)
Inductive error : Type :=
| ErrRemote (what : string)           (* a transport or broker failure *)
| ErrWrap (msg : string) (cause : error)
| ErrOpen                             (* os.Open failed *)
| ErrFieldCount                       (* csv.ErrFieldCount *)
| ErrTooFewFields (line : Z)          (* the reader's own row check *)
| ErrHexLength                        (* hex.ErrLength *)
| ErrHexInvalidByte (c : ascii)       (* hex.InvalidByteError *)
| ErrExactBytes (n : Z)               (* lorawan: exactly n bytes are expected *)
| ErrUUID                             (* uuid: incorrect UUID format *)
| ErrEntropy.                         (* crypto/rand read failure *)

Inductive panic : Type :=
| IndexOutOfRange (index : Z) (length : Z)
| InvalidArgumentIntn
| InvalidArgumentInt63n.

(** How a call ends: it returns, the process exits ([log.Fatal] calls
    [os.Exit(1)]), the goroutine panics, or the inputs supplied by the
    environment (random draws, scheduler choices) ran out before it ended. *)
Inductive Outcome (A : Type) : Type :=
| Returned (a : A)
| Exited
| Panicked (p : panic)
| Pending.
Arguments Returned {A} a.
Arguments Exited {A}.
Arguments Panicked {A} p.
Arguments Pending {A}.

Definition outcome_bind {A B} (o : Outcome A) (k : A -> Outcome B) : Outcome B :=
  match o with
  | Returned a => k a
  | Exited => Exited
  | Panicked p => Panicked p
  | Pending => Pending
  end.

(** ** encoding/hex and the text form of identities *)

Module hex.

Definition fromHexChar (c : ascii) : option N :=
  let n := N_of_ascii c in
  if ((48 <=? n) && (n <=? 57))%N then Some (n - 48)%N
  else if ((97 <=? n) && (n <=? 102))%N then Some (n - 97 + 10)%N
  else if ((65 <=? n) && (n <=? 70))%N then Some (n - 65 + 10)%N
  else None.

Definition byte_of_nibbles (hi lo : N) : byte :=
  default Byte.x00 (Byte.of_N (hi * 16 + lo)).

(** [hex.DecodeString]: the bytes decoded before the first error are dropped
    here, as every caller discards them on error. *)
Fixpoint DecodeString (s : string) : list byte * option error :=
  match s with
  | EmptyString => ([], None)
  | String c EmptyString =>
      match fromHexChar c with
      | None => ([], Some (ErrHexInvalidByte c))
      | Some _ => ([], Some ErrHexLength)
      end
  | String c1 (String c2 rest) =>
      match fromHexChar c1 with
      | None => ([], Some (ErrHexInvalidByte c1))
      | Some hi =>
          match fromHexChar c2 with
          | None => ([], Some (ErrHexInvalidByte c2))
          | Some lo =>
              match DecodeString rest with
              | (bs, None) => (byte_of_nibbles hi lo :: bs, None)
              | (_, Some e) => ([], Some e)
              end
          end
      end
  end.

Definition hexdigit (n : N) : ascii :=
  if (n <? 10)%N then ascii_of_N (48 + n) else ascii_of_N (97 + (n - 10)).

Fixpoint EncodeToString (bs : list byte) : string :=
  match bs with
  | [] => EmptyString
  | b :: rest =>
      let n := Byte.to_N b in
      String (hexdigit (n / 16)) (String (hexdigit (n mod 16)) (EncodeToString rest))
  end.

End hex.

(** [EUI64.UnmarshalText]: decode the hex text; the receiver is overwritten
    only when exactly eight bytes were decoded. *)
Definition EUI64_UnmarshalText (e : EUI64) (text : string) : EUI64 * option error :=
  match hex.DecodeString text with
  | (_, Some err) => (e, Some err)
  | (b, None) =>
      if len e =? len b then (b, None) else (e, Some (ErrExactBytes (len e)))
  end.

(** [EUI64.String] and [AES128Key.String]. *)
Definition EUI64_String (e : EUI64) : string := hex.EncodeToString e.
Definition AES128Key_String (k : AES128Key) : string := hex.EncodeToString k.

(** ** The device list *)

Record Device : Type := mkDevice {
  Name : string;
  DeviceProfileId : string;
  DevEui : string;
  NwkKey : string;
  JoinEui : string;
  Description : string
}.

(** [record[i]]: an index expression on a slice panics out of range. *)
Definition index {A} (l : list A) (i : nat) : Outcome A :=
  match l !! i with
  | Some x => Returned x
  | None => Panicked (IndexOutOfRange (Z.of_nat i) (len l))
  end.

(** [csv.Reader.ReadAll] on the records of the file, with the reader's
    default [FieldsPerRecord = 0]: the first record fixes the number of fields
    and a later record with another number is [csv.ErrFieldCount]. *)
Definition csv_ReadAll (records : list (list string)) : list (list string) * option error :=
  match records with
  | [] => ([], None)
  | first :: rest =>
      if forallb (fun r => (length r =? length first)%nat) rest
      then (records, None)
      else ([], Some ErrFieldCount)
  end.

(** The loop of [readDevicesFromCSV] over [records], [i] being the index of
    the head of [records]. *)
Fixpoint readDevices_loop (i : Z) (records : list (list string)) (devices : list Device)
  : Outcome (list Device * option error) :=
  match records with
  | [] => Returned (devices, None)
  | record :: rest =>
      if i =? 0 then readDevices_loop (i + 1) rest devices
      else if len record <? 4 then Returned ([], Some (ErrTooFewFields (i + 1)))
      else
        outcome_bind (index record 0) (fun f0 =>
        outcome_bind (index record 1) (fun f1 =>
        outcome_bind (index record 2) (fun f2 =>
        outcome_bind (index record 3) (fun f3 =>
        outcome_bind (index record 4) (fun f4 =>
        outcome_bind (index record 5) (fun f5 =>
          let device := mkDevice f0 f1 f2 f3 f4 f5 in
          readDevices_loop (i + 1) rest (devices ++ [device])))))))
  end.

(** [readDevicesFromCSV]: [file] is what opening and lexing the file gives,
    [None] when it cannot be opened or is malformed. *)
Definition readDevicesFromCSV (file : option (list (list string)))
  : Outcome (list Device * option error) :=
  match file with
  | None => Returned ([], Some ErrOpen)
  | Some raw =>
      match csv_ReadAll raw with
      | (_, Some err) => Returned ([], Some err)
      | (records, None) => readDevices_loop 0 records []
      end
  end.

(** ** Contexts, fixtures and the traffic engine's objects *)

(** [context.Context] values, by the way they were built. [External] stands
    for a context made by the caller of [Start]. *)
Inductive Ctx : Type :=
| Background
| External (id : nat)
| WithCancel (parent : Ctx)
| WithTimeout (parent : Ctx) (timeout : Z).

Global Instance Ctx_eq_dec : EqDecision Ctx.
Proof. solve_decision. Defined.

(** A context is cancellable unless it is the background context. *)
Definition cancellable (c : Ctx) : bool :=
  match c with Background => false | _ => true end.

(** The context carries a deadline of its own making (not its parent's). *)
Definition own_deadline (c : Ctx) : bool :=
  match c with WithTimeout _ _ => true | _ => false end.

Record Tenant : Type := mkTenant { tenant_Id : string; tenant_Name : string }.

(** A [*simulator.Gateway]: the identity it was built with, and the address
    that tells two gateway objects apart. *)
Record Gateway : Type := mkGateway { gatewayID : EUI64; addr : nat }.

(** The options [simulator.NewDevice] is called with. *)
Record DeviceOptions : Type := mkDeviceOptions {
  o_DevEUI : EUI64;
  o_AppKey : AES128Key;
  o_UplinkInterval : Z;
  o_OTAADelay : Z;
  o_Confirmed : bool;
  o_FPort : Z;
  o_Payload : list byte;
  o_Gateways : list Gateway;
  o_Frequency : Z;
  o_Bandwidth : Z;
  o_SpreadingFactor : Z
}.

(** The methods of [simulation], as recorded in the trace when they are
    entered. *)
Inductive Fn : Type :=
| F_init | F_runSimulation | F_tearDown
| F_setupTenant | F_setupGateways | F_setupDeviceProfile | F_setupApplication
| F_setupDevices | F_setupApplicationIntegration
| F_tearDownApplicationIntegration | F_tearDownDevices | F_tearDownApplication
| F_tearDownDeviceProfile | F_tearDownGateways.

Global Instance Fn_eq_dec : EqDecision Fn.
Proof. solve_decision. Defined.

(** Requests to the management API. *)
Inductive ApiCall : Type :=
| TenantGet (id : string)
| ApplicationGet (id : string)
| DeviceCreate (devEui name description applicationId deviceProfileId : string)
| DeviceCreateKeys (devEui nwkKey : string)
| DeviceDelete (devEui : string).

Inductive Event : Type :=
| Enter (f : Fn)
| Api (ctx : Ctx) (call : ApiCall)
| MqttSubscribe (topic : string) (qos : Z)
| MqttUnsubscribe (topic : string)
| NewGateway (id : EUI64)
| NewDevice (ctx : Ctx) (opts : DeviceOptions)
| SignalNotify
| Cancel (ctx : Ctx)
| LogError (msg : string) (err : error)
| WgDone.

(** The answers of everything outside the orchestrator. The provisioning
    tasks are numbered in the order they are spawned. *)
Record Env : Type := mkEnv {
  as_Tenant_Get : string -> error + Tenant;
  as_Application_Get : string -> error + string;
  as_Device_Create : nat -> option error;       (* to the n-th provisioning task *)
  as_Device_CreateKeys : nat -> option error;   (* to the n-th provisioning task *)
  as_Device_Delete : string -> option error;
  mqtt_Subscribe : string -> option error;
  mqtt_Unsubscribe : string -> option error;
  simulator_NewGateway : EUI64 -> nat -> option error;
  simulator_NewDevice : EUI64 -> option error;
  (* crypto/rand for the n-th provisioning task: the bytes, or a failure *)
  rand_entropy : nat -> option (list byte);
  (* devices.csv, split into records and fields *)
  devices_csv : option (list (list string));
  (* which goroutine runs next during provisioning: 0 is the one running
     setupDevices, n+1 the n-th task *)
  schedule : list nat;
  (* which of the remaining entries the n-th range over a map visits next *)
  range_pick : nat -> nat -> nat;
  (* whether the running devices all stop, releasing the run-phase barrier *)
  devices_stop : bool
}.

(** ** The simulation *)

Record simulation : Type := mkSimulation {
  ctx : Ctx;
  tenantID : string;
  deviceCount : Z;
  gatewayMinCount : Z;
  gatewayMaxCount : Z;
  duration : Z;
  fPort : Z;
  payload : list byte;
  activationTime : Z;
  uplinkInterval : Z;
  frequency : Z;
  bandwidth : Z;
  spreadingFactor : Z;
  tenant : option Tenant;
  deviceProfileID : list byte;
  applicationID : string;
  gatewayIDs : list EUI64;
  deviceAppKeys : gmap EUI64 AES128Key;
  eventTopicTemplate : string;
  commandTopicTemplate : string
}.

Definition set_tenant (v : option Tenant) (s : simulation) : simulation :=
  mkSimulation (ctx s) (tenantID s) (deviceCount s) (gatewayMinCount s) (gatewayMaxCount s)
    (duration s) (fPort s) (payload s) (activationTime s) (uplinkInterval s) (frequency s)
    (bandwidth s) (spreadingFactor s) v (deviceProfileID s) (applicationID s)
    (gatewayIDs s) (deviceAppKeys s) (eventTopicTemplate s) (commandTopicTemplate s).

Definition set_deviceProfileID (v : list byte) (s : simulation) : simulation :=
  mkSimulation (ctx s) (tenantID s) (deviceCount s) (gatewayMinCount s) (gatewayMaxCount s)
    (duration s) (fPort s) (payload s) (activationTime s) (uplinkInterval s) (frequency s)
    (bandwidth s) (spreadingFactor s) (tenant s) v (applicationID s)
    (gatewayIDs s) (deviceAppKeys s) (eventTopicTemplate s) (commandTopicTemplate s).

Definition set_applicationID (v : string) (s : simulation) : simulation :=
  mkSimulation (ctx s) (tenantID s) (deviceCount s) (gatewayMinCount s) (gatewayMaxCount s)
    (duration s) (fPort s) (payload s) (activationTime s) (uplinkInterval s) (frequency s)
    (bandwidth s) (spreadingFactor s) (tenant s) (deviceProfileID s) v
    (gatewayIDs s) (deviceAppKeys s) (eventTopicTemplate s) (commandTopicTemplate s).

Definition set_gatewayIDs (v : list EUI64) (s : simulation) : simulation :=
  mkSimulation (ctx s) (tenantID s) (deviceCount s) (gatewayMinCount s) (gatewayMaxCount s)
    (duration s) (fPort s) (payload s) (activationTime s) (uplinkInterval s) (frequency s)
    (bandwidth s) (spreadingFactor s) (tenant s) (deviceProfileID s) (applicationID s)
    v (deviceAppKeys s) (eventTopicTemplate s) (commandTopicTemplate s).

Definition set_deviceAppKeys (v : gmap EUI64 AES128Key) (s : simulation) : simulation :=
  mkSimulation (ctx s) (tenantID s) (deviceCount s) (gatewayMinCount s) (gatewayMaxCount s)
    (duration s) (fPort s) (payload s) (activationTime s) (uplinkInterval s) (frequency s)
    (bandwidth s) (spreadingFactor s) (tenant s) (deviceProfileID s) (applicationID s)
    (gatewayIDs s) v (eventTopicTemplate s) (commandTopicTemplate s).

(** One entry of [config.Config.Simulator], as far as [Start] reads it. *)
Record SimulatorConfig : Type := mkSimulatorConfig {
  c_TenantID : string;
  c_Duration : Z;
  c_ActivationTime : Z;
  c_Device_Count : Z;
  c_Device_UplinkInterval : Z;
  c_Device_FPort : Z;
  c_Device_Payload : string;
  c_Device_Frequency : Z;
  c_Device_Bandwidth : Z;
  c_Device_SpreadingFactor : Z;
  c_Gateway_MinCount : Z;
  c_Gateway_MaxCount : Z;
  c_Gateway_EventTopicTemplate : string;
  c_Gateway_CommandTopicTemplate : string
}.

(** The [simulation] value [Start] builds for one configured simulation: the
    fields it does not name hold their zero values, and [deviceAppKeys] is a
    freshly made map. *)
Definition newSimulation (parent : Ctx) (c : SimulatorConfig) (pl : list byte) : simulation :=
  {| ctx := parent;
     tenantID := c_TenantID c;
     deviceCount := c_Device_Count c;
     gatewayMinCount := c_Gateway_MinCount c;
     gatewayMaxCount := c_Gateway_MaxCount c;
     duration := c_Duration c;
     fPort := c_Device_FPort c;
     payload := pl;
     activationTime := c_ActivationTime c;
     uplinkInterval := c_Device_UplinkInterval c;
     frequency := c_Device_Frequency c;
     bandwidth := c_Device_Bandwidth c;
     spreadingFactor := c_Device_SpreadingFactor c;
     tenant := None;
     deviceProfileID := repeat Byte.x00 16;
     applicationID := EmptyString;
     gatewayIDs := [];
     deviceAppKeys := ∅;
     eventTopicTemplate := c_Gateway_EventTopicTemplate c;
     commandTopicTemplate := c_Gateway_CommandTopicTemplate c |}.

(** What [Start] does for one entry of the configuration, up to the [go
    sim.start()]: the payload is decoded first, and a payload that is not hex
    ends [Start] with an error. *)
Definition Start_one (parent : Ctx) (c : SimulatorConfig) : error + simulation :=
  match hex.DecodeString (c_Device_Payload c) with
  | (_, Some err) => inl (ErrWrap "decode payload error" err)
  | (pl, None) => inr (newSimulation parent c pl)
  end.

(** The loop of [Start] over the configured simulations: [wg.Add(1)], then
    the payload is decoded, and [go sim.start()]. [added] counts the calls of
    [wg.Add(1)], [started] lists the simulations a goroutine was started for,
    oldest first. *)
Fixpoint Start_loop (parent : Ctx) (cs : list SimulatorConfig) (added : Z)
    (started : list simulation) : option error * Z * list simulation :=
  match cs with
  | [] => (None, added, started)
  | c :: rest =>
      let added := added + 1 in
      match Start_one parent c with
      | inl err => (Some err, added, started)
      | inr sim => Start_loop parent rest added (started ++ [sim])
      end
  end.

Definition Start (parent : Ctx) (cs : list SimulatorConfig)
  : option error * Z * list simulation :=
  Start_loop parent cs 0 [].

(** ** The world outside and the monad of the orchestrator *)

Record World : Type := mkWorld {
  trace : list Event;   (* what happened so far, oldest first *)
  draws : list Z;       (* the values math/rand will deliver, as raw integers *)
  ranges : nat          (* how many ranges over a map were started *)
}.

Definition M (A : Type) : Type := simulation -> World -> Outcome A * simulation * World.

Definition ret {A} (a : A) : M A := fun s w => (Returned a, s, w).

Definition bind {A B} (m : M A) (k : A -> M B) : M B :=
  fun s w =>
    match m s w with
    | (Returned a, s', w') => k a s' w'
    | (Exited, s', w') => (Exited, s', w')
    | (Panicked p, s', w') => (Panicked p, s', w')
    | (Pending, s', w') => (Pending, s', w')
    end.

Notation "'let*' x := m 'in' k" := (bind m (fun x => k))
  (at level 10, x name, m at level 100, k at level 200, only parsing).
Notation "m ;; k" := (bind m (fun _ => k))
  (at level 100, k at level 200, only parsing, right associativity).

Definition get : M simulation := fun s w => (Returned s, s, w).
Definition modify (f : simulation -> simulation) : M unit := fun s w => (Returned tt, f s, w).
Definition emit (ev : Event) : M unit :=
  fun s w => (Returned tt, s, mkWorld (trace w ++ [ev]) (draws w) (ranges w)).
Definition enter (f : Fn) : M unit := emit (Enter f).
Definition stop {A} (o : Outcome A) : M A := fun s w => (o, s, w).

(** [if err := m; err != nil { return err }] followed by [k]. *)
Definition check (m : M (option error)) (k : M (option error)) : M (option error) :=
  let* e := m in match e with Some err => ret (Some err) | None => k end.

(** ** Ranging over a map *)

(** The order in which a [range] visits the entries [remaining]: each time the
    environment picks one of those left. Whatever it picks, every entry is
    visited once. *)
Fixpoint range_from {A} (pick : nat -> nat) (fuel : nat) (remaining : list A) : list A :=
  match fuel with
  | O => []
  | S fuel' =>
      let i := (pick (length remaining) mod length remaining)%nat in
      match remaining !! i with
      | Some x => x :: range_from pick fuel' (delete i remaining)
      | None => []
      end
  end.

Definition range_order {A} (pick : nat -> nat) (l : list A) : list A :=
  range_from pick (length l) l.

(** ** math/rand and crypto/rand *)

(** [mrand.Intn(n)]: panics unless [0 < n]; otherwise some value of [[0, n)],
    here the next raw draw reduced modulo [n]. *)
Definition Intn (n : Z) (ds : list Z) : Outcome Z * list Z :=
  if n <=? 0 then (Panicked InvalidArgumentIntn, ds)
  else match ds with
       | [] => (Pending, [])
       | r :: rest => (Returned (r mod n), rest)
       end.

(** [mrand.Int63n(n)]. *)
Definition Int63n (n : Z) (ds : list Z) : Outcome Z * list Z :=
  if n <=? 0 then (Panicked InvalidArgumentInt63n, ds)
  else match ds with
       | [] => (Pending, [])
       | r :: rest => (Returned (r mod n), rest)
       end.

(** [rand.Read(b)] of crypto/rand on a buffer of [n] bytes: the buffer is
    filled entirely or the call fails. *)
Definition rand_Read (n : nat) (entropy : option (list byte)) : error + list byte :=
  match entropy with
  | Some bs => if decide (n <= length bs)%nat then inr (take n bs) else inl ErrEntropy
  | None => inl ErrEntropy
  end.

(** [uuid.FromString], for the canonical text form (8-4-4-4-12 hex digits);
    the other forms the library accepts are not modelled and read as an
    error. *)
Definition uuid_FromString (text : string) : list byte * option error :=
  if ((String.length text =? 36)%nat
      && bool_decide (String.get 8 text = Some "-"%char)
      && bool_decide (String.get 13 text = Some "-"%char)
      && bool_decide (String.get 18 text = Some "-"%char)
      && bool_decide (String.get 23 text = Some "-"%char))%bool
  then
    match hex.DecodeString
            (String.substring 0 8 text +:+ String.substring 9 4 text +:+
             String.substring 14 4 text +:+ String.substring 19 4 text +:+
             String.substring 24 12 text) with
    | (u, None) => (u, None)
    | (_, Some _) => (repeat Byte.x00 16, Some ErrUUID)
    end
  else (repeat Byte.x00 16, Some ErrUUID).

(** ** The gateway sampler of the run phase *)

(** [len(devGateways)]. *)
Definition map_len (m : gmap Z Gateway) : Z := Z.of_nat (size m).

(** The loop
    [for len(devGateways) < devNumGateways { n := mrand.Intn(len(gateways)); devGateways[n] = gateways[n] }]:
    one raw draw is consumed per iteration. *)
Fixpoint fill_loop (ds : list Z) (devNumGateways : Z) (gateways : list Gateway)
    (devGateways : gmap Z Gateway) : Outcome (gmap Z Gateway) * list Z :=
  if map_len devGateways <? devNumGateways then
    if len gateways <=? 0 then (Panicked InvalidArgumentIntn, ds)
    else match ds with
         | [] => (Pending, [])
         | r :: rest =>
             let n := r mod len gateways in
             match gateways !! Z.to_nat n with
             | Some g => fill_loop rest devNumGateways gateways (<[n := g]> devGateways)
             | None => (Panicked (IndexOutOfRange n (len gateways)), rest)
             end
         end
  else (Returned devGateways, ds).

(** The sampling of one device's gateways: the number to assign, then the
    loop that fills the map of chosen indices. *)
Definition sampleGateways (gatewayMinCount gatewayMaxCount : Z) (gateways : list Gateway)
    (ds : list Z) : Outcome (gmap Z Gateway) * list Z :=
  match Intn (wrap64 (wrap64 (gatewayMaxCount - gatewayMinCount) + 1)) ds with
  | (Returned r, ds') =>
      let devNumGateways := wrap64 (gatewayMinCount + r) in
      fill_loop ds' devNumGateways gateways ∅
  | (Exited, ds') => (Exited, ds')
  | (Panicked p, ds') => (Panicked p, ds')
  | (Pending, ds') => (Pending, ds')
  end.

(** The indices a sampled map holds. *)
Definition indices (devGateways : gmap Z Gateway) : list Z := (map_to_list devGateways).*1.

(** ** Device provisioning: the goroutines of [setupDevices]

    [setupDevices] spawns one goroutine per device and waits for all of them.
    The goroutines are interleaved by the scheduler; a step of the model is one
    statement of one goroutine. *)

(** Where a provisioning task stands: before the statement named. *)
Inductive TaskPc : Type :=
| T_start        (* devEUI.UnmarshalText; rand.Read(appKey[:]) *)
| T_create       (* as.Device().Create *)
| T_createKeys   (* as.Device().CreateKeys *)
| T_lock         (* s.deviceAppKeysMutex.Lock() *)
| T_insert       (* s.deviceAppKeys[devEUI] = appKey *)
| T_unlock       (* s.deviceAppKeysMutex.Unlock() *)
| T_done         (* wg.Done() *)
| T_finished.

Global Instance TaskPc_eq_dec : EqDecision TaskPc.
Proof. solve_decision. Defined.

Record Task : Type := mkTask {
  t_dev : Device;
  t_pc : TaskPc;
  t_devEUI : EUI64;
  t_appKey : AES128Key
}.

(** Where the goroutine running [setupDevices] stands. *)
Inductive MainPc : Type :=
| M_add (rest : list Device)               (* loop head; wg.Add(1) for the next device *)
| M_go (dev : Device) (rest : list Device) (* go func(dev Device) {...}(device) *)
| M_wait                                   (* wg.Wait() *)
| M_returned.                              (* return nil *)

Record PState : Type := mkPState {
  p_main : MainPc;
  p_tasks : list Task;
  p_wg : Z;                              (* the counter of the WaitGroup *)
  p_mutex : bool;                        (* deviceAppKeysMutex is held *)
  p_keys : gmap EUI64 AES128Key;         (* s.deviceAppKeys *)
  p_trace : list Event;
  p_exited : bool                        (* log.Fatal ended the process *)
}.

Definition p_exit (st : PState) : PState :=
  mkPState (p_main st) (p_tasks st) (p_wg st) (p_mutex st) (p_keys st) (p_trace st) true.

Definition p_emit (ev : Event) (st : PState) : PState :=
  mkPState (p_main st) (p_tasks st) (p_wg st) (p_mutex st) (p_keys st)
    (p_trace st ++ [ev]) (p_exited st).

Definition p_set_task (i : nat) (t : Task) (st : PState) : PState :=
  mkPState (p_main st) (<[i := t]> (p_tasks st)) (p_wg st) (p_mutex st) (p_keys st)
    (p_trace st) (p_exited st).

Definition p_set_mutex (b : bool) (st : PState) : PState :=
  mkPState (p_main st) (p_tasks st) (p_wg st) b (p_keys st) (p_trace st) (p_exited st).

Definition p_set_keys (m : gmap EUI64 AES128Key) (st : PState) : PState :=
  mkPState (p_main st) (p_tasks st) (p_wg st) (p_mutex st) m (p_trace st) (p_exited st).

Definition p_set_wg (n : Z) (st : PState) : PState :=
  mkPState (p_main st) (p_tasks st) n (p_mutex st) (p_keys st) (p_trace st) (p_exited st).

Definition p_set_main (pc : MainPc) (st : PState) : PState :=
  mkPState pc (p_tasks st) (p_wg st) (p_mutex st) (p_keys st) (p_trace st) (p_exited st).

Definition p_spawn (t : Task) (st : PState) : PState :=
  mkPState (p_main st) (p_tasks st ++ [t]) (p_wg st) (p_mutex st) (p_keys st)
    (p_trace st) (p_exited st).

Definition with_pc (pc : TaskPc) (t : Task) : Task :=
  mkTask (t_dev t) pc (t_devEUI t) (t_appKey t).

(** The identity a task derives from its row: the error of [UnmarshalText] is
    dropped, so a text that does not parse leaves the zero identity. *)
Definition parse_devEUI (dev : Device) : EUI64 :=
  (EUI64_UnmarshalText EUI64_zero (DevEui dev)).1.

Section Provisioning.

Context (E : Env).
(* s.applicationID, which the tasks read *)
Context (appID : string).

(** One statement of the [i]-th task. [None]: the task cannot run (it waits for
    the mutex, or it has ended). *)
Definition task_step (i : nat) (t : Task) (st : PState) : option PState :=
  match t_pc t with
  | T_start =>
      let devEUI := parse_devEUI (t_dev t) in
      match rand_Read 16 (rand_entropy E i) with
      | inl _ => Some (p_exit st)
      | inr appKey => Some (p_set_task i (mkTask (t_dev t) T_create devEUI appKey) st)
      end
  | T_create =>
      let st := p_emit (Api Background
                  (DeviceCreate (EUI64_String (t_devEUI t)) (Name (t_dev t))
                     (Description (t_dev t)) appID (DeviceProfileId (t_dev t)))) st in
      match as_Device_Create E i with
      | Some _ => Some (p_exit st)
      | None => Some (p_set_task i (with_pc T_createKeys t) st)
      end
  | T_createKeys =>
      let st := p_emit (Api Background
                  (DeviceCreateKeys (EUI64_String (t_devEUI t))
                     (AES128Key_String (t_appKey t)))) st in
      match as_Device_CreateKeys E i with
      | Some _ => Some (p_exit st)
      | None => Some (p_set_task i (with_pc T_lock t) st)
      end
  | T_lock =>
      if p_mutex st then None
      else Some (p_set_task i (with_pc T_insert t) (p_set_mutex true st))
  | T_insert =>
      Some (p_set_task i (with_pc T_unlock t)
              (p_set_keys (<[t_devEUI t := t_appKey t]> (p_keys st)) st))
  | T_unlock =>
      Some (p_set_task i (with_pc T_done t) (p_set_mutex false st))
  | T_done =>
      Some (p_set_task i (with_pc T_finished t) (p_set_wg (p_wg st - 1) st))
  | T_finished => None
  end.

(** One statement of the goroutine running [setupDevices]. *)
Definition main_step (st : PState) : option PState :=
  match p_main st with
  | M_add [] => Some (p_set_main M_wait st)
  | M_add (dev :: rest) => Some (p_set_main (M_go dev rest) (p_set_wg (p_wg st + 1) st))
  | M_go dev rest =>
      Some (p_set_main (M_add rest)
              (p_spawn (mkTask dev T_start EUI64_zero AES128Key_zero) st))
  | M_wait => if p_wg st =? 0 then Some (p_set_main M_returned st) else None
  | M_returned => None
  end.

(** One step of the goroutine the scheduler chose: [0] is the one running
    [setupDevices], [S i] the [i]-th task. Nothing runs once the process has
    exited. *)
Definition pstep (c : nat) (st : PState) : option PState :=
  if p_exited st then None
  else match c with
       | O => main_step st
       | S i => match p_tasks st !! i with
                | Some t => task_step i t st
                | None => None
                end
       end.

(** The scheduler's choices, in turn; a choice that cannot run is skipped. *)
Fixpoint run (sched : list nat) (st : PState) : PState :=
  match sched with
  | [] => st
  | c :: sched' => run sched' (default st (pstep c st))
  end.

Definition provision_init (devices : list Device) (keys : gmap EUI64 AES128Key)
    (tr : list Event) : PState :=
  mkPState (M_add devices) [] 0 false keys tr false.

End Provisioning.

(** ** The orchestrator *)

Definition uplink_topic (applicationID : string) : string :=
  "application/" +:+ applicationID +:+ "/device/+/event/up".

(** The hardcoded text of the gateway identity, of the device profile and of
    the application. *)
Definition gatewayID_text : string := "1020304050607080".
Definition deviceProfileID_text : string := "98e37811-de41-4da7-9440-f3c8fb35fbb9".
Definition applicationID_text : string := "bfc3a3c5-7509-4ee6-8d76-786910333738".

(** [uint32(x)] of an [int]. *)
Definition uint32 (x : Z) : Z := x mod 2 ^ 32.

(** [for i := 0; i < n; i++ { body }] on a state [S]; [fuel] bounds the number
    of iterations, and [Z.to_nat n] is enough. *)
Fixpoint for_lt {S : Type} (fuel : nat) (i n : Z) (body : Z -> S -> S) (s : S) : S :=
  match fuel with
  | O => s
  | Datatypes.S fuel' =>
      if i <? n then for_lt fuel' (wrap64 (i + 1)) n body (body i s) else s
  end.

Section Orchestrator.

Context (E : Env).

(** A [range] over the entries [l] of a map: the order is the environment's. *)
Definition range_over {A} (l : list A) : M (list A) :=
  fun s w =>
    (Returned (range_order (range_pick E (ranges w)) l), s,
     mkWorld (trace w) (draws w) (S (ranges w))).

(** A draw from math/rand. *)
Definition draw {A} (f : list Z -> Outcome A * list Z) : M A :=
  fun s w =>
    let '(o, ds) := f (draws w) in (o, s, mkWorld (trace w) ds (ranges w)).

(** *** Set-up *)

Definition setupTenant : M (option error) :=
  enter F_setupTenant ;;
  let* s := get in
  emit (Api Background (TenantGet (tenantID s))) ;;
  match as_Tenant_Get E (tenantID s) with
  | inl err => ret (Some (ErrWrap "get tenant error" err))
  | inr t => modify (set_tenant (Some t)) ;; ret None
  end.

(** The body of the loop of [setupGateways]. *)
Definition setupGateways_body (_ : Z) (s : simulation) : simulation :=
  let gatewayID := (EUI64_UnmarshalText EUI64_zero gatewayID_text).1 in
  set_gatewayIDs (gatewayIDs s ++ [gatewayID]) s.

Definition setupGateways : M (option error) :=
  enter F_setupGateways ;;
  let* s := get in
  modify (for_lt (Z.to_nat (gatewayMaxCount s)) 0 (gatewayMaxCount s) setupGateways_body) ;;
  ret None.

Definition setupDeviceProfile : M (option error) :=
  enter F_setupDeviceProfile ;;
  match uuid_FromString deviceProfileID_text with
  | (_, Some err) => ret (Some err)
  | (dpID, None) => modify (set_deviceProfileID dpID) ;; ret None
  end.

Definition setupApplication : M (option error) :=
  enter F_setupApplication ;;
  let appID := applicationID_text in
  emit (Api Background (ApplicationGet appID)) ;;
  match as_Application_Get E appID with
  | inl err => ret (Some (ErrWrap "get application error" err))
  | inr id => modify (set_applicationID id) ;; ret None
  end.

(** [setupDevices]: read the device list, run the provisioning goroutines
    under the environment's schedule, and return once [wg.Wait()] has. A
    reading error ends the process ([log.Fatal]). *)
Definition setupDevices : M (option error) :=
  enter F_setupDevices ;;
  fun s w =>
    match readDevicesFromCSV (devices_csv E) with
    | Returned (devices, None) =>
        let st := run E (applicationID s) (schedule E)
                    (provision_init devices (deviceAppKeys s) (trace w)) in
        let s' := set_deviceAppKeys (p_keys st) s in
        let w' := mkWorld (p_trace st) (draws w) (ranges w) in
        if p_exited st then (Exited, s', w')
        else match p_main st with
             | M_returned => (Returned None, s', w')
             | _ => (Pending, s', w')
             end
    | Returned (_, Some err) => (Exited, s, w)
    | Exited => (Exited, s, w)
    | Panicked p => (Panicked p, s, w)
    | Pending => (Pending, s, w)
    end.

Definition setupApplicationIntegration : M (option error) :=
  enter F_setupApplicationIntegration ;;
  let* s := get in
  let topic := uplink_topic (applicationID s) in
  emit (MqttSubscribe topic 0) ;;
  match mqtt_Subscribe E topic with
  | Some err => ret (Some (ErrWrap "subscribe application integration error" err))
  | None => ret None
  end.

Definition init : M (option error) :=
  enter F_init ;;
  check setupTenant (
  check setupGateways (
  check setupDeviceProfile (
  check setupApplication (
  check setupDevices (
  check setupApplicationIntegration (
  ret None)))))).

(** *** Tear-down *)

Definition tearDownApplicationIntegration : M (option error) :=
  enter F_tearDownApplicationIntegration ;;
  let* s := get in
  let topic := uplink_topic (applicationID s) in
  emit (MqttUnsubscribe topic) ;;
  match mqtt_Unsubscribe E topic with
  | Some err => ret (Some (ErrWrap "unsubscribe application integration error" err))
  | None => ret None
  end.

(** The loop of [tearDownDevices] over the identities [ks]. *)
Fixpoint tearDownDevices_loop (ks : list EUI64) : M (option error) :=
  match ks with
  | [] => ret None
  | k :: rest =>
      emit (Api Background (DeviceDelete (EUI64_String k))) ;;
      match as_Device_Delete E (EUI64_String k) with
      | Some err => ret (Some (ErrWrap "delete device error" err))
      | None => tearDownDevices_loop rest
      end
  end.

Definition tearDownDevices : M (option error) :=
  enter F_tearDownDevices ;;
  let* s := get in
  let* entries := range_over (map_to_list (deviceAppKeys s)) in
  tearDownDevices_loop entries.*1.

Definition tearDownApplication : M (option error) :=
  enter F_tearDownApplication ;; ret None.

Definition tearDownDeviceProfile : M (option error) :=
  enter F_tearDownDeviceProfile ;; ret None.

Definition tearDownGateways : M (option error) :=
  enter F_tearDownGateways ;; ret None.

Definition tearDown : M (option error) :=
  enter F_tearDown ;;
  check tearDownApplicationIntegration (
  check tearDownDevices (
  check tearDownApplication (
  check tearDownDeviceProfile (
  check tearDownGateways (
  ret None))))).

(** *** The run phase *)

(** The first loop of [runSimulation]: one gateway object per identity. *)
Fixpoint newGateways (ids : list EUI64) (gateways : list Gateway) : M (error + list Gateway) :=
  match ids with
  | [] => ret (inr gateways)
  | gatewayID :: rest =>
      emit (NewGateway gatewayID) ;;
      match simulator_NewGateway E gatewayID (length gateways) with
      | Some err => ret (inl (ErrWrap "new gateway error" err))
      | None => newGateways rest (gateways ++ [mkGateway gatewayID (length gateways)])
      end
  end.

(** The context of the run phase. *)
Definition runContext (s : simulation) : Ctx :=
  let ctx := WithCancel (ctx s) in
  if duration s =? 0 then ctx else WithTimeout ctx (duration s).

(** The second loop of [runSimulation], over the entries of [deviceAppKeys];
    it returns the number of devices made. *)
Fixpoint newDevices (s : simulation) (ctx : Ctx) (gateways : list Gateway)
    (entries : list (EUI64 * AES128Key)) (made : nat) : M (error + nat) :=
  match entries with
  | [] => ret (inr made)
  | (devEUI, appKey) :: rest =>
      let* devGateways :=
        draw (sampleGateways (gatewayMinCount s) (gatewayMaxCount s) gateways) in
      let* picked := range_over (map_to_list devGateways) in
      let gws := picked.*2 in
      let* delay := draw (Int63n (activationTime s)) in
      emit (NewDevice ctx
              {| o_DevEUI := devEUI;
                 o_AppKey := appKey;
                 o_UplinkInterval := uplinkInterval s;
                 o_OTAADelay := delay;
                 o_Confirmed := false;
                 o_FPort := fPort s;
                 o_Payload := payload s;
                 o_Gateways := gws;
                 o_Frequency := uint32 (frequency s);
                 o_Bandwidth := uint32 (bandwidth s);
                 o_SpreadingFactor := uint32 (spreadingFactor s) |}) ;;
      match simulator_NewDevice E devEUI with
      | Some err => ret (inl (ErrWrap "new device error" err))
      | None => newDevices s ctx gateways rest (S made)
      end
  end.

(** [defer cancel()]: the deferred call runs when the function returns or
    panics. *)
Definition deferred {A} (ev : Event) (m : M A) : M A :=
  fun s w =>
    match m s w with
    | (Returned a, s', w') => (Returned a, s', mkWorld (trace w' ++ [ev]) (draws w') (ranges w'))
    | (Panicked p, s', w') => (Panicked p, s', mkWorld (trace w' ++ [ev]) (draws w') (ranges w'))
    | r => r
    end.

(** [wg.Wait()] at the end of the run phase: with no device made the counter
    is zero; otherwise it returns when the devices have all stopped. *)
Definition wait_devices (made : nat) : M unit :=
  match made with
  | O => ret tt
  | S _ => if devices_stop E then ret tt else stop Pending
  end.

Definition runSimulation : M (option error) :=
  enter F_runSimulation ;;
  let* s := get in
  let* r := newGateways (gatewayIDs s) [] in
  match r with
  | inl err => ret (Some err)
  | inr gateways =>
      let ctx := runContext s in
      deferred (Cancel ctx) (
        let* entries := range_over (map_to_list (deviceAppKeys s)) in
        let* r := newDevices s ctx gateways entries 0 in
        match r with
        | inl err => ret (Some err)
        | inr made =>
            emit SignalNotify ;;
            wait_devices made ;;
            ret None
        end)
  end.

(** *** start *)

(** The error of a phase is logged and the next phase runs. *)
Definition logged (msg : string) (m : M (option error)) : M unit :=
  let* e := m in
  match e with
  | Some err => emit (LogError msg err)
  | None => ret tt
  end.

Definition start : M unit :=
  logged "simulator: init simulation error" init ;;
  logged "simulator: simulation error" runSimulation ;;
  logged "simulator: tear-down simulation error" tearDown ;;
  emit WgDone.

End Orchestrator.

(** The goroutine that [runSimulation] starts before it waits ([SignalNotify]
    in the trace marks its start). It registers for SIGINT and SIGTERM and
    waits for one of them or for the end of the run context, whichever comes
    first; on a signal it calls [cancel()], the cancel function of the run
    context. *)
Inductive Wake : Type := Signal | CtxDone.

Definition signal_goroutine (s : simulation) (wake : Wake) : list Event :=
  match wake with
  | Signal => [Cancel (runContext s)]
  | CtxDone => []
  end.

(** * Vocabulary of the statements *)

(** The indices the draws [ds] lead to. *)
Definition drawn (P : Z) (ds : list Z) : gset Z := list_to_set ((fun d => d mod P) <$> ds).

(** Every index of the pool occurs among the draws. *)
Definition covers (P : Z) (ds : list Z) : Prop :=
  forall n, 0 <= n < P -> exists d, d ∈ ds /\ d mod P = n.

(** The settings of a simulation: the simulation with the fields that set-up
    fills in cleared. *)
Definition settings (s : simulation) : simulation :=
  set_tenant None (set_deviceProfileID [] (set_applicationID EmptyString
    (set_gatewayIDs [] (set_deviceAppKeys ∅ s)))).

(** What an event may be in a simulation with the settings [b]: a call to the
    management API carries the background context; a device is made with the
    context of the run phase and an activation delay within the activation
    time; the deferred cancel is that of the run context. *)
Definition event_ok (b : simulation) (ev : Event) : Prop :=
  match ev with
  | Api c _ => c = Background
  | NewDevice c o => c = runContext b /\ 0 <= o_OTAADelay o < activationTime b
  | Cancel c => c = runContext b
  | _ => True
  end.

(** The three phases of [start]. *)
Definition is_phase (f : Fn) : bool :=
  match f with F_init | F_runSimulation | F_tearDown => true | _ => false end.

(** The five steps of tear-down. *)
Definition is_teardown_step (f : Fn) : bool :=
  match f with
  | F_tearDownApplicationIntegration | F_tearDownDevices | F_tearDownApplication
  | F_tearDownDeviceProfile | F_tearDownGateways => true
  | _ => false
  end.

Definition teardown_order : list Fn :=
  [ F_tearDownApplicationIntegration; F_tearDownDevices; F_tearDownApplication;
    F_tearDownDeviceProfile; F_tearDownGateways ].

(** The methods entered, in the order of the trace. *)
Fixpoint entered (tr : list Event) : list Fn :=
  match tr with
  | [] => []
  | Enter f :: tr' => f :: entered tr'
  | _ :: tr' => entered tr'
  end.

(** The phases, and the tear-down steps, that a trace shows were attempted. *)
Definition phases (tr : list Event) : list Fn := List.filter is_phase (entered tr).
Definition teardown_steps (tr : list Event) : list Fn :=
  List.filter is_teardown_step (entered tr).

(** What an event inside a phase may be: as [event_ok], and it is not the
    entry of a phase, nor what [start] itself records. *)
Definition inner_ok (b : simulation) (ev : Event) : Prop :=
  match ev with
  | Enter f => is_phase f = false
  | Api c _ => c = Background
  | NewDevice c o => c = runContext b /\ 0 <= o_OTAADelay o < activationTime b
  | Cancel c => c = runContext b
  | LogError _ _ => False
  | WgDone => False
  | _ => True
  end.

(** The trace of [w'] is the trace of [w] followed by events that satisfy [P]. *)
Definition grows (P : Event -> Prop) (w w' : World) : Prop :=
  exists evs, trace w' = trace w ++ evs /\ Forall P evs.

(** [m] keeps the settings [b] and the part [extra] of the simulation, and
    adds only events that satisfy [P]. *)
Definition keeps {X A} (extra : simulation -> X) (b : simulation) (x : X)
    (P : Event -> Prop) (m : M A) : Prop :=
  forall s w o s' w',
    settings s = b -> extra s = x ->
    m s w = (o, s', w') ->
    settings s' = b /\ extra s' = x /\ grows P w w'.

(** The identity 10-20-30-40-50-60-70-80. *)
Definition gateway_identity : EUI64 :=
  [Byte.x10; Byte.x20; Byte.x30; Byte.x40; Byte.x50; Byte.x60; Byte.x70; Byte.x80].

(** The steps of the life cycle that come after the gateway set-up. *)
Definition later_steps (E : Env) : list (M (option error)) :=
  [ setupDeviceProfile; setupApplication E; setupDevices E;
    setupApplicationIntegration E; runSimulation E;
    tearDownApplicationIntegration E; tearDownDevices E; tearDownApplication;
    tearDownDeviceProfile; tearDownGateways; tearDown E ].

(** The simulation and the world a call ends with. *)
Definition sim_after {A} (r : Outcome A * simulation * World) : simulation := r.1.2.
Definition world_after {A} (r : Outcome A * simulation * World) : World := r.2.
Definition outcome_of {A} (r : Outcome A * simulation * World) : Outcome A := r.1.1.

(** The call returned, with an error or without. *)
Definition returned {A} (o : Outcome A) : bool :=
  match o with Returned _ => true | _ => false end.

(** The events a call added to the trace of [w]. *)
Definition events_since {A} (w : World) (r : Outcome A * simulation * World) : list Event :=
  drop (length (trace w)) (trace (world_after r)).

(** The part of C1 about tear-down, as the specification words it: when the
    tenant cannot be resolved, tear-down attempts every one of its five
    steps, in order. *)
Definition teardown_attempts_every_step (E : Env) (s : simulation) (w : World) : Prop :=
  (exists err, as_Tenant_Get E (tenantID s) = inl err) ->
  teardown_steps (events_since w (start E s w)) = teardown_order.

(** An environment in which nothing can be reached: the management API and
    the broker fail every call. *)
Definition unreachable_env : Env :=
  {| as_Tenant_Get := fun _ => inl (ErrRemote "connection refused");
     as_Application_Get := fun _ => inl (ErrRemote "connection refused");
     as_Device_Create := fun _ => Some (ErrRemote "connection refused");
     as_Device_CreateKeys := fun _ => Some (ErrRemote "connection refused");
     as_Device_Delete := fun _ => Some (ErrRemote "connection refused");
     mqtt_Subscribe := fun _ => Some (ErrRemote "not connected");
     mqtt_Unsubscribe := fun _ => Some (ErrRemote "not connected");
     simulator_NewGateway := fun _ _ => None;
     simulator_NewDevice := fun _ => None;
     rand_entropy := fun _ => None;
     devices_csv := None;
     schedule := [];
     range_pick := fun _ _ => O;
     devices_stop := true |}.

(** An environment in which only the tenant cannot be resolved. *)
Definition tenant_missing_env : Env :=
  {| as_Tenant_Get := fun _ => inl (ErrRemote "not found");
     as_Application_Get := fun id => inr id;
     as_Device_Create := fun _ => None;
     as_Device_CreateKeys := fun _ => None;
     as_Device_Delete := fun _ => None;
     mqtt_Subscribe := fun _ => None;
     mqtt_Unsubscribe := fun _ => None;
     simulator_NewGateway := fun _ _ => None;
     simulator_NewDevice := fun _ => None;
     rand_entropy := fun _ => None;
     devices_csv := None;
     schedule := [];
     range_pick := fun _ _ => O;
     devices_stop := true |}.

(** A simulation as [Start] builds it: three gateways at most, one at least. *)
Definition example_simulation : simulation :=
  newSimulation (External 0)
    (mkSimulatorConfig "52f14cd4-c6f1-4fbd-8f87-4025e1d49242" 0 10 1 1 1 "00" 1 1 1 1 3
       "gateway/{{ .GatewayID }}/event/{{ .Event }}"
       "gateway/{{ .GatewayID }}/command/{{ .Command }}") [Byte.x00].

Definition empty_world : World := mkWorld [] [] 0.

(** C8 as the specification words it: after the gateway set-up the list has
    exactly [gatewayMaxCount] elements. *)
Definition gatewayIDs_length_is_count (s : simulation) (w : World) : Prop :=
  len (gatewayIDs (sim_after (setupGateways s w))) = gatewayMaxCount s.

(** A simulation as [Start] builds it from a configuration whose maximum
    gateway count is negative. *)
Definition negative_count_simulation : simulation :=
  newSimulation (External 0)
    (mkSimulatorConfig "52f14cd4-c6f1-4fbd-8f87-4025e1d49242" 0 10 1 1 1 "00" 1 1 1 (-3) (-2)
       "gateway/{{ .GatewayID }}/event/{{ .Event }}"
       "gateway/{{ .GatewayID }}/command/{{ .Command }}") [Byte.x00].

(** [m] enters the phase [F] and then behaves as [keeps] says, with events that
    are inside the phase. *)
Definition enters {X A} (extra : simulation -> X) (b : simulation) (x : X)
    (F : Fn) (m : M A) : Prop :=
  forall s w o s' w',
    settings s = b -> extra s = x ->
    m s w = (o, s', w') ->
    settings s' = b /\ extra s' = x /\
    exists evs, trace w' = trace w ++ Enter F :: evs /\ Forall (inner_ok b) evs.

(** The device a record of six fields or more stands for. *)
Definition device_of_record (record : list string) : option Device :=
  match record with
  | f0 :: f1 :: f2 :: f3 :: f4 :: f5 :: _ => Some (mkDevice f0 f1 f2 f3 f4 f5)
  | _ => None
  end.

(** The state in which the provisioning goroutines end, for the simulation
    [s] and the world [w] that [setupDevices] was called in. *)
Definition provisioning_end (E : Env) (s : simulation) (w : World) (devices : list Device)
  : PState :=
  run E (applicationID s) (schedule E)
    (provision_init devices (deviceAppKeys s) (trace w ++ [Enter F_setupDevices])).

(** An environment with a device list of a header and two rows, in which
    every call succeeds; the two tasks are interleaved, and the second waits
    for the mutex while the first holds it. *)
Definition two_devices_env : Env :=
  {| as_Tenant_Get := fun id => inr (mkTenant id "tenant");
     as_Application_Get := fun id => inr id;
     as_Device_Create := fun _ => None;
     as_Device_CreateKeys := fun _ => None;
     as_Device_Delete := fun _ => None;
     mqtt_Subscribe := fun _ => None;
     mqtt_Unsubscribe := fun _ => None;
     simulator_NewGateway := fun _ _ => None;
     simulator_NewDevice := fun _ => None;
     rand_entropy := fun i => Some (repeat (if Nat.even i then Byte.x5a else Byte.xa5) 16);
     devices_csv :=
       Some [ ["name"; "device_profile_id"; "dev_eui"; "nwk_key"; "join_eui"; "description"];
              ["A"; "p1"; "0102030405060708"; "k1"; "j1"; "first"];
              ["B"; "p1"; "0102030405060709"; "k2"; "j1"; "second"] ];
     schedule := [0; 0; 1; 0; 0; 2; 1; 2; 1; 2; 1; 2; 1; 2; 1; 2; 1; 2; 2; 2; 2; 2; 0; 0]%nat;
     range_pick := fun _ _ => O;
     devices_stop := true |}.

(** The state of the provisioning goroutines after the first [n] choices of
    the scheduler. *)
Definition provisioning_after (E : Env) (s : simulation) (w : World) (devices : list Device)
    (n : nat) : PState :=
  run E (applicationID s) (take n (schedule E))
    (provision_init devices (deviceAppKeys s) (trace w ++ [Enter F_setupDevices])).

(** The parenthesis of C4 as the specification words it: during the
    provisioning the map has its final size only once the completion barrier
    has released, that is once [wg.Wait()] has returned. *)
Definition final_size_only_after_barrier (E : Env) (s : simulation) (w : World)
    (devices : list Device) : Prop :=
  forall n,
    size (p_keys (provisioning_after E s w devices n)) =
      size (p_keys (provisioning_end E s w devices)) ->
    p_main (provisioning_after E s w devices n) = M_returned.

(** The devices of the list of [two_devices_env]. *)
Definition two_devices : list Device :=
  [ mkDevice "A" "p1" "0102030405060708" "k1" "j1" "first";
    mkDevice "B" "p1" "0102030405060709" "k2" "j1" "second" ].

(** A device list whose header and row have five fields each, so that the
    csv reader accepts it. *)
Definition five_field_file : list (list string) :=
  [ ["name"; "device_profile_id"; "dev_eui"; "nwk_key"; "join_eui"];
    ["A"; "p1"; "0102030405060708"; "k1"; "j1"] ].

(** The environment of [two_devices_env] with that device list. *)
Definition five_field_env : Env :=
  {| as_Tenant_Get := as_Tenant_Get two_devices_env;
     as_Application_Get := as_Application_Get two_devices_env;
     as_Device_Create := as_Device_Create two_devices_env;
     as_Device_CreateKeys := as_Device_CreateKeys two_devices_env;
     as_Device_Delete := as_Device_Delete two_devices_env;
     mqtt_Subscribe := mqtt_Subscribe two_devices_env;
     mqtt_Unsubscribe := mqtt_Unsubscribe two_devices_env;
     simulator_NewGateway := simulator_NewGateway two_devices_env;
     simulator_NewDevice := simulator_NewDevice two_devices_env;
     rand_entropy := rand_entropy two_devices_env;
     devices_csv := Some five_field_file;
     schedule := schedule two_devices_env;
     range_pick := range_pick two_devices_env;
     devices_stop := devices_stop two_devices_env |}.

(** *** Vocabulary of the provisioning invariant *)

(** A task that has not yet called [wg.Done()] holds one unit of the
    WaitGroup. *)
Definition task_counts (t : Task) : Z :=
  match t_pc t with T_finished => 0 | _ => 1 end.

Definition live (tasks : list Task) : Z := foldr (fun t acc => task_counts t + acc) 0 tasks.

(** The unit added for a device whose goroutine is not yet spawned. *)
Definition pending_go (m : MainPc) : Z :=
  match m with M_go _ _ => 1 | _ => 0 end.

(** The devices the loop of [setupDevices] still has to spawn a task for. *)
Definition remaining (m : MainPc) : list Device :=
  match m with
  | M_add rest => rest
  | M_go dev rest => dev :: rest
  | M_wait | M_returned => []
  end.

(** The task has stored its key in [deviceAppKeys]. *)
Definition inserted (pc : TaskPc) : bool :=
  match pc with T_unlock | T_done | T_finished => true | _ => false end.

(** The task is between [Lock] and [Unlock]. *)
Definition in_critical_section (pc : TaskPc) : bool :=
  match pc with T_insert | T_unlock => true | _ => false end.

(** What holds of every state the provisioning goroutines can reach, for the
    device list [devices] and the map [keys0] they started with. *)
Record ProvInv (E : Env) (devices : list Device) (keys0 : gmap EUI64 AES128Key)
    (st : PState) : Prop := mkProvInv {
  (* one task per device already spawned, in the order of the list *)
  inv_devices : (t_dev <$> p_tasks st) ++ remaining (p_main st) = devices;
  (* the WaitGroup counts the tasks that have not finished *)
  inv_wg : p_wg st = live (p_tasks st) + pending_go (p_main st);
  (* wg.Wait() returned on a zero counter *)
  inv_returned : p_main st = M_returned -> p_wg st = 0;
  (* a task past its first statement holds the identity parsed from its row
     and the key crypto/rand gave it *)
  inv_started : forall i t, p_tasks st !! i = Some t -> t_pc t <> T_start ->
      t_devEUI t = parse_devEUI (t_dev t) /\
      rand_Read 16 (rand_entropy E i) = inr (t_appKey t);
  (* the map holds the key of every task that stored one *)
  inv_stored : forall i t, p_tasks st !! i = Some t -> inserted (t_pc t) = true ->
      p_keys st !! t_devEUI t = Some (t_appKey t);
  (* and nothing else *)
  inv_nothing_else : forall k v, p_keys st !! k = Some v ->
      keys0 !! k = Some v \/
      exists i t, p_tasks st !! i = Some t /\ inserted (t_pc t) = true /\
                  t_devEUI t = k /\ t_appKey t = v;
  (* the mutex is held exactly while one task is in its critical section *)
  inv_mutex : forall i t, p_tasks st !! i = Some t -> in_critical_section (t_pc t) = true ->
      p_mutex st = true /\
      forall j t', p_tasks st !! j = Some t' -> in_critical_section (t_pc t') = true -> j = i
}.

(** *** A schedule under which provisioning completes *)

(** The task a device starts as. *)
Definition fresh_task (dev : Device) : Task := mkTask dev T_start EUI64_zero AES128Key_zero.

(** The schedule that lets [setupDevices] spawn its [n] tasks, then runs the
    seven statements of each task in turn, then lets [wg.Wait()] return. *)
Definition sequential_schedule (n : nat) : list nat :=
  repeat O (2 * n + 1) ++ flat_map (fun i => repeat (S i) 7) (seq 0 n) ++ [O].

(** Every call of the [n] tasks succeeds. *)
Definition tasks_succeed (E : Env) (n : nat) : Prop :=
  forall i, (i < n)%nat ->
    (exists key, rand_Read 16 (rand_entropy E i) = inr key) /\
    as_Device_Create E i = None /\ as_Device_CreateKeys E i = None.

(** *** Vocabulary of the statements on keys *)



(** The row with its root-key field blanked. *)
Definition without_NwkKey (d : Device) : Device :=
  mkDevice (Name d) (DeviceProfileId d) (DevEui d) EmptyString (JoinEui d) (Description d).




(** The environment of [two_devices_env] with a management API that refuses
    to create devices. *)
Definition create_refused_env : Env :=
  {| as_Tenant_Get := as_Tenant_Get two_devices_env;
     as_Application_Get := as_Application_Get two_devices_env;
     as_Device_Create := fun _ => Some (ErrRemote "already exists");
     as_Device_CreateKeys := as_Device_CreateKeys two_devices_env;
     as_Device_Delete := as_Device_Delete two_devices_env;
     mqtt_Subscribe := mqtt_Subscribe two_devices_env;
     mqtt_Unsubscribe := mqtt_Unsubscribe two_devices_env;
     simulator_NewGateway := simulator_NewGateway two_devices_env;
     simulator_NewDevice := simulator_NewDevice two_devices_env;
     rand_entropy := rand_entropy two_devices_env;
     devices_csv := devices_csv two_devices_env;
     schedule := schedule two_devices_env;
     range_pick := range_pick two_devices_env;
     devices_stop := devices_stop two_devices_env |}.

(** *** Vocabulary of the further properties *)

(** The records of a device list all have as many fields as its first. *)
Definition uniform (records : list (list string)) : bool :=
  match records with
  | [] => true
  | first :: rest => forallb (fun r => (length r =? length first)%nat) rest
  end.

(** The first six fields of [record] are those of the device [d]. *)
Definition row_of_device (record : list string) (d : Device) : Prop :=
  exists more,
    record = Name d :: DeviceProfileId d :: DevEui d :: NwkKey d :: JoinEui d ::
             Description d :: more.

(** The six steps of set-up, in the order of [init]. *)
Definition setup_order : list Fn :=
  [ F_setupTenant; F_setupGateways; F_setupDeviceProfile; F_setupApplication;
    F_setupDevices; F_setupApplicationIntegration ].

(** The steps of [init] with the names they are entered under, in the order
    of the source. *)
Definition init_steps (E : Env) : list (Fn * M (option error)) :=
  [ (F_setupTenant, setupTenant E); (F_setupGateways, setupGateways);
    (F_setupDeviceProfile, setupDeviceProfile); (F_setupApplication, setupApplication E);
    (F_setupDevices, setupDevices E);
    (F_setupApplicationIntegration, setupApplicationIntegration E) ].

(** The steps that are attempted when each runs in the state the one before
    it left: all up to and including the first that does not return [nil],
    and none after it. *)
Fixpoint attempted (steps : list (Fn * M (option error))) (s : simulation) (w : World)
  : list Fn :=
  match steps with
  | [] => []
  | (F, m) :: rest =>
      F :: match m s w with
           | (Returned None, s', w') => attempted rest s' w'
           | _ => []
           end
  end.

(** [if err := step(); err != nil { return err }] for each step in turn, then
    [return nil]. *)
Definition chain (steps : list (Fn * M (option error))) : M (option error) :=
  foldr (fun step k => check step.2 k) (ret None) steps.

(** [m] enters the step [F] and no other method. *)
Definition step_enters (F : Fn) (m : M (option error)) : Prop :=
  forall s w, exists evs,
    trace (world_after (m s w)) = trace w ++ Enter F :: evs /\ entered evs = [].

(** [m] enters the steps of [order] one after the other, as far as it gets,
    and all of them when it returns without an error. *)
Definition in_order (order : list Fn) (m : M (option error)) : Prop :=
  forall s w, exists evs,
    trace (world_after (m s w)) = trace w ++ evs /\
    entered evs `prefix_of` order /\
    (outcome_of (m s w) = Returned None -> entered evs = order).

(** The devices a trace shows were constructed: identity and root key, in
    the order of construction. *)
Fixpoint devices_made (evs : list Event) : list (EUI64 * AES128Key) :=
  match evs with
  | [] => []
  | NewDevice _ o :: evs' => (o_DevEUI o, o_AppKey o) :: devices_made evs'
  | _ :: evs' => devices_made evs'
  end.

(** The gateways handed to a device are gateway objects of the pool
    [gateways], at the indices [idxs], no index twice. *)
Definition sampled_from (gateways : list Gateway) (ev : Event) : Prop :=
  match ev with
  | NewDevice _ o =>
      exists idxs : list Z,
        NoDup idxs /\ Forall (fun n => 0 <= n) idxs /\
        (Some <$> o_Gateways o) = ((fun n => gateways !! Z.to_nat n) <$> idxs)
  | _ => True
  end.

(** The gateways handed to a device are distinct objects, each built from the
    identity that [gatewayIDs] holds at its position. *)
Definition device_gateways_ok (s : simulation) (ev : Event) : Prop :=
  match ev with
  | NewDevice _ o =>
      NoDup (addr <$> o_Gateways o) /\
      Forall (fun g => gatewayIDs s !! addr g = Some (gatewayID g)) (o_Gateways o)
  | _ => True
  end.

(** What a device is made with besides its identity, key, gateways and delay:
    the values of the configuration. *)
Definition device_configured (s : simulation) (ev : Event) : Prop :=
  match ev with
  | NewDevice _ o =>
      o_UplinkInterval o = uplinkInterval s /\ o_Confirmed o = false /\
      o_FPort o = fPort s /\ o_Payload o = payload s /\
      o_Frequency o = frequency s mod 2 ^ 32 /\
      o_Bandwidth o = bandwidth s mod 2 ^ 32 /\
      o_SpreadingFactor o = spreadingFactor s mod 2 ^ 32
  | _ => True
  end.

(** The request to delete the device of identity [k]. *)
Definition delete_call (k : EUI64) : Event := Api Background (DeviceDelete (EUI64_String k)).

(** The management API accepts the deletion of the device [k]. *)
Definition deletable (E : Env) (k : EUI64) : Prop :=
  as_Device_Delete E (EUI64_String k) = None.

(** What an event on the broker may be for the application [app]: a
    subscription, at quality of service 0, or its removal, on the uplink topic
    of that application. *)
Definition topic_ok (app : string) (ev : Event) : Prop :=
  match ev with
  | MqttSubscribe topic qos => topic = uplink_topic app /\ qos = 0
  | MqttUnsubscribe topic => topic = uplink_topic app
  | _ => True
  end.

(** The event does not involve the broker. *)
Definition no_mqtt (ev : Event) : Prop :=
  match ev with
  | MqttSubscribe _ _ | MqttUnsubscribe _ => False
  | _ => True
  end.

(** [m] does not talk to the broker. *)
Definition quiet {A} (m : M A) : Prop :=
  forall s w, exists evs,
    trace (world_after (m s w)) = trace w ++ evs /\ Forall no_mqtt evs.

(** [m] talks to the broker about the application it leaves in the
    simulation. *)
Definition speaks {A} (m : M A) : Prop :=
  forall s w, exists evs,
    trace (world_after (m s w)) = trace w ++ evs /\
    Forall (topic_ok (applicationID (sim_after (m s w)))) evs.

(** [m] leaves the simulation as it is and talks to the broker about its
    application. *)
Definition steady {A} (m : M A) : Prop :=
  forall s w,
    sim_after (m s w) = s /\
    exists evs, trace (world_after (m s w)) = trace w ++ evs /\
                Forall (topic_ok (applicationID s)) evs.

(** The application identity [m] leaves is the one it found, or the one the
    management API returned for the hardcoded application. *)
Definition application_from (E : Env) {A} (m : M A) : Prop :=
  forall s w,
    applicationID (sim_after (m s w)) = applicationID s \/
    exists id, as_Application_Get E applicationID_text = inr id /\
               applicationID (sim_after (m s w)) = id.

(** *** Provisioning under any schedule and any device list *)

(** What holds of every state the provisioning goroutines can reach, whatever
    the device list: rows may share an identity, or have none that parses. *)
Record SyncInv (E : Env) (devices : list Device) (keys0 : gmap EUI64 AES128Key)
    (st : PState) : Prop := mkSyncInv {
  sync_devices : (t_dev <$> p_tasks st) ++ remaining (p_main st) = devices;
  sync_wg : p_wg st = live (p_tasks st) + pending_go (p_main st);
  sync_returned : p_main st = M_returned -> p_wg st = 0;
  sync_started : forall i t, p_tasks st !! i = Some t -> t_pc t <> T_start ->
      t_devEUI t = parse_devEUI (t_dev t) /\
      rand_Read 16 (rand_entropy E i) = inr (t_appKey t);
  (* the identity of a task that stored its key is in the map *)
  sync_stored : forall i t, p_tasks st !! i = Some t -> inserted (t_pc t) = true ->
      is_Some (p_keys st !! t_devEUI t);
  (* no entry is ever removed *)
  sync_kept : forall k, is_Some (keys0 !! k) -> is_Some (p_keys st !! k);
  (* an entry is one the map started with or the key of a task that stored it *)
  sync_nothing_else : forall k v, p_keys st !! k = Some v ->
      keys0 !! k = Some v \/
      exists i t, p_tasks st !! i = Some t /\ inserted (t_pc t) = true /\
                  t_devEUI t = k /\ t_appKey t = v;
  (* at most one task is between Lock and Unlock *)
  sync_excl : forall i j ti tj,
      p_tasks st !! i = Some ti -> p_tasks st !! j = Some tj ->
      in_critical_section (t_pc ti) = true -> in_critical_section (t_pc tj) = true ->
      i = j;
  (* and the mutex is held exactly then *)
  sync_holder : p_mutex st = true <->
      exists i t, p_tasks st !! i = Some t /\ in_critical_section (t_pc t) = true
}.

(** A device list in which two rows share an identity and a third has none
    that parses. *)
Definition shared_identity_file : list (list string) :=
  [ ["name"; "device_profile_id"; "dev_eui"; "nwk_key"; "join_eui"; "description"];
    ["A"; "p1"; "0102030405060708"; "k1"; "j1"; "first"];
    ["B"; "p1"; "0102030405060708"; "k2"; "j1"; "second"];
    ["C"; "p1"; "not an identity"; "k3"; "j1"; "third"] ].

(** The environment of [two_devices_env] with that device list, the tasks
    running one after the other. *)
Definition shared_identity_env : Env :=
  {| as_Tenant_Get := as_Tenant_Get two_devices_env;
     as_Application_Get := as_Application_Get two_devices_env;
     as_Device_Create := as_Device_Create two_devices_env;
     as_Device_CreateKeys := as_Device_CreateKeys two_devices_env;
     as_Device_Delete := as_Device_Delete two_devices_env;
     mqtt_Subscribe := mqtt_Subscribe two_devices_env;
     mqtt_Unsubscribe := mqtt_Unsubscribe two_devices_env;
     simulator_NewGateway := simulator_NewGateway two_devices_env;
     simulator_NewDevice := simulator_NewDevice two_devices_env;
     rand_entropy := rand_entropy two_devices_env;
     devices_csv := Some shared_identity_file;
     schedule := sequential_schedule 3;
     range_pick := range_pick two_devices_env;
     devices_stop := devices_stop two_devices_env |}.

(** The simulation [sim] is the one [Start] builds for the entry [c]: the
    settings of [c] with its payload decoded, the parent context, and nothing
    set up yet. *)
Definition started_for (parent : Ctx) (c : SimulatorConfig) (sim : simulation) : Prop :=
  Start_one parent c = inr sim /\
  ctx sim = parent /\ deviceAppKeys sim = ∅ /\ gatewayIDs sim = [] /\
  applicationID sim = EmptyString /\ tenant sim = None.




(** What follows the device loop in the trace of the run phase, by its
    outcome: the signal handler is installed once every device is made, and
    the deferred cancel of the run context runs when the phase returns or
    panics after the context was made. *)
Definition run_tail (s : simulation) (o : Outcome (option error)) (evs rest : list Event)
  : Prop :=
  match o with
  | Returned None => rest = [SignalNotify; Cancel (runContext s)]
  | Returned (Some e) =>
      (exists err, e = ErrWrap "new gateway error" err /\ evs = [] /\ rest = []) \/
      (exists err, e = ErrWrap "new device error" err /\ rest = [Cancel (runContext s)])
  | Panicked _ => rest = [Cancel (runContext s)]
  | Exited => rest = []
  | Pending => rest = [] \/ rest = [SignalNotify]
  end.

(** A request of the provisioning is made for a row of the device list: a
    device is created under the identity parsed from the row, with the name,
    description and device profile of the row, in the application [appID];
    its keys are created under that identity with the 16 random bytes of the
    row's task. *)
Definition row_call (E : Env) (devices : list Device) (appID : string) (ev : Event) : Prop :=
  match ev with
  | Api c (DeviceCreate devEui name description applicationId deviceProfileId) =>
      c = Background /\ applicationId = appID /\
      exists dev, dev ∈ devices /\
        devEui = EUI64_String (parse_devEUI dev) /\ name = Name dev /\
        description = Description dev /\ deviceProfileId = DeviceProfileId dev
  | Api c (DeviceCreateKeys devEui nwkKey) =>
      c = Background /\
      exists i dev key, devices !! i = Some dev /\
        devEui = EUI64_String (parse_devEUI dev) /\
        rand_Read 16 (rand_entropy E i) = inr key /\ nwkKey = AES128Key_String key
  | _ => False
  end.

(** *** Contexts and what their end reaches *)

(** [c] is [anc] or a context derived from it: when [anc] ends, cancelled or
    past its deadline, so does [c]. *)
Fixpoint derived_from (c anc : Ctx) : bool :=
  bool_decide (c = anc) ||
  match c with
  | WithCancel p | WithTimeout p _ => derived_from p anc
  | _ => false
  end.

(** The end of the context [c] reaches the operation [ev]: the operation was
    given a context that can end, [c] itself or one derived from it. *)
Definition interrupted_by (c : Ctx) (ev : Event) : bool :=
  match ev with
  | Api c' _ | NewDevice c' _ => cancellable c' && derived_from c' c
  | _ => false
  end.

(** What the events of set-up and of tear-down are: the entry of a step, a
    call to the management API under the background context, or a request to
    the broker, which takes no context. None makes, hands on or cancels a
    context, and none starts a signal handler. *)
Definition fixture_event (ev : Event) : Prop :=
  match ev with
  | Enter _ | MqttSubscribe _ _ | MqttUnsubscribe _ => True
  | Api c _ => c = Background
  | _ => False
  end.

(** How an event of a life cycle uses contexts, [c] being the run context
    and [parent] the context of the simulation: a call to the management API
    is under the background context and the end of no context reaches it; a
    device is given [c], so that the end of [c] or of [parent] reaches it; and
    [c] is the only context that is cancelled. *)
Definition context_use (parent c : Ctx) (ev : Event) : Prop :=
  match ev with
  | Api c' _ => c' = Background /\ forall c0, interrupted_by c0 ev = false
  | NewDevice c' _ =>
      c' = c /\ interrupted_by c ev = true /\ interrupted_by parent ev = true
  | Cancel c' => c' = c
  | _ => True
  end.

(** [m] adds only events that satisfy [P]. *)
Definition only {A} (P : Event -> Prop) (m : M A) : Prop :=
  forall s w, exists evs,
    trace (world_after (m s w)) = trace w ++ evs /\ Forall P evs.

(** A simulation after set-up, with three gateway identities and one
    provisioned device, and a world whose draws give the device one gateway
    and an activation delay of 5. *)
Definition provisioned_simulation : simulation :=
  set_deviceAppKeys {[ gateway_identity := repeat Byte.x5a 16 ]}
    (set_gatewayIDs (repeat gateway_identity 3) example_simulation).

Definition three_draws : World := mkWorld [] [0; 0; 5] 0.

(** * Properties *)

(** ** Machine integers and random draws *)

Lemma wrap64_id (z : Z) : is_int64 z -> wrap64 z = z.
Proof.
  unfold is_int64, int64_min, int64_max, wrap64. intros Hz.
  rewrite Z.mod_small; lia.
Qed.

Lemma wrap64_range (z : Z) : is_int64 (wrap64 z).
Proof.
  unfold is_int64, int64_min, int64_max, wrap64.
  pose proof (Z.mod_pos_bound (z + 2 ^ 63) (2 ^ 64) ltac:(lia)). lia.
Qed.

Lemma len_nonneg {A} (l : list A) : 0 <= len l.
Proof. unfold len. lia. Qed.

Lemma Intn_returned (n : Z) (ds : list Z) (r : Z) (rest : list Z) :
  Intn n ds = (Returned r, rest) ->
  0 < n /\ 0 <= r < n /\ exists d, ds = d :: rest /\ r = d mod n.
Proof.
  unfold Intn. destruct (n <=? 0) eqn:Hn; [discriminate |].
  apply Z.leb_gt in Hn. destruct ds as [| d ds']; [discriminate |].
  intros [= <- <-]. split; [lia |]. split; [apply Z.mod_pos_bound; lia |].
  eauto.
Qed.

Lemma Int63n_returned (n : Z) (ds : list Z) (r : Z) (rest : list Z) :
  Int63n n ds = (Returned r, rest) ->
  0 < n /\ 0 <= r < n /\ exists d, ds = d :: rest /\ r = d mod n.
Proof.
  unfold Int63n. destruct (n <=? 0) eqn:Hn; [discriminate |].
  apply Z.leb_gt in Hn. destruct ds as [| d ds']; [discriminate |].
  intros [= <- <-]. split; [lia |]. split; [apply Z.mod_pos_bound; lia |].
  eauto.
Qed.

(** ** Ranging over a map *)

(** Whatever the environment picks, a range visits every entry exactly
    once. *)
Lemma range_from_Permutation {A} (pick : nat -> nat) (fuel : nat) :
  forall l : list A, length l = fuel -> range_from pick fuel l ≡ₚ l.
Proof.
  induction fuel as [| fuel IH]; intros l Hl.
  - by destruct l.
  - simpl. destruct l as [| a l]; [discriminate |].
    set (i := (pick (length (a :: l)) mod length (a :: l))%nat).
    assert (Hi : (i < length (a :: l))%nat) by (apply Nat.mod_upper_bound; simpl; lia).
    destruct (lookup_lt_is_Some_2 _ _ Hi) as [x Hx]. rewrite Hx.
    rewrite (delete_Permutation (a :: l) i x Hx) at 2.
    constructor. apply IH.
    pose proof (length_delete (a :: l) i (ex_intro _ x Hx)) as Hd.
    simpl in Hl, Hd |- *. lia.
Qed.

Lemma range_order_Permutation {A} (pick : nat -> nat) (l : list A) :
  range_order pick l ≡ₚ l.
Proof. by apply range_from_Permutation. Qed.

(** ** The gateway sampler *)

(** The loop draws its index with [mrand.Intn(len(gateways))]. *)
Lemma fill_loop_unfold (ds : list Z) (k : Z) (gws : list Gateway) (m : gmap Z Gateway) :
  fill_loop ds k gws m =
    if map_len m <? k then
      match Intn (len gws) ds with
      | (Returned n, rest) =>
          match gws !! Z.to_nat n with
          | Some g => fill_loop rest k gws (<[n := g]> m)
          | None => (Panicked (IndexOutOfRange n (len gws)), rest)
          end
      | (Exited, rest) => (Exited, rest)
      | (Panicked p, rest) => (Panicked p, rest)
      | (Pending, rest) => (Pending, rest)
      end
    else (Returned m, ds).
Proof.
  unfold Intn. destruct ds as [| d ds']; simpl;
    destruct (map_len m <? k); destruct (len gws <=? 0); reflexivity.
Qed.

Lemma map_len_insert (n : Z) (g : Gateway) (m : gmap Z Gateway) :
  map_len m <= map_len (<[n := g]> m) <= map_len m + 1.
Proof.
  unfold map_len. rewrite map_size_insert. destruct (m !! n); simpl; lia.
Qed.

Lemma fill_loop_returned (ds : list Z) :
  forall (k : Z) (gws : list Gateway) (m m' : gmap Z Gateway) (rest : list Z),
    fill_loop ds k gws m = (Returned m', rest) ->
    (map_len m <= k -> map_len m' = k) /\
    (k <= map_len m -> m' = m) /\
    (forall n g, m' !! n = Some g ->
       m !! n = Some g \/ (0 <= n < len gws /\ gws !! Z.to_nat n = Some g)).
Proof.
  induction ds as [| d ds IH]; intros k gws m m' rest Hrun;
    rewrite fill_loop_unfold in Hrun;
    destruct (map_len m <? k) eqn:Hlt.
  - unfold Intn in Hrun. destruct (len gws <=? 0); discriminate.
  - apply Z.ltb_ge in Hlt. injection Hrun as <- <-.
    repeat split; [lia | auto].
  - apply Z.ltb_lt in Hlt.
    destruct (Intn (len gws) (d :: ds)) as [[n | | p |] ds'] eqn:HI; try discriminate.
    apply Intn_returned in HI as (HP & Hn & d' & [= <- <-] & ->).
    destruct (gws !! Z.to_nat (d mod len gws)) as [g |] eqn:Hg; [| discriminate].
    apply IH in Hrun as (Hsize & _ & Hsub).
    pose proof (map_len_insert (d mod len gws) g m) as Hins.
    split; [intros _; apply Hsize; lia |].
    split; [lia |].
    intros n' g' Hn'. destruct (Hsub n' g' Hn') as [Hm | Hm]; [| by right].
    destruct (decide (d mod len gws = n')) as [<- | Hne].
    + rewrite lookup_insert_eq in Hm. injection Hm as <-. right. split; [lia | done].
    + rewrite lookup_insert_ne in Hm by done. by left.
  - apply Z.ltb_ge in Hlt. injection Hrun as <- <-.
    repeat split; [lia | auto].
Qed.

(** The loop neither ends the process, nor panics when the target is within
    the pool. *)
Lemma fill_loop_safe (ds : list Z) :
  forall (k : Z) (gws : list Gateway) (m : gmap Z Gateway),
    k <= len gws ->
    (exists m' rest, fill_loop ds k gws m = (Returned m', rest)) \/
    (exists rest, fill_loop ds k gws m = (Pending, rest)).
Proof.
  induction ds as [| d ds IH]; intros k gws m Hk;
    rewrite fill_loop_unfold; destruct (map_len m <? k) eqn:Hlt; eauto.
  - apply Z.ltb_lt in Hlt. unfold Intn.
    pose proof (Zle_0_nat (size m)). unfold map_len in Hlt.
    destruct (len gws <=? 0) eqn:HP; [apply Z.leb_le in HP; lia |]. eauto.
  - apply Z.ltb_lt in Hlt. unfold Intn.
    pose proof (Zle_0_nat (size m)). unfold map_len in Hlt.
    destruct (len gws <=? 0) eqn:HP; [apply Z.leb_le in HP; lia |].
    apply Z.leb_gt in HP.
    pose proof (Z.mod_pos_bound d (len gws) HP) as Hmod.
    destruct (gws !! Z.to_nat (d mod len gws)) as [g |] eqn:Hg; [by apply IH |].
    apply lookup_ge_None in Hg. unfold len in *. lia.
Qed.

(** While the loop waits for another draw, the indices it holds and those the
    draws gave are fewer than the target. *)
Lemma fill_loop_pending (ds : list Z) :
  forall (k : Z) (gws : list Gateway) (m : gmap Z Gateway) (rest : list Z),
    fill_loop ds k gws m = (Pending, rest) ->
    Z.of_nat (size (dom m ∪ drawn (len gws) ds)) < k.
Proof.
  induction ds as [| d ds IH]; intros k gws m rest Hrun;
    rewrite fill_loop_unfold in Hrun;
    destruct (map_len m <? k) eqn:Hlt; try discriminate.
  - apply Z.ltb_lt in Hlt. unfold drawn. simpl.
    rewrite (right_id_L ∅ (∪)). rewrite size_dom. exact Hlt.
  - destruct (Intn (len gws) (d :: ds)) as [[n | | p |] ds'] eqn:HI; try discriminate.
    + apply Intn_returned in HI as (HP & Hn & d' & [= <- <-] & ->).
      destruct (gws !! Z.to_nat (d mod len gws)) as [g |] eqn:Hg; [| discriminate].
      apply IH in Hrun. rewrite dom_insert_L in Hrun.
      rewrite (comm_L (∪) {[d mod len gws]} (dom m)) in Hrun.
      rewrite <- (assoc_L (∪)) in Hrun. exact Hrun.
    + unfold Intn in HI. destruct (len gws <=? 0); discriminate.
Qed.

Lemma covers_size (P : Z) (ds : list Z) (X : gset Z) :
  covers P ds -> P <= Z.of_nat (size (X ∪ drawn P ds)).
Proof.
  intros Hc.
  assert (Hsub : (list_to_set (seqZ 0 P) : gset Z) ⊆ X ∪ drawn P ds).
  { intros n Hn. apply elem_of_list_to_set, elem_of_seqZ in Hn.
    destruct (Hc n) as (d & Hd & Hmod); [lia |].
    apply elem_of_union_r. unfold drawn. apply elem_of_list_to_set.
    apply list_elem_of_fmap. exists d. split; [by rewrite Hmod | done]. }
  apply subseteq_size in Hsub.
  rewrite size_list_to_set in Hsub by apply NoDup_seqZ.
  rewrite length_seqZ in Hsub. lia.
Qed.

Lemma wrap64_spec (z : Z) : exists q, wrap64 z = z - q * 2 ^ 64 /\ is_int64 (wrap64 z).
Proof.
  exists ((z + 2 ^ 63) / 2 ^ 64). split; [| apply wrap64_range].
  unfold wrap64. pose proof (Z.div_mod (z + 2 ^ 63) (2 ^ 64) ltac:(lia)). lia.
Qed.

(** The argument of the first draw: positive exactly when the difference of
    the two counts does not overflow, and then it is their difference plus
    one. *)
Lemma span_no_overflow (min max : Z) :
  is_int64 min -> is_int64 max -> min <= max ->
  let n := wrap64 (wrap64 (max - min) + 1) in
  (0 < n -> n = max - min + 1) /\ (max - min < int64_max -> n = max - min + 1).
Proof.
  intros Hmin Hmax Hle n. subst n.
  destruct (wrap64_spec (max - min)) as (q1 & Hq1 & Hr1).
  destruct (wrap64_spec (wrap64 (max - min) + 1)) as (q2 & Hq2 & Hr2).
  rewrite Hq2, Hq1 in *. clear Hq1 Hq2.
  unfold is_int64, int64_min, int64_max in *.
  change (2 ^ 63) with 9223372036854775808 in *.
  change (2 ^ 64) with 18446744073709551616 in *.
  split; intros; lia.
Qed.

Lemma indices_len (m : gmap Z Gateway) : len (indices m) = map_len m.
Proof.
  unfold len, indices, map_len. by rewrite length_fmap, length_map_to_list.
Qed.

Lemma elem_of_indices (m : gmap Z Gateway) (n : Z) :
  n ∈ indices m <-> exists g, m !! n = Some g.
Proof.
  unfold indices. rewrite list_elem_of_fmap. split.
  - intros ([n' g] & -> & Hin). exists g. by apply elem_of_map_to_list.
  - intros (g & Hg). exists (n, g). split; [done |]. by apply elem_of_map_to_list.
Qed.

(** C3. Topology bounds of the sampler. With [gatewayMinCount <=
    gatewayMaxCount] and a pool of [gatewayMaxCount] gateways, whatever the
    random draws, the index set the sampler returns for a device has exactly
    [k] members for a [k] between the two counts, no index occurs twice in it,
    and every index lies in [[0, P)]; for non-negative counts [k] is the
    number drawn first. The sampler does return such a set: unless the
    difference of the counts overflows it never panics, and it ends as soon
    as the draws have offered enough distinct indices. *)
Theorem sampleGateways_topology (min max : Z) (gateways : list Gateway) (ds : list Z) :
  is_int64 min -> is_int64 max ->
  min <= max ->
  len gateways = max ->
  (forall m rest,
     sampleGateways min max gateways ds = (Returned m, rest) ->
     exists k, len (indices m) = k /\ min <= k <= max /\
       NoDup (indices m) /\
       Forall (fun n => 0 <= n < len gateways) (indices m) /\
       (forall n g, m !! n = Some g -> gateways !! Z.to_nat n = Some g) /\
       (0 <= min -> exists r ds', ds = r :: ds' /\ k = min + r mod (max - min + 1)))
  /\
  (max - min < int64_max ->
     (forall p rest, sampleGateways min max gateways ds <> (Panicked p, rest)) /\
     (forall rest, sampleGateways min max gateways ds <> (Exited, rest)) /\
     (forall r ds', ds = r :: ds' -> covers (len gateways) ds' ->
        exists m rest, sampleGateways min max gateways ds = (Returned m, rest))).
Proof.
  intros Hmin Hmax Hle HP.
  destruct (span_no_overflow min max Hmin Hmax Hle) as [Hpos Hno].
  pose proof (len_nonneg gateways) as HP0.
  split.
  - intros m rest Hrun. unfold sampleGateways in Hrun.
    destruct (Intn _ ds) as [[r | | p |] ds'] eqn:HI; try discriminate.
    apply Intn_returned in HI as (Hn & Hr & d & -> & Hrd).
    rewrite (Hpos Hn) in *.
    rewrite wrap64_id in Hrun by (unfold is_int64 in *; lia).
    apply fill_loop_returned in Hrun as (Hsize & Hsame & Hsub).
    change (map_len ∅) with 0 in *.
    exists (len (indices m)). split; [done |].
    assert (Hk : len (indices m) = Z.max 0 (min + r)).
    { rewrite indices_len. destruct (Z.le_gt_cases 0 (min + r)) as [H0 | H0].
      - rewrite Hsize by done. lia.
      - rewrite Hsame by lia. change (map_len ∅) with 0. lia. }
    split; [lia |].
    split; [apply NoDup_fst_map_to_list |].
    split; [| split].
    + apply Forall_forall. intros n Hn'. apply elem_of_indices in Hn' as (g & Hg).
      destruct (Hsub n g Hg) as [Hemp | [Hrange _]]; [| done].
      by rewrite lookup_empty in Hemp.
    + intros n g Hg. destruct (Hsub n g Hg) as [Hemp | [_ Hgw]]; [| done].
      by rewrite lookup_empty in Hemp.
    + intros H0. exists d, ds'. split; [done |]. rewrite Hk, Hrd. lia.
  - intros Hov. specialize (Hno Hov).
    assert (Hcases :
      (exists rest, sampleGateways min max gateways ds = (Pending, rest) /\
         (ds = [] \/ exists r ds' k, ds = r :: ds' /\ k <= max /\
            fill_loop ds' k gateways ∅ = (Pending, rest))) \/
      (exists m rest, sampleGateways min max gateways ds = (Returned m, rest))).
    { unfold sampleGateways. rewrite Hno. unfold Intn.
      destruct (max - min + 1 <=? 0) eqn:Hz; [apply Z.leb_le in Hz; lia |].
      apply Z.leb_gt in Hz.
      destruct ds as [| r ds']; [left; eauto |].
      pose proof (Z.mod_pos_bound r (max - min + 1) Hz) as Hr.
      rewrite wrap64_id by (unfold is_int64 in *; lia).
      destruct (fill_loop_safe ds' (min + r mod (max - min + 1)) gateways ∅)
        as [(m & rest & Hret) | (rest & Hpend)]; [lia | right; eauto |].
      left. exists rest. split; [done |]. right.
      exists r, ds', (min + r mod (max - min + 1)). repeat split; [lia | done]. }
    split; [| split].
    + intros p rest Hp.
      destruct Hcases as [(rest' & Heq & _) | (m & rest' & Heq)]; congruence.
    + intros rest Hp.
      destruct Hcases as [(rest' & Heq & _) | (m & rest' & Heq)]; congruence.
    + intros r ds' -> Hcov.
      destruct Hcases as [(rest & _ & [Hnil | Hpend]) | Hret]; [discriminate | | done].
      destruct Hpend as (r' & ds'' & k & [= <- <-] & Hk & Hpend).
      apply fill_loop_pending in Hpend.
      pose proof (covers_size (len gateways) ds' (dom (∅ : gmap Z Gateway)) Hcov). lia.
Qed.

(** C3, at a pool of five gateways and the range [[2, 5]]. *)
Lemma sampleGateways_topology_witness :
  exists m rest,
    sampleGateways 2 5 (map (mkGateway []) (seq 0 5)) [7; 3; 3; 4; 9; 1; 0; 2; 6] = (Returned m, rest) /\
    len (indices m) = 5 /\ NoDup (indices m).
Proof.
  pose proof (sampleGateways_topology 2 5 (map (mkGateway []) (seq 0 5))
                [7; 3; 3; 4; 9; 1; 0; 2; 6]) as H.
  destruct H as [H1 H2].
  - unfold is_int64, int64_min, int64_max. lia.
  - unfold is_int64, int64_min, int64_max. lia.
  - lia.
  - reflexivity.
  - destruct H2 as (_ & _ & Hret).
    + unfold int64_max. lia.
    + destruct (Hret 7 [3; 3; 4; 9; 1; 0; 2; 6] eq_refl) as (m & rest & Hrun).
      * intros n Hn. change (len (map (mkGateway []) (seq 0 5))) with 5 in *.
        assert (n = 0 \/ n = 1 \/ n = 2 \/ n = 3 \/ n = 4) as Hc by lia.
        destruct Hc as [-> | [-> | [-> | [-> | ->]]]].
        -- exists 0. split; [apply list_elem_of_In; simpl; tauto | reflexivity].
        -- exists 1. split; [apply list_elem_of_In; simpl; tauto | reflexivity].
        -- exists 2. split; [apply list_elem_of_In; simpl; tauto | reflexivity].
        -- exists 3. split; [apply list_elem_of_In; simpl; tauto | reflexivity].
        -- exists 4. split; [apply list_elem_of_In; simpl; tauto | reflexivity].
      * exists m, rest. split; [exact Hrun |].
        destruct (H1 m rest Hrun) as (k & Hk & Hb & Hnd & _ & _ & Hdrawn).
        destruct Hdrawn as (r & ds' & [= <- <-] & Hkr); [lia |].
        split; [| exact Hnd]. rewrite Hk, Hkr. reflexivity.
Defined.

(** ** What the steps keep and what they add to the trace *)

Lemma grows_refl (P : Event -> Prop) (w : World) : grows P w w.
Proof. exists []. split; [by rewrite app_nil_r | constructor]. Qed.

Lemma grows_trans (P : Event -> Prop) (w1 w2 w3 : World) :
  grows P w1 w2 -> grows P w2 w3 -> grows P w1 w3.
Proof.
  intros (e1 & H1 & F1) (e2 & H2 & F2). exists (e1 ++ e2).
  split; [by rewrite H2, H1, app_assoc | by apply Forall_app].
Qed.

Lemma grows_same_trace (P : Event -> Prop) (w w' : World) :
  trace w' = trace w -> grows P w w'.
Proof. intros H. exists []. split; [by rewrite app_nil_r | constructor]. Qed.

Lemma grows_emit (P : Event -> Prop) (w : World) (ev : Event) :
  P ev -> grows P w (mkWorld (trace w ++ [ev]) (draws w) (ranges w)).
Proof. intros H. exists [ev]. split; [done | by repeat constructor]. Qed.

Section Keeping.

Context {X : Type} (extra : simulation -> X) (b : simulation) (x : X) (P : Event -> Prop).

Lemma keeps_ret {A} (a : A) : keeps extra b x P (ret a).
Proof. intros s w o s' w' Hb Hx [= <- <- <-]. auto using grows_refl. Qed.

Lemma keeps_stop {A} (o : Outcome A) : keeps extra b x P (stop o).
Proof. intros s w o' s' w' Hb Hx [= <- <- <-]. auto using grows_refl. Qed.

Lemma keeps_bind {A B} (m : M A) (k : A -> M B) :
  keeps extra b x P m -> (forall a, keeps extra b x P (k a)) ->
  keeps extra b x P (bind m k).
Proof.
  intros Hm Hk s w o s' w' Hb Hx Hrun. unfold bind in Hrun.
  destruct (m s w) as [[o1 s1] w1] eqn:Hm1.
  destruct (Hm _ _ _ _ _ Hb Hx Hm1) as (Hb1 & Hx1 & Hg1).
  destruct o1 as [a | | p |]; try (injection Hrun as <- <- <-; auto).
  destruct (Hk a _ _ _ _ _ Hb1 Hx1 Hrun) as (Hb2 & Hx2 & Hg2).
  eauto using grows_trans.
Qed.

Lemma keeps_get {A} (k : simulation -> M A) :
  (forall s0, settings s0 = b -> extra s0 = x -> keeps extra b x P (k s0)) ->
  keeps extra b x P (bind get k).
Proof.
  intros Hk s w o s' w' Hb Hx Hrun. unfold bind, get in Hrun.
  exact (Hk s Hb Hx _ _ _ _ _ Hb Hx Hrun).
Qed.

Lemma keeps_modify (f : simulation -> simulation) :
  (forall s, settings (f s) = settings s) -> (forall s, extra s = x -> extra (f s) = x) ->
  keeps extra b x P (modify f).
Proof.
  intros Hf Hg s w o s' w' Hb Hx [= <- <- <-].
  rewrite Hf. auto using grows_refl.
Qed.

Lemma keeps_emit (ev : Event) : P ev -> keeps extra b x P (emit ev).
Proof. intros H s w o s' w' Hb Hx [= <- <- <-]. auto using grows_emit. Qed.

Lemma keeps_check (m k : M (option error)) :
  keeps extra b x P m -> keeps extra b x P k -> keeps extra b x P (check m k).
Proof.
  intros Hm Hk. apply keeps_bind; [done |]. intros [err |]; [apply keeps_ret | done].
Qed.

Lemma keeps_deferred {A} (ev : Event) (m : M A) :
  P ev -> keeps extra b x P m -> keeps extra b x P (deferred ev m).
Proof.
  intros Hev Hm s w o s' w' Hb Hx Hrun. unfold deferred in Hrun.
  destruct (m s w) as [[o1 s1] w1] eqn:Hm1.
  destruct (Hm _ _ _ _ _ Hb Hx Hm1) as (Hb1 & Hx1 & Hg1).
  destruct o1; injection Hrun as <- <- <-;
    eauto using grows_trans, grows_emit.
Qed.

Lemma keeps_range_over (E : Env) {A} (l : list A) : keeps extra b x P (range_over E l).
Proof.
  intros s w o s' w' Hb Hx [= <- <- <-]. auto using grows_same_trace.
Qed.

Lemma keeps_draw {A} (f : list Z -> Outcome A * list Z) : keeps extra b x P (draw f).
Proof.
  intros s w o s' w' Hb Hx Hrun. unfold draw in Hrun.
  destruct (f (draws w)) as [o1 ds]. injection Hrun as <- <- <-.
  auto using grows_same_trace.
Qed.

End Keeping.

Lemma keeps_weaken {X A} (extra : simulation -> X) (b : simulation) (x : X)
    (P Q : Event -> Prop) (m : M A) :
  (forall ev, P ev -> Q ev) -> keeps extra b x P m -> keeps extra b x Q m.
Proof.
  intros HPQ Hm s w o s' w' Hb Hx Hrun.
  destruct (Hm _ _ _ _ _ Hb Hx Hrun) as (Hb1 & Hx1 & evs & Ht & HF).
  repeat split; [done | done |]. exists evs. split; [done |].
  eapply Forall_impl; eauto.
Qed.

Lemma settings_set_tenant v s : settings (set_tenant v s) = settings s.
Proof. by destruct s. Qed.
Lemma settings_set_deviceProfileID v s : settings (set_deviceProfileID v s) = settings s.
Proof. by destruct s. Qed.
Lemma settings_set_applicationID v s : settings (set_applicationID v s) = settings s.
Proof. by destruct s. Qed.
Lemma settings_set_gatewayIDs v s : settings (set_gatewayIDs v s) = settings s.
Proof. by destruct s. Qed.
Lemma settings_set_deviceAppKeys v s : settings (set_deviceAppKeys v s) = settings s.
Proof. by destruct s. Qed.

Lemma settings_runContext (s : simulation) : runContext (settings s) = runContext s.
Proof. by destruct s. Qed.
Lemma settings_activationTime (s : simulation) : activationTime (settings s) = activationTime s.
Proof. by destruct s. Qed.

Lemma keeps_draw_bind {X A B} (extra : simulation -> X) (b : simulation) (x : X)
    (P : Event -> Prop) (f : list Z -> Outcome A * list Z) (k : A -> M B) :
  (forall a ds rest, f ds = (Returned a, rest) -> keeps extra b x P (k a)) ->
  keeps extra b x P (bind (draw f) k).
Proof.
  intros Hk s w o s' w' Hb Hx Hrun. unfold bind, draw in Hrun.
  destruct (f (draws w)) as [o1 ds] eqn:Hf.
  destruct o1 as [a | | p |]; try (injection Hrun as <- <- <-; auto using grows_same_trace).
  destruct (Hk a _ _ Hf _ _ _ _ _ Hb Hx Hrun) as (Hb2 & Hx2 & Hg2).
  repeat split; [done | done |].
  eapply grows_trans; [| exact Hg2]. by apply grows_same_trace.
Qed.

Lemma inner_ok_event_ok (b : simulation) (ev : Event) : inner_ok b ev -> event_ok b ev.
Proof. destruct ev; simpl; tauto. Qed.

Lemma keeps_inner_event {X A} (extra : simulation -> X) (b : simulation) (x : X) (m : M A) :
  keeps extra b x (inner_ok b) m -> keeps extra b x (event_ok b) m.
Proof. apply keeps_weaken, inner_ok_event_ok. Qed.

Lemma enters_intro {X A} (extra : simulation -> X) (b : simulation) (x : X) (F : Fn)
    (body : M A) :
  keeps extra b x (inner_ok b) body -> enters extra b x F (enter F ;; body).
Proof.
  intros Hbody s w o s' w' Hb Hx Hrun.
  unfold bind, enter, emit in Hrun.
  destruct (Hbody _ _ _ _ _ Hb Hx Hrun) as (Hb1 & Hx1 & evs & Ht & HF).
  repeat split; [done | done |]. exists evs. split; [| done].
  simpl in Ht. by rewrite Ht, <- app_assoc.
Qed.

Lemma enters_keeps {X A} (extra : simulation -> X) (b : simulation) (x : X) (F : Fn)
    (m : M A) :
  enters extra b x F m -> keeps extra b x (event_ok b) m.
Proof.
  intros Hm s w o s' w' Hb Hx Hrun.
  destruct (Hm _ _ _ _ _ Hb Hx Hrun) as (Hb1 & Hx1 & evs & Ht & HF).
  repeat split; [done | done |]. exists (Enter F :: evs). split; [done |].
  constructor; [done |]. eapply Forall_impl; [exact HF | apply inner_ok_event_ok].
Qed.

(** *** The provisioning goroutines only call the management API, under the
    background context *)

Definition provisioning_call (ev : Event) : Prop :=
  exists call, ev = Api Background call.

Lemma pstep_trace (E : Env) (appID : string) (c : nat) (st st' : PState) :
  pstep E appID c st = Some st' ->
  exists evs, p_trace st' = p_trace st ++ evs /\ Forall provisioning_call evs.
Proof.
  unfold pstep, main_step, task_step. intros H.
  repeat (case_match; simplify_eq); simpl;
    first [ by (exists []; rewrite app_nil_r; split; [done | constructor])
          | by (eexists [_]; split; [done | repeat constructor; eexists; done]) ].
Qed.

Lemma run_trace (E : Env) (appID : string) (sched : list nat) :
  forall st, exists evs,
    p_trace (run E appID sched st) = p_trace st ++ evs /\ Forall provisioning_call evs.
Proof.
  induction sched as [| c sched IH]; intros st; simpl.
  - exists []. split; [by rewrite app_nil_r | constructor].
  - destruct (pstep E appID c st) as [st1 |] eqn:Hstep; simpl; [| apply IH].
    destruct (pstep_trace _ _ _ _ _ Hstep) as (e1 & H1 & F1).
    destruct (IH st1) as (e2 & H2 & F2).
    exists (e1 ++ e2). split; [by rewrite H2, H1, app_assoc | by apply Forall_app].
Qed.

Lemma provisioning_call_ok (b : simulation) (ev : Event) :
  provisioning_call ev -> inner_ok b ev.
Proof. by intros (call & ->). Qed.

(** *** Each step of the life cycle *)

Section Steps.

Context (E : Env).
Context {X : Type} (extra : simulation -> X) (b : simulation) (x : X).

(* [extra] is a part of the simulation that the steps after the gateway
   set-up do not assign. *)
Hypothesis extra_deviceProfileID : forall v s, extra (set_deviceProfileID v s) = extra s.
Hypothesis extra_applicationID : forall v s, extra (set_applicationID v s) = extra s.
Hypothesis extra_deviceAppKeys : forall v s, extra (set_deviceAppKeys v s) = extra s.

Local Ltac keeps_step :=
  lazymatch goal with
  | |- keeps _ _ _ _ (ret _) => apply keeps_ret
  | |- keeps _ _ _ _ (stop _) => apply keeps_stop
  | |- keeps _ _ _ _ (emit _) => apply keeps_emit; simpl; done
  | |- keeps _ _ _ _ (enter _) => apply keeps_emit; simpl; done
  | |- keeps _ _ _ _ (check _ _) => apply keeps_check
  | |- keeps _ _ _ _ (range_over _ _) => apply keeps_range_over
  | |- keeps _ _ _ _ (draw _) => apply keeps_draw
  | |- keeps _ _ _ _ (modify _) =>
      apply keeps_modify;
        [ intros; first [ apply settings_set_deviceProfileID
                        | apply settings_set_applicationID
                        | apply settings_set_deviceAppKeys ]
        | intros ? <-; first [ apply extra_deviceProfileID
                             | apply extra_applicationID
                             | apply extra_deviceAppKeys ] ]
  | |- keeps _ _ _ _ (bind get _) => apply keeps_get; intros ? ? ?
  | |- keeps _ _ _ _ (bind _ _) => apply keeps_bind; [| intros ?]
  | |- keeps _ _ _ _ (match ?d with _ => _ end) => destruct d
  end.

Local Ltac keeps_tac := repeat keeps_step.

Lemma keeps_setupDeviceProfile : keeps extra b x (inner_ok b) setupDeviceProfile.
Proof.
  unfold setupDeviceProfile. generalize (uuid_FromString deviceProfileID_text).
  intros [dpID err]. keeps_tac.
Qed.

Lemma keeps_setupApplication : keeps extra b x (inner_ok b) (setupApplication E).
Proof. unfold setupApplication. keeps_tac. Qed.

Lemma keeps_setupDevices : keeps extra b x (inner_ok b) (setupDevices E).
Proof.
  unfold setupDevices. apply keeps_bind; [keeps_tac |]. intros _.
  intros s w o s' w' Hb Hx Hrun.
  destruct (readDevicesFromCSV (devices_csv E)) as [[devices [err |]] | | p |];
    try (injection Hrun as <- <- <-; auto using grows_refl).
  destruct (run_trace E (applicationID s) (schedule E)
              (provision_init devices (deviceAppKeys s) (trace w))) as (evs & Ht & HF).
  assert (Hg : grows (inner_ok b) w
                 (mkWorld (p_trace (run E (applicationID s) (schedule E)
                    (provision_init devices (deviceAppKeys s) (trace w)))) (draws w) (ranges w))).
  { exists evs. split; [exact Ht |].
    eapply Forall_impl; [exact HF |]. apply provisioning_call_ok. }
  repeat case_match; injection Hrun as <- <- <-;
    rewrite settings_set_deviceAppKeys, extra_deviceAppKeys; auto.
Qed.

Lemma keeps_setupApplicationIntegration :
  keeps extra b x (inner_ok b) (setupApplicationIntegration E).
Proof. unfold setupApplicationIntegration. keeps_tac. Qed.

Lemma keeps_tearDownApplicationIntegration :
  keeps extra b x (inner_ok b) (tearDownApplicationIntegration E).
Proof. unfold tearDownApplicationIntegration. keeps_tac. Qed.

Lemma keeps_tearDownDevices_loop (ks : list EUI64) :
  keeps extra b x (inner_ok b) (tearDownDevices_loop E ks).
Proof. induction ks as [| k ks IH]; simpl; keeps_tac. exact IH. Qed.

Lemma keeps_tearDownDevices : keeps extra b x (inner_ok b) (tearDownDevices E).
Proof. unfold tearDownDevices. keeps_tac. apply keeps_tearDownDevices_loop. Qed.

Lemma keeps_tearDownApplication : keeps extra b x (inner_ok b) tearDownApplication.
Proof. unfold tearDownApplication. keeps_tac. Qed.

Lemma keeps_tearDownDeviceProfile : keeps extra b x (inner_ok b) tearDownDeviceProfile.
Proof. unfold tearDownDeviceProfile. keeps_tac. Qed.

Lemma keeps_tearDownGateways : keeps extra b x (inner_ok b) tearDownGateways.
Proof. unfold tearDownGateways. keeps_tac. Qed.

Lemma enters_tearDown : enters extra b x F_tearDown (tearDown E).
Proof.
  unfold tearDown. apply enters_intro.
  repeat apply keeps_check;
    auto using keeps_tearDownApplicationIntegration, keeps_tearDownDevices,
      keeps_tearDownApplication, keeps_tearDownDeviceProfile, keeps_tearDownGateways,
      keeps_ret.
Qed.

Lemma keeps_newGateways (ids : list EUI64) :
  forall gateways, keeps extra b x (inner_ok b) (newGateways E ids gateways).
Proof.
  induction ids as [| id ids IH]; intros gateways; simpl; keeps_tac. apply IH.
Qed.

Lemma keeps_newDevices (s0 : simulation) (entries : list (EUI64 * AES128Key)) :
  settings s0 = b ->
  forall gateways made,
    keeps extra b x (inner_ok b) (newDevices E s0 (runContext s0) gateways entries made).
Proof.
  intros Hs0. induction entries as [| [devEUI appKey] entries IH]; intros gateways made; simpl.
  - apply keeps_ret.
  - apply keeps_bind; [apply keeps_draw |]. intros devGateways.
    apply keeps_bind; [apply keeps_range_over |]. intros picked.
    apply keeps_draw_bind. intros delay ds rest Hdelay.
    apply Int63n_returned in Hdelay as (_ & Hrange & _).
    apply keeps_bind.
    + apply keeps_emit. simpl.
      rewrite <- Hs0, settings_runContext, settings_activationTime. done.
    + intros _. destruct (simulator_NewDevice E devEUI); [apply keeps_ret | apply IH].
Qed.

Lemma keeps_wait_devices (made : nat) : keeps extra b x (inner_ok b) (wait_devices E made).
Proof. unfold wait_devices. keeps_tac. Qed.

Lemma enters_runSimulation : enters extra b x F_runSimulation (runSimulation E).
Proof.
  unfold runSimulation. apply enters_intro.
  apply keeps_get. intros s0 Hs0 _.
  apply keeps_bind; [apply keeps_newGateways |]. intros [err | gateways]; [apply keeps_ret |].
  apply keeps_deferred.
  { simpl. by rewrite <- Hs0, settings_runContext. }
  apply keeps_bind; [apply keeps_range_over |]. intros entries.
  apply keeps_bind; [by apply keeps_newDevices |]. intros [err | made]; [apply keeps_ret |].
  apply keeps_bind; [by apply keeps_emit |]. intros _.
  apply keeps_bind; [apply keeps_wait_devices | intros _; apply keeps_ret].
Qed.

End Steps.

(** *** The gateway set-up *)

Lemma gatewayID_text_parses :
  (EUI64_UnmarshalText EUI64_zero gatewayID_text).1 = gateway_identity.
Proof. reflexivity. Qed.

Lemma settings_for_lt (fuel : nat) :
  forall i n s, settings (for_lt fuel i n setupGateways_body s) = settings s.
Proof.
  induction fuel as [| fuel IH]; intros i n s; simpl; [done |].
  destruct (i <? n); [| done]. rewrite IH. unfold setupGateways_body.
  apply settings_set_gatewayIDs.
Qed.

Lemma gatewayIDs_set_gatewayIDs v s : gatewayIDs (set_gatewayIDs v s) = v.
Proof. by destruct s. Qed.

(** The loop appends the hardcoded identity once per index below [n]; the
    fuel [Z.to_nat n] is enough for it to end by its own test. *)
Lemma for_lt_gatewayIDs (fuel : nat) :
  forall i n s,
    is_int64 n -> 0 <= i ->
    (Z.to_nat (n - i) <= fuel)%nat ->
    gatewayIDs (for_lt fuel i n setupGateways_body s) =
      gatewayIDs s ++ repeat gateway_identity (Z.to_nat (n - i)).
Proof.
  induction fuel as [| fuel IH]; intros i n s Hn Hi Hfuel; simpl.
  - replace (Z.to_nat (n - i)) with 0%nat by lia. by rewrite app_nil_r.
  - destruct (i <? n) eqn:Hlt.
    + apply Z.ltb_lt in Hlt.
      rewrite wrap64_id by (unfold is_int64, int64_min, int64_max in *; lia).
      rewrite IH by (assumption || lia).
      unfold setupGateways_body. rewrite gatewayIDs_set_gatewayIDs, gatewayID_text_parses.
      replace (Z.to_nat (n - i)) with (S (Z.to_nat (n - (i + 1)))) by lia.
      simpl. by rewrite <- app_assoc.
    + apply Z.ltb_ge in Hlt.
      replace (Z.to_nat (n - i)) with 0%nat by lia. by rewrite app_nil_r.
Qed.

Lemma setupGateways_gatewayIDs (s : simulation) (w : World) :
  is_int64 (gatewayMaxCount s) ->
  gatewayIDs (sim_after (setupGateways s w)) =
    gatewayIDs s ++ repeat gateway_identity (Z.to_nat (gatewayMaxCount s)).
Proof.
  intros Hn. unfold setupGateways, sim_after, bind, enter, emit, get, modify, ret. simpl.
  rewrite for_lt_gatewayIDs by (done || lia). by rewrite Z.sub_0_r.
Qed.

Lemma setupGateways_returns (s : simulation) (w : World) :
  outcome_of (setupGateways s w) = Returned None.
Proof. reflexivity. Qed.

Section WholeLifeCycle.

Context (E : Env) (b : simulation).

Let nothing : simulation -> unit := fun _ => tt.

Lemma keeps_setupTenant : keeps nothing b tt (inner_ok b) (setupTenant E).
Proof.
  unfold setupTenant.
  apply keeps_bind; [by apply keeps_emit |]. intros _.
  apply keeps_get. intros s0 _ _.
  apply keeps_bind; [by apply keeps_emit |]. intros _.
  destruct (as_Tenant_Get E (tenantID s0)); [apply keeps_ret |].
  apply keeps_bind; [| intros _; apply keeps_ret].
  apply keeps_modify; [apply settings_set_tenant | done].
Qed.

Lemma keeps_setupGateways : keeps nothing b tt (inner_ok b) setupGateways.
Proof.
  unfold setupGateways.
  apply keeps_bind; [by apply keeps_emit |]. intros _.
  apply keeps_get. intros s0 _ _.
  apply keeps_bind; [| intros _; apply keeps_ret].
  apply keeps_modify; [intros s; apply settings_for_lt | done].
Qed.

Lemma enters_init : enters nothing b tt F_init (init E).
Proof.
  unfold init. apply enters_intro.
  repeat apply keeps_check;
    auto using keeps_setupTenant, keeps_setupGateways, keeps_setupDeviceProfile,
      keeps_setupApplication, keeps_setupDevices, keeps_setupApplicationIntegration,
      keeps_ret.
Qed.

Lemma keeps_logged (msg : string) (m : M (option error)) :
  keeps nothing b tt (event_ok b) m -> keeps nothing b tt (event_ok b) (logged msg m).
Proof.
  intros Hm. unfold logged. apply keeps_bind; [done |].
  intros [err |]; [by apply keeps_emit | apply keeps_ret].
Qed.

Lemma keeps_start : keeps nothing b tt (event_ok b) (start E).
Proof.
  unfold start.
  apply keeps_bind; [eapply keeps_logged, enters_keeps, enters_init |]. intros _.
  apply keeps_bind; [eapply keeps_logged, enters_keeps; by apply enters_runSimulation |].
  intros _.
  apply keeps_bind; [eapply keeps_logged, enters_keeps; by apply enters_tearDown |].
  intros _.
  by apply keeps_emit.
Qed.

End WholeLifeCycle.

(** Every event of a whole life cycle is as [event_ok] says, and the settings
    are those the simulation started with. *)
Lemma start_events (E : Env) (s : simulation) (w : World) :
  settings (sim_after (start E s w)) = settings s /\
  grows (event_ok (settings s)) w (world_after (start E s w)).
Proof.
  destruct (start E s w) as [[o s'] w'] eqn:Hrun.
  destruct (keeps_start E (settings s) s w o s' w' eq_refl eq_refl Hrun) as (H1 & _ & H2).
  done.
Qed.

(** ** The activation delay (C9) *)

(** C9. The activation delay of every device made, in the run phase alone or
    in a whole life cycle, lies in [[0, activationTime)], whatever the random
    draws; and with a positive activation time the draw does give a delay. *)
Theorem otaa_delay_in_activation_window (E : Env) (s : simulation) (w : World) :
  (exists evs,
     trace (world_after (runSimulation E s w)) = trace w ++ evs /\
     Forall (fun ev => forall c o, ev = NewDevice c o ->
                         0 <= o_OTAADelay o < activationTime s) evs) /\
  (exists evs,
     trace (world_after (start E s w)) = trace w ++ evs /\
     Forall (fun ev => forall c o, ev = NewDevice c o ->
                         0 <= o_OTAADelay o < activationTime s) evs) /\
  (forall d ds delay rest,
     Int63n (activationTime s) (d :: ds) = (Returned delay, rest) ->
     0 <= delay < activationTime s) /\
  (0 < activationTime s ->
   forall d ds, Int63n (activationTime s) (d :: ds) = (Returned (d mod activationTime s), ds)).
Proof.
  assert (Hev : forall ev, event_ok (settings s) ev ->
                  forall c o, ev = NewDevice c o -> 0 <= o_OTAADelay o < activationTime s).
  { intros ev Hok c o ->. unfold event_ok in Hok.
    rewrite settings_activationTime in Hok. tauto. }
  split; [| split; [| split]].
  - destruct (runSimulation E s w) as [[o s'] w'] eqn:Hrun.
    assert (Hk : keeps (fun _ => tt) (settings s) tt (event_ok (settings s))
                   (runSimulation E))
      by (eapply enters_keeps; by apply enters_runSimulation).
    destruct (Hk s w o s' w' eq_refl eq_refl Hrun) as (_ & _ & evs & Ht & HF).
    exists evs. split; [exact Ht |]. eapply Forall_impl; [exact HF | exact Hev].
  - destruct (start_events E s w) as (_ & evs & Ht & HF).
    exists evs. split; [exact Ht |]. eapply Forall_impl; [exact HF | exact Hev].
  - intros d ds delay rest Hd. by apply Int63n_returned in Hd as (_ & Hr & _).
  - intros Hpos d ds. unfold Int63n.
    destruct (activationTime s <=? 0) eqn:Hz; [apply Z.leb_le in Hz; lia | done].
Qed.

(** ** The gateway identities (C8, C10) *)

Lemma later_steps_keep_gatewayIDs (E : Env) (op : M (option error)) :
  op ∈ later_steps E ->
  forall s w, gatewayIDs (sim_after (op s w)) = gatewayIDs s.
Proof.
  intros Hop s w.
  assert (Hk : keeps gatewayIDs (settings s) (gatewayIDs s) (event_ok (settings s)) op).
  { unfold later_steps in Hop.
    repeat (apply elem_of_cons in Hop as [-> | Hop]);
      [ apply keeps_inner_event, keeps_setupDeviceProfile
      | apply keeps_inner_event, keeps_setupApplication
      | apply keeps_inner_event, keeps_setupDevices
      | apply keeps_inner_event, keeps_setupApplicationIntegration
      | eapply enters_keeps, enters_runSimulation
      | apply keeps_inner_event, keeps_tearDownApplicationIntegration
      | apply keeps_inner_event, keeps_tearDownDevices
      | apply keeps_inner_event, keeps_tearDownApplication
      | apply keeps_inner_event, keeps_tearDownDeviceProfile
      | apply keeps_inner_event, keeps_tearDownGateways
      | eapply enters_keeps, enters_tearDown
      | by apply elem_of_nil in Hop ];
      by intros ? []. }
  destruct (op s w) as [[o s'] w'] eqn:Hrun.
  by destruct (Hk s w o s' w' eq_refl eq_refl Hrun) as (_ & ? & _).
Qed.

(** C8. The gateway set-up of a simulation that has no gateway identity yet
    always returns, and leaves [gatewayIDs] with [max(gatewayMaxCount, 0)]
    elements: exactly [gatewayMaxCount] for a count that is not negative, and
    none for a negative count, for which the loop body never runs. No step
    that comes after it, in set-up, in the run phase or in tear-down, changes
    the list. *)
Theorem gatewayIDs_fixed_after_setup (E : Env) (s : simulation) (w : World) :
  is_int64 (gatewayMaxCount s) ->
  gatewayIDs s = [] ->
  outcome_of (setupGateways s w) = Returned None /\
  length (gatewayIDs (sim_after (setupGateways s w))) = Z.to_nat (gatewayMaxCount s) /\
  len (gatewayIDs (sim_after (setupGateways s w))) = Z.max 0 (gatewayMaxCount s) /\
  (0 <= gatewayMaxCount s ->
   len (gatewayIDs (sim_after (setupGateways s w))) = gatewayMaxCount s) /\
  (gatewayMaxCount s < 0 -> gatewayIDs (sim_after (setupGateways s w)) = []) /\
  (forall op, op ∈ later_steps E ->
     forall s2 w2, gatewayIDs (sim_after (op s2 w2)) = gatewayIDs s2).
Proof.
  intros Hn Hnil. split; [reflexivity |].
  rewrite setupGateways_gatewayIDs by done. rewrite Hnil. simpl.
  unfold len. rewrite repeat_length.
  split; [done |]. split; [lia |]. split; [lia |]. split.
  - intros Hneg. by replace (Z.to_nat (gatewayMaxCount s)) with 0%nat by lia.
  - apply later_steps_keep_gatewayIDs.
Qed.

(** C8, for a simulation as [Start] builds it, with three gateways. *)
Lemma gatewayIDs_fixed_after_setup_witness :
  length (gatewayIDs (sim_after (setupGateways example_simulation empty_world))) = 3%nat.
Proof.
  apply (gatewayIDs_fixed_after_setup two_devices_env example_simulation empty_world).
  - unfold is_int64, int64_min, int64_max. simpl. lia.
  - reflexivity.
Defined.

(** C8 as the specification words it fails for a negative count: configured
    with [gatewayMaxCount = -2], the gateway set-up leaves no identity, a list
    of length 0 and not -2. *)
Lemma negative_count_leaves_no_gateway :
  gatewayIDs (sim_after (setupGateways negative_count_simulation empty_world)) = [] /\
  gatewayMaxCount negative_count_simulation = -2 /\
  ~ gatewayIDs_length_is_count negative_count_simulation empty_world.
Proof.
  assert (H : gatewayIDs (sim_after (setupGateways negative_count_simulation empty_world))
              = []) by reflexivity.
  split; [exact H |]. split; [reflexivity |].
  unfold gatewayIDs_length_is_count. rewrite H. discriminate.
Qed.

Lemma newGateways_returned (E : Env) (ids : list EUI64) :
  forall acc s w gateways s' w',
    newGateways E ids acc s w = (Returned (inr gateways), s', w') ->
    gatewayID <$> gateways = (gatewayID <$> acc) ++ ids /\
    (addr <$> gateways = (addr <$> acc) ++ seq (length acc) (length ids)).
Proof.
  induction ids as [| id ids IH]; intros acc s w gateways s' w' Hrun; simpl in Hrun.
  - injection Hrun as <- <- <-. by rewrite !app_nil_r.
  - unfold bind at 1 in Hrun. unfold emit in Hrun. simpl in Hrun.
    destruct (simulator_NewGateway E id (length acc)); [discriminate |].
    apply IH in Hrun as [Hids Haddrs].
    rewrite Hids, Haddrs, !fmap_app, length_app. simpl.
    rewrite <- !app_assoc. simpl. by rewrite Nat.add_1_r.
Qed.

Lemma sampleGateways_members (min max : Z) (gateways : list Gateway) (ds : list Z)
    (m : gmap Z Gateway) (rest : list Z) :
  sampleGateways min max gateways ds = (Returned m, rest) ->
  forall n g, m !! n = Some g -> gateways !! Z.to_nat n = Some g.
Proof.
  unfold sampleGateways. intros Hrun n g Hg.
  destruct (Intn _ ds) as [[r | | p |] ds']; try discriminate.
  apply fill_loop_returned in Hrun as (_ & _ & Hsub).
  destruct (Hsub n g Hg) as [Hemp | [_ Hgw]]; [| done].
  by rewrite lookup_empty in Hemp.
Qed.

(** C10. After the gateway set-up every element of [gatewayIDs] is the one
    identity 10-20-30-40-50-60-70-80, the text of which is hardcoded: the list
    is that identity [gatewayMaxCount] times. The gateway objects the run
    phase builds from it are distinct objects with that same identity, so
    whatever indices the sampler picks for a device, the gateways it assigns
    all have that identity. *)
Theorem gateways_share_one_identity (E : Env) (s : simulation) (w : World) :
  is_int64 (gatewayMaxCount s) ->
  gatewayIDs s = [] ->
  let ids := gatewayIDs (sim_after (setupGateways s w)) in
  (EUI64_UnmarshalText EUI64_zero "1020304050607080").1 = gateway_identity /\
  ids = repeat gateway_identity (Z.to_nat (gatewayMaxCount s)) /\
  Forall (fun id => id = gateway_identity) ids /\
  forall s2 w2 gateways s3 w3,
    newGateways E ids [] s2 w2 = (Returned (inr gateways), s3, w3) ->
    length gateways = Z.to_nat (gatewayMaxCount s) /\
    NoDup (addr <$> gateways) /\
    Forall (fun g => gatewayID g = gateway_identity) gateways /\
    forall min max ds m rest,
      sampleGateways min max gateways ds = (Returned m, rest) ->
      NoDup (indices m) /\
      forall n g, m !! n = Some g -> gatewayID g = gateway_identity.
Proof.
  intros Hn Hnil ids. subst ids.
  rewrite setupGateways_gatewayIDs by done. rewrite Hnil. simpl.
  split; [reflexivity |]. split; [reflexivity |].
  split; [apply Forall_forall; intros id Hid; by apply list_elem_of_In, repeat_spec in Hid |].
  intros s2 w2 gateways s3 w3 Hgw.
  apply newGateways_returned in Hgw as [Hids Haddrs]. simpl in Hids, Haddrs.
  assert (Hall : Forall (fun g => gatewayID g = gateway_identity) gateways).
  { apply Forall_forall. intros g Hg.
    assert (Hin : gatewayID g ∈ gatewayID <$> gateways) by by apply list_elem_of_fmap_2.
    rewrite Hids in Hin. by apply list_elem_of_In, repeat_spec in Hin. }
  split; [| split; [| split]].
  - rewrite <- (length_fmap gatewayID), Hids. apply repeat_length.
  - rewrite Haddrs. apply NoDup_ListNoDup, List.seq_NoDup.
  - exact Hall.
  - intros min max ds m rest Hrun. split; [apply NoDup_fst_map_to_list |].
    intros n g Hg. eapply sampleGateways_members in Hg; [| exact Hrun].
    eapply Forall_forall in Hall; [exact Hall |].
    by eapply list_elem_of_lookup_2.
Qed.

(** C10, for a simulation as [Start] builds it, with three gateways. *)
Lemma gateways_share_one_identity_witness :
  gatewayIDs (sim_after (setupGateways example_simulation empty_world)) =
    [gateway_identity; gateway_identity; gateway_identity].
Proof.
  apply (gateways_share_one_identity two_devices_env example_simulation empty_world).
  - unfold is_int64, int64_min, int64_max. simpl. lia.
  - reflexivity.
Defined.

(** ** The life cycle: phases and tear-down steps (C1) *)

Lemma entered_app (t1 t2 : list Event) : entered (t1 ++ t2) = entered t1 ++ entered t2.
Proof.
  induction t1 as [| ev t1 IH]; simpl; [done |].
  destruct ev; simpl; by rewrite ?IH.
Qed.

Lemma phases_app (t1 t2 : list Event) : phases (t1 ++ t2) = phases t1 ++ phases t2.
Proof. unfold phases. by rewrite entered_app, List.filter_app. Qed.

Lemma teardown_steps_app (t1 t2 : list Event) :
  teardown_steps (t1 ++ t2) = teardown_steps t1 ++ teardown_steps t2.
Proof. unfold teardown_steps. by rewrite entered_app, List.filter_app. Qed.

Lemma phases_inner (b : simulation) (evs : list Event) :
  Forall (inner_ok b) evs -> phases evs = [].
Proof.
  induction 1 as [| ev evs Hev _ IH]; [done |].
  change (ev :: evs) with ([ev] ++ evs). rewrite phases_app, IH, app_nil_r.
  destruct ev; try done. unfold phases. simpl in *. by rewrite Hev.
Qed.

Lemma events_since_app {A} (w : World) (r : Outcome A * simulation * World)
    (evs : list Event) :
  trace (world_after r) = trace w ++ evs -> events_since w r = evs.
Proof. intros H. unfold events_since. rewrite H. by rewrite drop_app_length. Qed.

(** The loop of [tearDownDevices] always returns; it enters no method, and its
    only error is that of a failed delete. *)
Lemma tearDownDevices_loop_shape (E : Env) (ks : list EUI64) :
  forall s w, exists e evs,
    tearDownDevices_loop E ks s w =
      (Returned e, s, mkWorld (trace w ++ evs) (draws w) (ranges w)) /\
    entered evs = [] /\
    (e = None \/ exists err, e = Some (ErrWrap "delete device error" err)).
Proof.
  induction ks as [| k ks IH]; intros s w; simpl.
  - exists None, []. rewrite app_nil_r. by destruct w; auto.
  - unfold bind at 1. unfold emit. simpl.
    destruct (as_Device_Delete E (EUI64_String k)) as [err |].
    + eexists _, [_]. split; [reflexivity |]. split; [done | eauto].
    + destruct (IH s (mkWorld (trace w ++ [Api Background (DeviceDelete (EUI64_String k))])
                        (draws w) (ranges w))) as (e & evs & Hrun & Hent & He).
      exists e, (Api Background (DeviceDelete (EUI64_String k)) :: evs).
      rewrite Hrun. simpl. rewrite <- app_assoc. auto.
Qed.

(** Tear-down always returns. It attempts its steps in their order and stops
    at the first that fails: the unsubscribe, or a delete of a device. *)
Lemma tearDown_shape (E : Env) (s : simulation) (w : World) :
  exists e evs,
    outcome_of (tearDown E s w) = Returned e /\
    sim_after (tearDown E s w) = s /\
    trace (world_after (tearDown E s w)) = trace w ++ evs /\
    phases evs = [F_tearDown] /\
    match mqtt_Unsubscribe E (uplink_topic (applicationID s)) with
    | Some err =>
        e = Some (ErrWrap "unsubscribe application integration error" err) /\
        teardown_steps evs = [F_tearDownApplicationIntegration]
    | None =>
        (e = None /\ teardown_steps evs = teardown_order) \/
        ((exists err, e = Some (ErrWrap "delete device error" err)) /\
         teardown_steps evs = [F_tearDownApplicationIntegration; F_tearDownDevices])
    end.
Proof.
  unfold tearDown, check, tearDownApplicationIntegration, tearDownDevices,
    tearDownApplication, tearDownDeviceProfile, tearDownGateways, range_over.
  unfold bind, enter, emit, get, ret, outcome_of, sim_after, world_after. simpl.
  destruct (mqtt_Unsubscribe E (uplink_topic (applicationID s))) as [err |]; simpl.
  - eexists _, [_; _; _]. rewrite <- !app_assoc. simpl. repeat split; reflexivity.
  - match goal with
    | |- context [tearDownDevices_loop E ?ks ?s0 ?w0] =>
        destruct (tearDownDevices_loop_shape E ks s0 w0) as (e & evs & Hrun & Hent & He);
        rewrite Hrun
    end.
    simpl in *. destruct He as [-> | [err ->]]; simpl.
    + eexists None, (_ :: _ :: _ :: _ :: evs ++ [_; _; _]).
      repeat (rewrite <- ?app_assoc; simpl).
      repeat split.
      * unfold phases. simpl. rewrite entered_app, Hent. reflexivity.
      * left. split; [done |]. unfold teardown_steps. simpl.
        rewrite entered_app, Hent. reflexivity.
    + eexists _, (_ :: _ :: _ :: _ :: evs).
      repeat (rewrite <- ?app_assoc; simpl).
      repeat split.
      * unfold phases. simpl. by rewrite Hent.
      * right. split; [eauto |]. unfold teardown_steps. simpl. by rewrite Hent.
Qed.

(** A phase run under [logged]: it adds its own entry and no other phase, and
    returns exactly when the phase does, with an error or without. *)
Lemma logged_shape (msg : string) (F : Fn) (m : M (option error)) (b : simulation) :
  is_phase F = true ->
  enters (fun _ => tt) b tt F m ->
  forall s w, settings s = b ->
    settings (sim_after (logged msg m s w)) = b /\
    (exists evs, trace (world_after (logged msg m s w)) = trace w ++ evs /\
                 phases evs = [F]) /\
    ((exists e, outcome_of (m s w) = Returned e) <->
     outcome_of (logged msg m s w) = Returned tt).
Proof.
  intros HF Hm s w Hb. unfold logged, bind, outcome_of, sim_after, world_after.
  destruct (m s w) as [[o s1] w1] eqn:Hrun.
  destruct (Hm _ _ _ _ _ Hb eq_refl Hrun) as (Hb1 & _ & evs & Ht & Hin).
  assert (Hph : phases (Enter F :: evs) = [F]).
  { change (Enter F :: evs) with ([Enter F] ++ evs).
    rewrite phases_app, (phases_inner b evs Hin), app_nil_r.
    unfold phases. simpl. by rewrite HF. }
  destruct o as [[err |] | | p |]; simpl.
  - split; [done |]. split; [| split; eauto].
    exists ((Enter F :: evs) ++ [LogError msg err]).
    split; [by rewrite Ht, app_assoc |]. by rewrite phases_app, Hph.
  - split; [done |]. split; [eauto | split; eauto].
  - split; [done |]. split; [eauto |]. split; [intros [e [=]] | discriminate].
  - split; [done |]. split; [eauto |]. split; [intros [e [=]] | discriminate].
  - split; [done |]. split; [eauto |]. split; [intros [e [=]] | discriminate].
Qed.

Lemma returned_iff {A} (o : Outcome A) : returned o = true <-> exists a, o = Returned a.
Proof. destruct o; simpl; split; eauto; try discriminate; by intros [a [=]]. Qed.

(** The phases of [start]: set-up is entered; the run phase is entered exactly
    when set-up returned, and tear-down exactly when the run phase returned,
    whatever errors they returned. *)
Lemma start_phases (E : Env) (s : simulation) (w : World) :
  let r1 := logged "simulator: init simulation error" (init E) s w in
  let run := runSimulation E (sim_after r1) (world_after r1) in
  phases (events_since w (start E s w)) =
    F_init ::
      (if returned (outcome_of (init E s w)) then
         F_runSimulation :: (if returned (outcome_of run) then [F_tearDown] else [])
       else []) /\
  (outcome_of (start E s w) = Returned tt <->
   returned (outcome_of (init E s w)) = true /\ returned (outcome_of run) = true).
Proof.
  intros r1 run.
  destruct (logged_shape "simulator: init simulation error" F_init (init E) (settings s)
              eq_refl (enters_init E (settings s)) s w eq_refl)
    as (Hb1 & (evs1 & Ht1 & Hp1) & Hret1).
  fold r1 in Hb1, Ht1, Hret1.
  assert (Hrun : enters (fun _ => tt) (settings s) tt F_runSimulation (runSimulation E))
    by by apply enters_runSimulation.
  destruct (logged_shape "simulator: simulation error" F_runSimulation (runSimulation E)
              (settings s) eq_refl Hrun (sim_after r1) (world_after r1) Hb1)
    as (Hb2 & (evs2 & Ht2 & Hp2) & Hret2).
  fold run in Hret2.
  set (r2 := logged "simulator: simulation error" (runSimulation E)
               (sim_after r1) (world_after r1)) in *.
  assert (Htd : enters (fun _ => tt) (settings s) tt F_tearDown (tearDown E))
    by by apply enters_tearDown.
  destruct (logged_shape "simulator: tear-down simulation error" F_tearDown (tearDown E)
              (settings s) eq_refl Htd (sim_after r2) (world_after r2) Hb2)
    as (Hb3 & (evs3 & Ht3 & Hp3) & Hret3).
  set (r3 := logged "simulator: tear-down simulation error" (tearDown E)
               (sim_after r2) (world_after r2)) in *.
  destruct (tearDown_shape E (sim_after r2) (world_after r2)) as (e3 & _ & Hout3 & _).
  assert (Hr3 : outcome_of r3 = Returned tt) by (apply Hret3; eauto).
  rewrite <- returned_iff in Hret1, Hret2.
  assert (Hstart : start E s w =
            match outcome_of r1 with
            | Returned _ =>
                match outcome_of r2 with
                | Returned _ =>
                    (Returned tt, sim_after r3,
                     mkWorld (trace (world_after r3) ++ [WgDone])
                       (draws (world_after r3)) (ranges (world_after r3)))
                | _ => r2
                end
            | _ => r1
            end).
  { unfold start. unfold bind at 1. fold r1.
    destruct r1 as [[[[] | | p1 |] s1] w1]; try reflexivity.
    unfold bind at 1. unfold sim_after, world_after in r2. simpl in r2. fold r2.
    destruct r2 as [[[[] | | p2 |] s2] w2]; try reflexivity.
    unfold bind at 1. unfold sim_after, world_after in r3. simpl in r3. fold r3.
    unfold outcome_of in Hr3.
    destruct r3 as [[o3 s3] w3]. simpl in Hr3. subst o3. reflexivity. }
  rewrite Hstart. clear Hstart.
  assert (H1 : returned (outcome_of (init E s w)) = returned (outcome_of r1)).
  { destruct (outcome_of r1) as [[] | | |]; simpl; [by apply Hret1 | ..];
      (destruct (returned (outcome_of (init E s w))); [| done];
       by pose proof (proj1 Hret1 eq_refl)). }
  assert (H2 : returned (outcome_of run) = returned (outcome_of r2)).
  { destruct (outcome_of r2) as [[] | | |]; simpl; [by apply Hret2 | ..];
      (destruct (returned (outcome_of run)); [| done];
       by pose proof (proj1 Hret2 eq_refl)). }
  rewrite H1, H2. clear H1 H2 Hret1 Hret2 Hret3.
  destruct (outcome_of r1) as [[] | | p1 |] eqn:Ho1; simpl.
  - destruct (outcome_of r2) as [[] | | p2 |] eqn:Ho2; simpl.
    + split; [| done].
      erewrite events_since_app.
      2:{ unfold world_after at 1. simpl. rewrite Ht3, Ht2, Ht1.
          rewrite <- !app_assoc. reflexivity. }
      by rewrite !phases_app, Hp1, Hp2, Hp3.
    + split; [| rewrite Ho2; split; [discriminate | intros [_ [=]]]].
      erewrite events_since_app by (rewrite Ht2, Ht1, <- app_assoc; reflexivity).
      by rewrite !phases_app, Hp1, Hp2.
    + split; [| rewrite Ho2; split; [discriminate | intros [_ [=]]]].
      erewrite events_since_app by (rewrite Ht2, Ht1, <- app_assoc; reflexivity).
      by rewrite !phases_app, Hp1, Hp2.
    + split; [| rewrite Ho2; split; [discriminate | intros [_ [=]]]].
      erewrite events_since_app by (rewrite Ht2, Ht1, <- app_assoc; reflexivity).
      by rewrite !phases_app, Hp1, Hp2.
  - split; [by erewrite events_since_app by exact Ht1 |].
    rewrite Ho1. split; [discriminate | intros [[=] _]].
  - split; [by erewrite events_since_app by exact Ht1 |].
    rewrite Ho1. split; [discriminate | intros [[=] _]].
  - split; [by erewrite events_since_app by exact Ht1 |].
    rewrite Ho1. split; [discriminate | intros [[=] _]].
Qed.

Lemma init_tenant_unresolved (E : Env) (s : simulation) (w : World) (err : error) :
  as_Tenant_Get E (tenantID s) = inl err ->
  init E s w =
    (Returned (Some (ErrWrap "get tenant error" err)), s,
     mkWorld (trace w ++ [Enter F_init; Enter F_setupTenant;
                          Api Background (TenantGet (tenantID s))])
       (draws w) (ranges w)).
Proof.
  intros Htenant. unfold init, check, setupTenant, bind, enter, emit, get. simpl.
  rewrite Htenant. unfold ret. by rewrite <- !app_assoc.
Qed.

Lemma runSimulation_nothing_to_run (E : Env) (s : simulation) (w : World) :
  gatewayIDs s = [] ->
  deviceAppKeys s = ∅ ->
  runSimulation E s w =
    (Returned None, s,
     mkWorld (trace w ++ [Enter F_runSimulation; SignalNotify; Cancel (runContext s)])
       (draws w) (S (ranges w))).
Proof.
  intros Hgw Hkeys.
  unfold runSimulation, deferred, range_over, bind, enter, emit, get. simpl.
  rewrite Hgw. simpl. rewrite Hkeys, map_to_list_empty. simpl.
  unfold ret. simpl. by rewrite <- !app_assoc.
Qed.

Lemma tearDown_no_devices (E : Env) (s : simulation) (w : World) :
  deviceAppKeys s = ∅ ->
  mqtt_Unsubscribe E (uplink_topic (applicationID s)) = None ->
  tearDown E s w =
    (Returned None, s,
     mkWorld (trace w ++ [Enter F_tearDown; Enter F_tearDownApplicationIntegration;
                          MqttUnsubscribe (uplink_topic (applicationID s));
                          Enter F_tearDownDevices; Enter F_tearDownApplication;
                          Enter F_tearDownDeviceProfile; Enter F_tearDownGateways])
       (draws w) (S (ranges w))).
Proof.
  intros Hkeys Hunsub.
  unfold tearDown, check, tearDownApplicationIntegration, tearDownDevices,
    tearDownApplication, tearDownDeviceProfile, tearDownGateways, range_over.
  unfold bind, enter, emit, get. simpl.
  rewrite Hunsub. unfold ret. simpl. rewrite Hkeys, map_to_list_empty. simpl.
  by rewrite <- !app_assoc.
Qed.

(** When the tenant cannot be resolved: set-up ends at its first step, the run
    phase finds neither gateways nor devices and returns, and tear-down is
    entered; what tear-down attempts depends on the unsubscribe alone. *)
Lemma start_tenant_unresolved (E : Env) (s : simulation) (w : World) (err : error) :
  gatewayIDs s = [] ->
  deviceAppKeys s = ∅ ->
  as_Tenant_Get E (tenantID s) = inl err ->
  outcome_of (start E s w) = Returned tt /\
  phases (events_since w (start E s w)) = [F_init; F_runSimulation; F_tearDown] /\
  teardown_steps (events_since w (start E s w)) =
    match mqtt_Unsubscribe E (uplink_topic (applicationID s)) with
    | None => teardown_order
    | Some _ => [F_tearDownApplicationIntegration]
    end.
Proof.
  intros Hgw Hkeys Htenant.
  destruct (start_phases E s w) as [Hph Hout].
  rewrite (init_tenant_unresolved E s w err Htenant) in Hph, Hout.
  unfold logged in Hph, Hout. unfold bind at 1 in Hph. unfold bind at 1 in Hout.
  rewrite (init_tenant_unresolved E s w err Htenant) in Hph, Hout.
  unfold emit, sim_after, world_after in Hph, Hout. simpl in Hph, Hout.
  rewrite (runSimulation_nothing_to_run E s _ Hgw Hkeys) in Hph, Hout.
  simpl in Hph, Hout.
  split; [by apply Hout |]. split; [exact Hph |].
  unfold events_since, world_after, start, logged.
  unfold bind at 1. unfold bind at 1.
  rewrite (init_tenant_unresolved E s w err Htenant).
  unfold emit at 1. cbv beta iota.
  unfold bind at 1. unfold bind at 1.
  rewrite (runSimulation_nothing_to_run E s _ Hgw Hkeys).
  unfold ret at 1. cbv beta iota.
  unfold bind at 1. unfold bind at 1.
  destruct (mqtt_Unsubscribe E (uplink_topic (applicationID s))) as [e |] eqn:Hunsub.
  - match goal with
    | |- context [tearDown E s ?w0] =>
        destruct (tearDown_shape E s w0) as (e3 & evs & Ho & Hs & Ht & _ & Hsteps);
        destruct (tearDown E s w0) as [[o3 s3] w3]
    end.
    unfold outcome_of, sim_after, world_after in Ho, Hs, Ht. simpl in Ho, Hs, Ht.
    subst o3 s3. rewrite Hunsub in Hsteps. destruct Hsteps as [-> Hsteps].
    unfold emit. simpl. rewrite Ht.
    repeat (rewrite <- ?app_assoc; simpl). rewrite drop_app_length.
    change (teardown_steps ([Enter F_init; Enter F_setupTenant;
              Api Background (TenantGet (tenantID s));
              LogError "simulator: init simulation error" (ErrWrap "get tenant error" err);
              Enter F_runSimulation; SignalNotify; Cancel (runContext s)] ++
              evs ++ [LogError "simulator: tear-down simulation error"
                        (ErrWrap "unsubscribe application integration error" e); WgDone])
            = [F_tearDownApplicationIntegration]).
    by rewrite !teardown_steps_app, Hsteps.
  - rewrite (tearDown_no_devices E s _ Hkeys Hunsub).
    unfold ret, emit. simpl.
    repeat (rewrite <- ?app_assoc; simpl). by rewrite drop_app_length.
Qed.

(** C1, as the code has it. [start] enters set-up, then the run phase, then
    tear-down, in that order: the run phase whenever set-up returned and
    tear-down whenever the run phase returned, with an error or without, and
    then [start] itself returns. Tear-down always returns; it attempts its
    steps in the order unsubscribe, delete devices, delete application, delete
    device-profile, delete gateways, and stops at the first step that fails.
    In particular, when the tenant cannot be resolved, all three phases are
    entered, and tear-down attempts all five steps if the unsubscribe
    succeeds and the unsubscribe alone if it fails. *)
Theorem start_runs_phases_in_order (E : Env) (s : simulation) (w : World) :
  let r1 := logged "simulator: init simulation error" (init E) s w in
  let run := runSimulation E (sim_after r1) (world_after r1) in
  phases (events_since w (start E s w)) =
    F_init ::
      (if returned (outcome_of (init E s w)) then
         F_runSimulation :: (if returned (outcome_of run) then [F_tearDown] else [])
       else []) /\
  (outcome_of (start E s w) = Returned tt <->
   returned (outcome_of (init E s w)) = true /\ returned (outcome_of run) = true) /\
  (forall s2 w2, exists e,
     outcome_of (tearDown E s2 w2) = Returned e /\
     teardown_steps (events_since w2 (tearDown E s2 w2)) =
       match mqtt_Unsubscribe E (uplink_topic (applicationID s2)), e with
       | Some _, _ => [F_tearDownApplicationIntegration]
       | None, Some _ => [F_tearDownApplicationIntegration; F_tearDownDevices]
       | None, None => teardown_order
       end) /\
  (gatewayIDs s = [] -> deviceAppKeys s = ∅ ->
   (exists err, as_Tenant_Get E (tenantID s) = inl err) ->
   outcome_of (start E s w) = Returned tt /\
   phases (events_since w (start E s w)) = [F_init; F_runSimulation; F_tearDown] /\
   teardown_steps (events_since w (start E s w)) =
     match mqtt_Unsubscribe E (uplink_topic (applicationID s)) with
     | None => teardown_order
     | Some _ => [F_tearDownApplicationIntegration]
     end).
Proof.
  intros r1 run. destruct (start_phases E s w) as [Hph Hout].
  split; [exact Hph |]. split; [exact Hout |]. split.
  - intros s2 w2.
    destruct (tearDown_shape E s2 w2) as (e & evs & Ho & _ & Ht & _ & Hsteps).
    exists e. split; [exact Ho |].
    rewrite (events_since_app w2 _ evs Ht).
    destruct (mqtt_Unsubscribe E (uplink_topic (applicationID s2))) as [err |].
    + tauto.
    + destruct Hsteps as [[-> Hs] | [[err ->] Hs]]; exact Hs.
  - intros Hgw Hkeys [err Htenant]. by apply (start_tenant_unresolved E s w err).
Qed.

(** C1 at a simulation whose tenant does not exist while the broker answers:
    tear-down attempts its five steps. *)
Lemma start_runs_phases_in_order_witness :
  phases (events_since empty_world (start tenant_missing_env example_simulation empty_world)) =
    [F_init; F_runSimulation; F_tearDown] /\
  teardown_steps (events_since empty_world
                    (start tenant_missing_env example_simulation empty_world)) =
    teardown_order.
Proof.
  destruct (start_runs_phases_in_order tenant_missing_env example_simulation empty_world)
    as (_ & _ & _ & H).
  destruct H as (_ & Hph & Hsteps);
    [reflexivity | reflexivity | eexists; reflexivity |].
  split; [exact Hph | exact Hsteps].
Defined.

(** C1 as the specification words it fails: with the tenant unresolved and the
    broker unreachable, tear-down is entered but ends at the unsubscribe; the
    device, application, device-profile and gateway steps are not attempted. *)
Lemma teardown_stops_at_failed_unsubscribe :
  teardown_steps (events_since empty_world
                    (start unreachable_env example_simulation empty_world)) =
    [F_tearDownApplicationIntegration] /\
  ~ teardown_attempts_every_step unreachable_env example_simulation empty_world.
Proof.
  assert (H : teardown_steps (events_since empty_world
                (start unreachable_env example_simulation empty_world)) =
              [F_tearDownApplicationIntegration]) by (vm_compute; reflexivity).
  split; [exact H |].
  intros Hall. unfold teardown_attempts_every_step in Hall.
  rewrite H in Hall. specialize (Hall (ex_intro _ _ eq_refl)). discriminate.
Qed.

(** ** Device provisioning (C4, C5, C7) *)

Lemma live_app (t1 t2 : list Task) : live (t1 ++ t2) = live t1 + live t2.
Proof. unfold live. induction t1 as [| t t1 IH]; simpl; [done | lia]. Qed.

Lemma task_counts_range (t : Task) : 0 <= task_counts t <= 1.
Proof. unfold task_counts. destruct (t_pc t); lia. Qed.

Lemma live_nonneg (tasks : list Task) : 0 <= live tasks.
Proof.
  induction tasks as [| t tasks IH]; simpl; [done |].
  pose proof (task_counts_range t). unfold live in *. simpl. lia.
Qed.

Lemma live_insert (tasks : list Task) (i : nat) (t t' : Task) :
  tasks !! i = Some t ->
  live (<[i := t']> tasks) = live tasks - task_counts t + task_counts t'.
Proof.
  revert i. induction tasks as [| t0 tasks IH]; intros [| i] Hi; simpl in *; try done.
  - injection Hi as ->. unfold live. simpl. lia.
  - specialize (IH i Hi). unfold live in *. simpl. lia.
Qed.

Lemma live_zero (tasks : list Task) :
  live tasks = 0 -> Forall (fun t => t_pc t = T_finished) tasks.
Proof.
  induction tasks as [| t tasks IH]; intros H; [constructor |].
  pose proof (task_counts_range t). pose proof (live_nonneg tasks).
  unfold live in *. simpl in H. constructor.
  - unfold task_counts in *. destruct (t_pc t); (done || lia).
  - apply IH. lia.
Qed.

Lemma fmap_insert_same_dev (tasks : list Task) (i : nat) (t t' : Task) :
  tasks !! i = Some t -> t_dev t' = t_dev t ->
  t_dev <$> <[i := t']> tasks = t_dev <$> tasks.
Proof.
  intros Hi Hdev. rewrite list_fmap_insert, Hdev.
  apply list_insert_id. by rewrite list_lookup_fmap, Hi.
Qed.

(** Two tasks that are past their first statement hold different identities
    when the rows of the device list do. *)
Lemma tasks_distinct_identities (E : Env) (devices : list Device)
    (keys0 : gmap EUI64 AES128Key) (st : PState) (i j : nat) (ti tj : Task) :
  NoDup (parse_devEUI <$> devices) ->
  ProvInv E devices keys0 st ->
  p_tasks st !! i = Some ti -> p_tasks st !! j = Some tj -> i <> j ->
  parse_devEUI (t_dev ti) <> parse_devEUI (t_dev tj).
Proof.
  intros Hnd Hinv Hi Hj Hij Heq.
  rewrite <- (inv_devices _ _ _ _ Hinv), fmap_app in Hnd.
  apply NoDup_app in Hnd as (Hnd & _ & _).
  apply Hij. eapply NoDup_lookup; [exact Hnd | |].
  - rewrite !list_lookup_fmap, Hi. reflexivity.
  - rewrite !list_lookup_fmap, Hj. simpl. by rewrite Heq.
Qed.

(** A statement of a task keeps the invariant, given what it does to the task,
    the counter, the mutex and the map. *)
Lemma ProvInv_task_update (E : Env) (devices : list Device) (keys0 : gmap EUI64 AES128Key)
    (st : PState) (i : nat) (t t' : Task) (wg' : Z) (mutex' : bool)
    (keys' : gmap EUI64 AES128Key) (tr' : list Event) :
  NoDup (parse_devEUI <$> devices) ->
  ProvInv E devices keys0 st ->
  p_tasks st !! i = Some t ->
  t_dev t' = t_dev t ->
  t_pc t <> T_finished ->
  wg' = p_wg st - task_counts t + task_counts t' ->
  (t_pc t' <> T_start ->
     t_devEUI t' = parse_devEUI (t_dev t') /\
     rand_Read 16 (rand_entropy E i) = inr (t_appKey t')) ->
  (inserted (t_pc t) = true ->
     inserted (t_pc t') = true /\ t_devEUI t' = t_devEUI t /\ t_appKey t' = t_appKey t) ->
  ((keys' = p_keys st /\ inserted (t_pc t') = inserted (t_pc t)) \/
   (keys' = <[t_devEUI t' := t_appKey t']> (p_keys st) /\ inserted (t_pc t') = true /\
    t_pc t' <> T_start)) ->
  ((in_critical_section (t_pc t') = in_critical_section (t_pc t) /\ mutex' = p_mutex st) \/
   (in_critical_section (t_pc t) = false /\ in_critical_section (t_pc t') = true /\
    p_mutex st = false /\ mutex' = true) \/
   (in_critical_section (t_pc t) = true /\ in_critical_section (t_pc t') = false /\
    mutex' = false)) ->
  ProvInv E devices keys0
    (mkPState (p_main st) (<[i := t']> (p_tasks st)) wg' mutex' keys' tr' (p_exited st)).
Proof.
  intros Hnd Hinv Hi Hdev Hlive Hwg Hstart Hkeep Hkeys Hmutex.
  pose proof (lookup_lt_Some _ _ _ Hi) as Hlt.
  assert (Hlook : forall j tj, <[i := t']> (p_tasks st) !! j = Some tj ->
            (j = i /\ tj = t') \/ (j <> i /\ p_tasks st !! j = Some tj)).
  { intros j tj Hj. destruct (decide (j = i)) as [-> | Hne].
    - rewrite list_lookup_insert_eq in Hj by done. left. by injection Hj as <-.
    - rewrite list_lookup_insert_ne in Hj by done. by right. }
  constructor; simpl.
  - rewrite (fmap_insert_same_dev _ _ t) by done. apply (inv_devices _ _ _ _ Hinv).
  - rewrite (live_insert _ _ t) by done. rewrite Hwg, (inv_wg _ _ _ _ Hinv). lia.
  - intros Hret. exfalso. apply Hlive.
    pose proof (inv_returned _ _ _ _ Hinv Hret) as H0.
    rewrite (inv_wg _ _ _ _ Hinv), Hret in H0. simpl in H0.
    assert (Hz : live (p_tasks st) = 0) by lia.
    apply live_zero in Hz. eapply Forall_lookup_1 in Hz; [| exact Hi]. done.
  - intros j tj Hj Hpc. destruct (Hlook j tj Hj) as [[-> ->] | [Hne Hj']].
    + by apply Hstart.
    + by apply (inv_started _ _ _ _ Hinv).
  - intros j tj Hj Hins. destruct (Hlook j tj Hj) as [[-> ->] | [Hne Hj']].
    + destruct Hkeys as [[-> Heq] | [-> _]]; [| by rewrite lookup_insert_eq].
      rewrite Heq in Hins. destruct (Hkeep Hins) as (_ & -> & ->).
      by apply (inv_stored _ _ _ _ Hinv i).
    + pose proof (inv_stored _ _ _ _ Hinv j tj Hj' Hins) as Hold.
      destruct Hkeys as [[-> _] | [-> [_ Hpc']]]; [done |].
      rewrite lookup_insert_ne; [done |].
      destruct (Hstart Hpc') as [-> _]. rewrite Hdev.
      assert (Hpcj : t_pc tj <> T_start) by (intros Heq; by rewrite Heq in Hins).
      destruct (inv_started _ _ _ _ Hinv j tj Hj' Hpcj) as [-> _].
      by apply (tasks_distinct_identities E devices keys0 st i j t tj).
  - intros k v Hk.
    assert (Hold : p_keys st !! k = Some v ->
              keys0 !! k = Some v \/
              exists j tj, <[i := t']> (p_tasks st) !! j = Some tj /\
                           inserted (t_pc tj) = true /\ t_devEUI tj = k /\ t_appKey tj = v).
    { intros Hk0. destruct (inv_nothing_else _ _ _ _ Hinv k v Hk0)
        as [H0 | (j & tj & Hj & Hins & Heui & Hkey)]; [by left | right].
      destruct (decide (j = i)) as [-> | Hne].
      - rewrite Hi in Hj. injection Hj as <-.
        destruct (Hkeep Hins) as (Hins' & Heui' & Hkey').
        exists i, t'. rewrite list_lookup_insert_eq by done.
        repeat split; congruence.
      - exists j, tj. rewrite list_lookup_insert_ne by done. auto. }
    destruct Hkeys as [[-> _] | [-> [Hins' _]]]; [by apply Hold |].
    destruct (decide (t_devEUI t' = k)) as [<- | Hne].
    + rewrite lookup_insert_eq in Hk. injection Hk as <-. right.
      exists i, t'. by rewrite list_lookup_insert_eq.
    + rewrite lookup_insert_ne in Hk by done. by apply Hold.
  - intros j tj Hj Hcs. destruct (Hlook j tj Hj) as [[-> ->] | [Hne Hj']].
    + destruct Hmutex as [[Heq ->] | [(_ & _ & Hfree & ->) | (_ & Hcs' & _)]];
        [| | congruence].
      * rewrite Heq in Hcs.
        destruct (inv_mutex _ _ _ _ Hinv i t Hi Hcs) as [Hm Huniq]. split; [done |].
        intros j tj Hj2 Hcs2. destruct (Hlook j tj Hj2) as [[-> ->] | [Hne Hj2']]; [done |].
        by apply (Huniq j tj).
      * split; [done |].
        intros j tj Hj2 Hcs2. destruct (Hlook j tj Hj2) as [[-> ->] | [Hne Hj2']]; [done |].
        destruct (inv_mutex _ _ _ _ Hinv j tj Hj2' Hcs2) as [Hm _]. congruence.
    + destruct (inv_mutex _ _ _ _ Hinv j tj Hj' Hcs) as [Hm Huniq].
      destruct Hmutex as [[Heq ->] | [(_ & _ & Hfree & _) | (Hcs' & _ & _)]].
      * split; [done |].
        intros j2 tj2 Hj2 Hcs2.
        destruct (Hlook j2 tj2 Hj2) as [[-> ->] | [Hne2 Hj2']]; [| by apply (Huniq j2 tj2)].
        rewrite Heq in Hcs2. by apply (Huniq i t).
      * congruence.
      * exfalso. apply Hne. symmetry. by apply (Huniq i t).
Qed.

Lemma ProvInv_trace (E : Env) (devices : list Device) (keys0 : gmap EUI64 AES128Key)
    (st : PState) (tr : list Event) (ex : bool) :
  ProvInv E devices keys0 st ->
  ProvInv E devices keys0
    (mkPState (p_main st) (p_tasks st) (p_wg st) (p_mutex st) (p_keys st) tr ex).
Proof. intros []. by constructor. Qed.

Local Ltac task_update_tac Hpc :=
  simpl; rewrite ?Hpc; unfold task_counts; simpl; rewrite ?Hpc;
  first [ done | lia | by auto
        | by (left; auto) | by (right; left; auto) | by (right; right; auto)
        | by (right; repeat split) ].

Lemma task_step_inv (E : Env) (appID : string) (devices : list Device)
    (keys0 : gmap EUI64 AES128Key) (st st' : PState) (i : nat) (t : Task) :
  NoDup (parse_devEUI <$> devices) ->
  ProvInv E devices keys0 st ->
  p_tasks st !! i = Some t ->
  task_step E appID i t st = Some st' ->
  ProvInv E devices keys0 st'.
Proof.
  intros Hnd Hinv Hi Hstep. unfold task_step in Hstep.
  assert (Hold : t_pc t <> T_start ->
            t_devEUI t = parse_devEUI (t_dev t) /\
            rand_Read 16 (rand_entropy E i) = inr (t_appKey t))
    by (by apply (inv_started _ _ _ _ Hinv)).
  destruct (t_pc t) eqn:Hpc.
  - destruct (rand_Read 16 (rand_entropy E i)) as [err | appKey] eqn:Hrand;
      injection Hstep as <-; [by apply ProvInv_trace |].
    apply (ProvInv_task_update E devices keys0 st i t); task_update_tac Hpc.
  - destruct (as_Device_Create E i); injection Hstep as <-;
      [by apply (ProvInv_trace E devices keys0 st) |].
    apply (ProvInv_task_update E devices keys0 st i t); task_update_tac Hpc.
  - destruct (as_Device_CreateKeys E i); injection Hstep as <-;
      [by apply (ProvInv_trace E devices keys0 st) |].
    apply (ProvInv_task_update E devices keys0 st i t); task_update_tac Hpc.
  - destruct (p_mutex st) eqn:Hm; [discriminate |]. injection Hstep as <-.
    apply (ProvInv_task_update E devices keys0 st i t); task_update_tac Hpc.
  - injection Hstep as <-.
    apply (ProvInv_task_update E devices keys0 st i t); task_update_tac Hpc.
  - injection Hstep as <-.
    apply (ProvInv_task_update E devices keys0 st i t); task_update_tac Hpc.
  - injection Hstep as <-.
    apply (ProvInv_task_update E devices keys0 st i t); task_update_tac Hpc.
  - discriminate.
Qed.

Lemma main_step_inv (E : Env) (devices : list Device) (keys0 : gmap EUI64 AES128Key)
    (st st' : PState) :
  ProvInv E devices keys0 st ->
  main_step st = Some st' ->
  ProvInv E devices keys0 st'.
Proof.
  intros Hinv Hstep. unfold main_step in Hstep.
  destruct (p_main st) as [[| dev rest] | dev rest | |] eqn:Hmain.
  - injection Hstep as <-. destruct Hinv. rewrite Hmain in *.
    constructor; simpl; auto. done.
  - injection Hstep as <-. destruct Hinv. rewrite Hmain in *.
    constructor; simpl in *; auto; [lia | done].
  - injection Hstep as <-.
    assert (Hfresh : forall j tj,
              (p_tasks st ++ [mkTask dev T_start EUI64_zero AES128Key_zero]) !! j = Some tj ->
              p_tasks st !! j = Some tj \/ t_pc tj = T_start).
    { intros j tj Hj. apply lookup_app_Some in Hj as [Hj | [_ Hj]]; [by left | right].
      apply list_lookup_singleton_Some in Hj as [_ <-]. done. }
    destruct Hinv. rewrite Hmain in *. constructor; simpl in *.
    + by rewrite fmap_app, <- app_assoc.
    + rewrite live_app. unfold live at 2. simpl. unfold task_counts. simpl. lia.
    + done.
    + intros j tj Hj Hpc. destruct (Hfresh j tj Hj) as [Hj' | Hs]; [eauto | done].
    + intros j tj Hj Hins. destruct (Hfresh j tj Hj) as [Hj' | Hs]; [eauto |].
      by rewrite Hs in Hins.
    + intros k v Hk. destruct (inv_nothing_else0 k v Hk)
        as [H0 | (j & tj & Hj & Hrest)]; [by left | right].
      exists j, tj. split; [| done]. by apply lookup_app_l_Some.
    + intros j tj Hj Hcs. destruct (Hfresh j tj Hj) as [Hj' | Hs];
        [| by rewrite Hs in Hcs].
      destruct (inv_mutex0 j tj Hj' Hcs) as [Hm Huniq]. split; [done |].
      intros j2 tj2 Hj2 Hcs2. destruct (Hfresh j2 tj2 Hj2) as [Hj2' | Hs];
        [eauto | by rewrite Hs in Hcs2].
  - destruct (p_wg st =? 0) eqn:Hz; [| discriminate]. injection Hstep as <-.
    apply Z.eqb_eq in Hz. destruct Hinv. rewrite Hmain in *.
    constructor; simpl in *; auto.
  - discriminate.
Qed.

Lemma pstep_inv (E : Env) (appID : string) (devices : list Device)
    (keys0 : gmap EUI64 AES128Key) (c : nat) (st st' : PState) :
  NoDup (parse_devEUI <$> devices) ->
  ProvInv E devices keys0 st ->
  pstep E appID c st = Some st' ->
  ProvInv E devices keys0 st'.
Proof.
  intros Hnd Hinv Hstep. unfold pstep in Hstep.
  destruct (p_exited st); [discriminate |].
  destruct c as [| i]; [by eapply main_step_inv |].
  destruct (p_tasks st !! i) as [t |] eqn:Hi; [| discriminate].
  by eapply task_step_inv.
Qed.

Lemma run_inv (E : Env) (appID : string) (devices : list Device)
    (keys0 : gmap EUI64 AES128Key) (sched : list nat) :
  NoDup (parse_devEUI <$> devices) ->
  forall st, ProvInv E devices keys0 st -> ProvInv E devices keys0 (run E appID sched st).
Proof.
  intros Hnd. induction sched as [| c sched IH]; intros st Hinv; simpl; [done |].
  apply IH. destruct (pstep E appID c st) as [st1 |] eqn:Hstep; simpl; [| done].
  by eapply pstep_inv.
Qed.

Lemma provision_init_inv (E : Env) (devices : list Device) (keys0 : gmap EUI64 AES128Key)
    (tr : list Event) :
  ProvInv E devices keys0 (provision_init devices keys0 tr).
Proof.
  constructor; simpl; try done.
  - intros k v Hk. by left.
Qed.

(** *** The device list *)

Lemma readDevices_loop_valid (rows : list (list string)) :
  forall i acc,
    0 < i ->
    Forall (fun r => (6 <= length r)%nat) rows ->
    readDevices_loop i rows acc = Returned (acc ++ omap device_of_record rows, None) /\
    length (omap device_of_record rows) = length rows.
Proof.
  induction rows as [| r rows IH]; intros i acc Hi Hrows; simpl.
  - by rewrite app_nil_r.
  - apply Forall_cons in Hrows as [Hr Hrows].
    destruct (i =? 0) eqn:Hz; [apply Z.eqb_eq in Hz; lia |].
    destruct r as [| f0 [| f1 [| f2 [| f3 [| f4 [| f5 r]]]]]]; simpl in Hr; try lia.
    assert (Hlen : (len (f0 :: f1 :: f2 :: f3 :: f4 :: f5 :: r) <? 4) = false)
      by (apply Z.ltb_ge; unfold len; simpl; lia).
    rewrite Hlen. simpl.
    destruct (IH (i + 1) (acc ++ [mkDevice f0 f1 f2 f3 f4 f5]) ltac:(lia) Hrows)
      as [Hrun Hlen'].
    rewrite Hrun, <- app_assoc. split; [done |].
    change (omap device_of_record ((f0 :: f1 :: f2 :: f3 :: f4 :: f5 :: r) :: rows))
      with (mkDevice f0 f1 f2 f3 f4 f5 :: omap device_of_record rows).
    simpl. f_equal. exact Hlen'.
Qed.

Lemma readDevicesFromCSV_valid (header : list string) (rows : list (list string)) :
  Forall (fun r => length r = length header) rows ->
  Forall (fun r => (6 <= length r)%nat) rows ->
  readDevicesFromCSV (Some (header :: rows)) =
    Returned (omap device_of_record rows, None) /\
  length (omap device_of_record rows) = length rows.
Proof.
  intros Hsame Hsix. unfold readDevicesFromCSV, csv_ReadAll.
  assert (Hall : forallb (fun r => (length r =? length header)%nat) rows = true).
  { apply forallb_forall. intros r Hr. apply Nat.eqb_eq.
    eapply Forall_forall in Hsame; [exact Hsame |]. by apply list_elem_of_In. }
  rewrite Hall.
  change (readDevices_loop 0 (header :: rows) []) with (readDevices_loop 1 rows []).
  destruct (readDevices_loop_valid rows 1 [] ltac:(lia) Hsix) as [Hrun Hlen].
  by rewrite Hrun.
Qed.

(** *** The completion barrier *)

(** Once [wg.Wait()] has returned, every task has finished and no goroutine
    of the provisioning can take a step any more. *)
Lemma returned_all_finished (E : Env) (devices : list Device)
    (keys0 : gmap EUI64 AES128Key) (st : PState) :
  ProvInv E devices keys0 st ->
  p_main st = M_returned ->
  p_wg st = 0 /\
  Forall (fun t => t_pc t = T_finished) (p_tasks st) /\
  t_dev <$> p_tasks st = devices.
Proof.
  intros Hinv Hret.
  pose proof (inv_returned _ _ _ _ Hinv Hret) as Hwg.
  pose proof (inv_wg _ _ _ _ Hinv) as Hlive.
  pose proof (inv_devices _ _ _ _ Hinv) as Hdev.
  rewrite Hret in Hlive, Hdev. simpl in Hlive, Hdev. rewrite app_nil_r in Hdev.
  repeat split; [done | | done]. apply live_zero. lia.
Qed.

Lemma returned_no_step (E : Env) (appID : string) (st : PState) :
  p_main st = M_returned ->
  Forall (fun t => t_pc t = T_finished) (p_tasks st) ->
  forall c, pstep E appID c st = None.
Proof.
  intros Hret Hfin c. unfold pstep. destruct (p_exited st); [done |].
  destruct c as [| i]; [unfold main_step; by rewrite Hret |].
  destruct (p_tasks st !! i) as [t |] eqn:Hi; [| done].
  eapply Forall_lookup_1 in Hfin; [| exact Hi]. unfold task_step. by rewrite Hfin.
Qed.

Lemma no_step_run (E : Env) (appID : string) (st : PState) (sched : list nat) :
  (forall c, pstep E appID c st = None) -> run E appID sched st = st.
Proof.
  intros Hnone. induction sched as [| c sched IH]; simpl; [done |].
  by rewrite Hnone.
Qed.

(** The map, once [wg.Wait()] has returned: one entry per device, under the
    identity parsed from its row, holding the key of its task. *)
Lemma returned_keys (E : Env) (devices : list Device) (st : PState) :
  NoDup (parse_devEUI <$> devices) ->
  ProvInv E devices ∅ st ->
  p_main st = M_returned ->
  dom (p_keys st) = list_to_set (parse_devEUI <$> devices) /\
  size (p_keys st) = length devices /\
  forall i dev, devices !! i = Some dev ->
    exists key, rand_Read 16 (rand_entropy E i) = inr key /\
                p_keys st !! parse_devEUI dev = Some key.
Proof.
  intros Hnd Hinv Hret.
  destruct (returned_all_finished _ _ _ _ Hinv Hret) as (_ & Hfin & Hdev).
  assert (Hall : forall i dev, devices !! i = Some dev ->
            exists key, rand_Read 16 (rand_entropy E i) = inr key /\
                        p_keys st !! parse_devEUI dev = Some key).
  { intros i dev Hi. rewrite <- Hdev, list_lookup_fmap in Hi.
    destruct (p_tasks st !! i) as [t |] eqn:Ht; [| done]. injection Hi as <-.
    eapply Forall_lookup_1 in Hfin as Hpc; [| exact Ht].
    destruct (inv_started _ _ _ _ Hinv i t Ht) as [Heui Hkey]; [by rewrite Hpc |].
    exists (t_appKey t). split; [done |]. rewrite <- Heui.
    apply (inv_stored _ _ _ _ Hinv i t Ht). by rewrite Hpc. }
  assert (Hdom : dom (p_keys st) = list_to_set (parse_devEUI <$> devices)).
  { apply set_eq. intros k. rewrite elem_of_dom, elem_of_list_to_set, list_elem_of_fmap.
    split.
    - intros [v Hk]. destruct (inv_nothing_else _ _ _ _ Hinv k v Hk)
        as [H0 | (i & t & Ht & _ & Heui & _)]; [by rewrite lookup_empty in H0 |].
      exists (t_dev t). split.
      + rewrite <- Heui. eapply Forall_lookup_1 in Hfin as Hpc; [| exact Ht].
        apply (inv_started _ _ _ _ Hinv i t Ht). by rewrite Hpc.
      + rewrite <- Hdev. apply list_elem_of_fmap. exists t. split; [done |].
        by eapply list_elem_of_lookup_2.
    - intros (dev & -> & Hin). apply list_elem_of_lookup in Hin as [i Hi].
      destruct (Hall i dev Hi) as (key & _ & Hk). eauto. }
  split; [exact Hdom |]. split; [| exact Hall].
  rewrite <- size_dom, Hdom, size_list_to_set by done. by rewrite length_fmap.
Qed.

(** *** Provisioning does complete *)

Lemma run_app (E : Env) (appID : string) (a b : list nat) :
  forall st, run E appID (a ++ b) st = run E appID b (run E appID a st).
Proof. induction a as [| c a IH]; intros st; simpl; [done | apply IH]. Qed.

Lemma run_step (E : Env) (appID : string) (c : nat) (sched : list nat) (st st' : PState) :
  pstep E appID c st = Some st' ->
  run E appID (c :: sched) st = run E appID sched st'.
Proof. intros H. simpl. by rewrite H. Qed.

Lemma insert_middle {A} (l1 : list A) (x y : A) (l2 : list A) :
  <[length l1 := y]> (l1 ++ x :: l2) = l1 ++ y :: l2.
Proof. induction l1 as [| a l1 IH]; simpl; [done | by rewrite IH]. Qed.

(** The goroutine of [setupDevices] spawns one task per device when it is
    given two steps for each, and then reaches [wg.Wait()]. *)
Lemma main_spawns (E : Env) (appID : string) (devices : list Device) :
  forall tasks wg keys tr,
    run E appID (repeat O (2 * length devices + 1))
      (mkPState (M_add devices) tasks wg false keys tr false) =
    mkPState M_wait (tasks ++ (fresh_task <$> devices)) (wg + len devices) false keys tr false.
Proof.
  induction devices as [| dev devices IH]; intros tasks wg keys tr.
  - simpl. unfold len. simpl. by rewrite app_nil_r, Z.add_0_r.
  - replace (2 * length (dev :: devices) + 1)%nat
      with (S (S (2 * length devices + 1))) by (simpl; lia).
    cbn [repeat].
    erewrite run_step by reflexivity.
    erewrite run_step by reflexivity.
    unfold p_set_main, p_set_wg, p_spawn.
    cbn [p_main p_tasks p_wg p_mutex p_keys p_trace p_exited].
    fold (fresh_task dev). rewrite IH. f_equal.
    + by rewrite <- app_assoc.
    + unfold len. simpl length. lia.
Qed.

(** A task, at any of its statements but the lock, takes the step the
    statement describes; here for the task that follows [done]. *)
Lemma pstep_task_middle (E : Env) (appID : string) (done : list Task) (t : Task)
    (rest : list Task) (m : MainPc) (wg : Z) (mx : bool) (keys : gmap EUI64 AES128Key)
    (tr : list Event) :
  pstep E appID (S (length done)) (mkPState m (done ++ t :: rest) wg mx keys tr false) =
    task_step E appID (length done) t (mkPState m (done ++ t :: rest) wg mx keys tr false).
Proof. unfold pstep. simpl. by rewrite list_lookup_middle. Qed.

(** A task that is given its seven steps while no other goroutine runs, and
    whose calls succeed, stores its key and finishes. *)
Lemma task_completes (E : Env) (appID : string) (done : list Task) (dev : Device)
    (rest : list Task) (wg : Z) (keys : gmap EUI64 AES128Key) (tr : list Event)
    (key : AES128Key) :
  rand_Read 16 (rand_entropy E (length done)) = inr key ->
  as_Device_Create E (length done) = None ->
  as_Device_CreateKeys E (length done) = None ->
  exists tr',
    run E appID (repeat (S (length done)) 7)
      (mkPState M_wait (done ++ fresh_task dev :: rest) wg false keys tr false) =
    mkPState M_wait (done ++ mkTask dev T_finished (parse_devEUI dev) key :: rest)
      (wg - 1) false (<[parse_devEUI dev := key]> keys) tr' false.
Proof.
  intros Hrand Hcreate Hkeys. eexists. cbn [repeat].
  do 7 (erewrite run_step;
        [| rewrite pstep_task_middle; unfold task_step;
           cbn [t_pc t_dev t_devEUI t_appKey fresh_task with_pc p_mutex];
           rewrite ?Hrand, ?Hcreate, ?Hkeys;
           unfold p_set_task, p_emit, p_set_keys, p_set_wg, p_set_mutex, with_pc;
           cbn [p_main p_tasks p_wg p_mutex p_keys p_trace p_exited
                t_pc t_dev t_devEUI t_appKey];
           rewrite insert_middle; reflexivity]).
  reflexivity.
Qed.

Lemma tasks_complete (E : Env) (appID : string) (devices : list Device) :
  forall (done : list Task) wg keys tr,
    (forall i, (length done <= i < length done + length devices)%nat ->
       (exists key, rand_Read 16 (rand_entropy E i) = inr key) /\
       as_Device_Create E i = None /\ as_Device_CreateKeys E i = None) ->
    exists finished keys' tr',
      run E appID (flat_map (fun i => repeat (S i) 7) (seq (length done) (length devices)))
        (mkPState M_wait (done ++ (fresh_task <$> devices)) wg false keys tr false) =
      mkPState M_wait (done ++ finished) (wg - len devices) false keys' tr' false /\
      Forall (fun t => t_pc t = T_finished) finished.
Proof.
  induction devices as [| dev devices IH]; intros done wg keys tr Hok.
  - exists [], keys, tr. simpl. unfold len. simpl. by rewrite Z.sub_0_r.
  - destruct (Hok (length done)) as ([key Hrand] & Hcreate & Hkeys); [simpl; lia |].
    destruct (task_completes E appID done dev (fresh_task <$> devices) wg keys tr key
                Hrand Hcreate Hkeys) as (tr1 & Hrun).
    change (flat_map (fun i => repeat (S i) 7) (seq (length done) (length (dev :: devices))))
      with (repeat (S (length done)) 7 ++
            flat_map (fun i => repeat (S i) 7) (seq (S (length done)) (length devices))).
    rewrite run_app.
    change (fresh_task <$> dev :: devices) with (fresh_task dev :: (fresh_task <$> devices)).
    rewrite Hrun.
    set (t1 := mkTask dev T_finished (parse_devEUI dev) key).
    change (done ++ t1 :: (fresh_task <$> devices))
      with (done ++ [t1] ++ (fresh_task <$> devices)).
    rewrite app_assoc.
    destruct (IH (done ++ [t1]) (wg - 1) (<[parse_devEUI dev := key]> keys) tr1)
      as (finished & keys' & tr' & Hrest & Hfin).
    { intros i Hi. apply Hok. rewrite length_app in Hi. simpl in *. lia. }
    rewrite length_app, Nat.add_1_r in Hrest.
    exists (t1 :: finished), keys', tr'. split; [| by constructor].
    etransitivity; [exact Hrest |]. rewrite <- app_assoc. simpl. f_equal.
    unfold len. simpl length. lia.
Qed.

(** Under the sequential schedule, and when every call of the tasks
    succeeds, [wg.Wait()] returns. *)
(** Under the sequential schedule, and when every call of the tasks
    succeeds, [wg.Wait()] returns. *)
Lemma provisioning_returns (E : Env) (appID : string) (devices : list Device)
    (keys0 : gmap EUI64 AES128Key) (tr : list Event) (more : list nat) :
  tasks_succeed E (length devices) ->
  let st := run E appID (sequential_schedule (length devices) ++ more)
              (provision_init devices keys0 tr) in
  p_main st = M_returned /\ p_exited st = false.
Proof.
  intros Hok st. subst st. unfold sequential_schedule, provision_init.
  rewrite <- !app_assoc, !run_app, main_spawns.
  destruct (tasks_complete E appID devices [] (0 + len devices) keys0 tr)
    as (finished & keys' & tr' & Hrun & Hfin).
  { intros i Hi. apply Hok. simpl in Hi. lia. }
  simpl length in Hrun. simpl app in Hrun |- *. rewrite Hrun.
  replace (0 + len devices - len devices) with 0 by lia.
  erewrite run_step by reflexivity.
  rewrite no_step_run; [done |].
  by apply returned_no_step.
Qed.

Lemma setupDevices_unfold (E : Env) (s : simulation) (w : World) (devices : list Device) :
  readDevicesFromCSV (devices_csv E) = Returned (devices, None) ->
  let st := provisioning_end E s w devices in
  setupDevices E s w =
    ((if p_exited st then Exited
      else match p_main st with M_returned => Returned None | _ => Pending end),
     set_deviceAppKeys (p_keys st) s,
     mkWorld (p_trace st) (draws w) (ranges w)).
Proof.
  intros Hread st. unfold setupDevices, bind, enter, emit. rewrite Hread. simpl.
  fold (provisioning_end E s w devices). fold st.
  destruct (p_exited st); [done |]. by destruct (p_main st).
Qed.

Lemma deviceAppKeys_set_deviceAppKeys v s : deviceAppKeys (set_deviceAppKeys v s) = v.
Proof. by destruct s. Qed.

(** C4. Provisioning completeness. For a device list of a header and [R]
    rows of six fields or more whose parsed identities are pairwise distinct,
    and a simulation whose key map is still empty: when [setupDevices]
    returns (which it does only if every task succeeded), [deviceAppKeys] has
    exactly [R] entries, one under each parsed identity and holding the key
    of that row's task. It returns only after the completion barrier: at
    that point the WaitGroup counter is zero, there is one task per row and
    every one of them has finished, so that no goroutine of the provisioning
    can change the map any more. And it does return when every call of the
    tasks succeeds and the scheduler lets the goroutines run to their end,
    here one after the other. The map has its final size before the barrier
    releases, not only after: at every point of the schedule a task that has
    called [wg.Done()] has its key in the map already, and once [wg.Wait()]
    has returned the provisioning is in its final state. *)
Theorem provisioning_completeness (E : Env) (s : simulation) (w : World)
    (header : list string) (rows : list (list string)) :
  devices_csv E = Some (header :: rows) ->
  Forall (fun r => length r = length header) rows ->
  Forall (fun r => (6 <= length r)%nat) rows ->
  NoDup (parse_devEUI <$> omap device_of_record rows) ->
  deviceAppKeys s = ∅ ->
  let devices := omap device_of_record rows in
  let keys := deviceAppKeys (sim_after (setupDevices E s w)) in
  let final := provisioning_end E s w devices in
  length devices = length rows /\
  (outcome_of (setupDevices E s w) = Returned None ->
   size keys = length rows /\
   dom keys = list_to_set (parse_devEUI <$> devices) /\
   (forall i dev, devices !! i = Some dev ->
      exists key, rand_Read 16 (rand_entropy E i) = inr key /\
                  keys !! parse_devEUI dev = Some key) /\
   keys = p_keys final /\
   p_main final = M_returned /\ p_wg final = 0 /\
   length (p_tasks final) = length rows /\
   Forall (fun t => t_pc t = T_finished) (p_tasks final) /\
   (forall more, run E (applicationID s) more final = final)) /\
  (tasks_succeed E (length rows) ->
   forall more, schedule E = sequential_schedule (length rows) ++ more ->
   outcome_of (setupDevices E s w) = Returned None) /\
  (forall n,
     let st := provisioning_after E s w devices n in
     (forall i t, p_tasks st !! i = Some t -> t_pc t = T_finished ->
        p_keys st !! t_devEUI t = Some (t_appKey t)) /\
     (p_main st = M_returned -> st = final)).
Proof.
  intros Hcsv Hsame Hsix Hnd Hempty devices keys final.
  destruct (readDevicesFromCSV_valid header rows Hsame Hsix) as [Hread Hlen].
  rewrite <- Hcsv in Hread. fold devices in Hread, Hlen.
  pose proof (setupDevices_unfold E s w devices Hread) as Hsetup.
  fold final in Hsetup. cbv zeta in Hsetup.
  split; [exact Hlen |]. split; [| split].
  - intros Hout. subst keys. rewrite Hsetup in Hout |- *.
    unfold outcome_of, sim_after in *. simpl in Hout |- *.
    rewrite ?deviceAppKeys_set_deviceAppKeys.
    assert (Hret : p_main final = M_returned).
    { destruct (p_exited final); [discriminate |]. by destruct (p_main final). }
    assert (Hinv : ProvInv E devices ∅ final).
    { unfold final, provisioning_end. rewrite Hempty.
      apply run_inv; [done |]. apply provision_init_inv. }
    destruct (returned_all_finished _ _ _ _ Hinv Hret) as (Hwg & Hfin & Hdev).
    destruct (returned_keys _ _ _ Hnd Hinv Hret) as (Hdom & Hsize & Hkeys).
    repeat split; try done.
    + by rewrite Hsize.
    + by rewrite <- Hlen, <- Hdev, length_fmap.
    + intros more. apply no_step_run. by apply returned_no_step.
  - intros Hok more Hsched. rewrite Hsetup. unfold outcome_of. simpl.
    rewrite <- Hlen in Hok, Hsched.
    destruct (provisioning_returns E (applicationID s) devices (deviceAppKeys s)
                (trace w ++ [Enter F_setupDevices]) more Hok) as [Hret Hex].
    rewrite <- Hsched in Hret, Hex. fold (provisioning_end E s w devices) in Hret, Hex.
    fold final in Hret, Hex. by rewrite Hex, Hret.
  - intros n st.
    assert (Hinv : ProvInv E devices ∅ st).
    { unfold st, provisioning_after. rewrite Hempty.
      apply run_inv; [done |]. apply provision_init_inv. }
    split.
    + intros i t Hi Hpc. apply (inv_stored _ _ _ _ Hinv i t Hi). by rewrite Hpc.
    + intros Hret.
      destruct (returned_all_finished _ _ _ _ Hinv Hret) as (_ & Hfin & _).
      unfold final, provisioning_end.
      rewrite <- (take_drop n (schedule E)) at 1. rewrite run_app.
      fold (provisioning_after E s w devices n). fold st.
      symmetry. apply no_step_run. by apply returned_no_step.
Qed.

(** C4 for a header and two rows, with the two tasks interleaved. *)
Lemma provisioning_completeness_witness :
  size (deviceAppKeys (sim_after (setupDevices two_devices_env example_simulation
                                    empty_world))) = 2%nat.
Proof.
  destruct (provisioning_completeness two_devices_env example_simulation empty_world
              ["name"; "device_profile_id"; "dev_eui"; "nwk_key"; "join_eui"; "description"]
              [ ["A"; "p1"; "0102030405060708"; "k1"; "j1"; "first"];
                ["B"; "p1"; "0102030405060709"; "k2"; "j1"; "second"] ])
    as (_ & Hsafe & _).
  - reflexivity.
  - repeat constructor.
  - repeat constructor.
  - apply (bool_decide_unpack _). vm_compute. exact I.
  - reflexivity.
  - apply Hsafe. vm_compute. reflexivity.
Defined.

(** C4's parenthesis as the specification words it fails. With the two rows
    of [two_devices_env], after 18 choices of the scheduler the second task has
    stored its key and the map has its final two entries, while that task has
    not called [wg.Done()] yet: the counter is 1 and [wg.Wait()] has not
    returned. *)
Lemma final_size_precedes_barrier :
  readDevicesFromCSV (devices_csv two_devices_env) = Returned (two_devices, None) /\
  size (p_keys (provisioning_after two_devices_env example_simulation empty_world
                  two_devices 18)) = 2%nat /\
  size (p_keys (provisioning_end two_devices_env example_simulation empty_world
                  two_devices)) = 2%nat /\
  p_wg (provisioning_after two_devices_env example_simulation empty_world
          two_devices 18) = 1 /\
  p_main (provisioning_after two_devices_env example_simulation empty_world
            two_devices 18) <> M_returned /\
  ~ final_size_only_after_barrier two_devices_env example_simulation empty_world
      two_devices.
Proof.
  assert (H18 : size (p_keys (provisioning_after two_devices_env example_simulation
                                empty_world two_devices 18)) = 2%nat)
    by (vm_compute; reflexivity).
  assert (Hend : size (p_keys (provisioning_end two_devices_env example_simulation
                                 empty_world two_devices)) = 2%nat)
    by (vm_compute; reflexivity).
  assert (Hmain : p_main (provisioning_after two_devices_env example_simulation
                            empty_world two_devices 18) <> M_returned)
    by (vm_compute; discriminate).
  split; [vm_compute; reflexivity |].
  split; [exact H18 |]. split; [exact Hend |]. split; [vm_compute; reflexivity |].
  split; [exact Hmain |].
  intros Hall. apply Hmain, Hall. by rewrite H18, Hend.
Qed.

(** *** A failure inside a task (C5) *)

Lemma exited_no_step (E : Env) (appID : string) (st : PState) :
  p_exited st = true -> forall c, pstep E appID c st = None.
Proof. intros Hex c. unfold pstep. by rewrite Hex. Qed.

Lemma setupDevices_never_returns_error (E : Env) (s : simulation) (w : World) (e : error) :
  outcome_of (setupDevices E s w) <> Returned (Some e).
Proof.
  unfold setupDevices, bind, enter, emit, outcome_of. simpl.
  destruct (readDevicesFromCSV (devices_csv E)) as [[devices [err |]] | | p |]; simpl;
    try discriminate.
  match goal with |- context [p_exited ?st] => destruct (p_exited st) end;
    [discriminate |].
  match goal with |- context [p_main ?st] => destruct (p_main st) end; discriminate.
Qed.

(** C5. When crypto/rand, the create-device call or the create-device-keys
    call fails in a provisioning task, the step of that task ends the
    process: the state is marked exited with the key map as it was, and no
    goroutine, this task, another task or the one running [setupDevices], takes
    a step afterwards. [setupDevices] then does not return at all: its outcome
    is the exit of the process, as soon as the schedule has led to such a
    failure, and it never returns an error value. The simulation's [start]
    ends there too, with neither the run phase nor tear-down entered. *)
Theorem task_failure_is_fatal (E : Env) (appID : string) (st : PState) (i : nat) (t : Task) :
  p_exited st = false ->
  p_tasks st !! i = Some t ->
  (t_pc t = T_start /\ exists err, rand_Read 16 (rand_entropy E i) = inl err) \/
  (t_pc t = T_create /\ exists err, as_Device_Create E i = Some err) \/
  (t_pc t = T_createKeys /\ exists err, as_Device_CreateKeys E i = Some err) ->
  (exists st',
     pstep E appID (S i) st = Some st' /\
     p_exited st' = true /\ p_keys st' = p_keys st /\ p_tasks st' = p_tasks st /\
     (forall c, pstep E appID c st' = None) /\
     (forall sched, run E appID sched st' = st')) /\
  (forall s w e, outcome_of (setupDevices E s w) <> Returned (Some e)) /\
  (forall s w devices,
     readDevicesFromCSV (devices_csv E) = Returned (devices, None) ->
     p_exited (provisioning_end E s w devices) = true ->
     outcome_of (setupDevices E s w) = Exited) /\
  (forall s w,
     outcome_of (init E s w) = Exited ->
     outcome_of (start E s w) <> Returned tt /\
     phases (events_since w (start E s w)) = [F_init]).
Proof.
  intros Hlive Hi Hfail. split; [| split; [| split]].
  - assert (Hstep : exists st', pstep E appID (S i) st = Some st' /\
              p_exited st' = true /\ p_keys st' = p_keys st /\ p_tasks st' = p_tasks st).
    { unfold pstep. rewrite Hlive, Hi. unfold task_step.
      destruct Hfail as [[-> [err ->]] | [[-> [err ->]] | [-> [err ->]]]];
        eexists; repeat split; reflexivity. }
    destruct Hstep as (st' & Hstep & Hex & Hkeys & Htasks).
    exists st'. repeat split; try done.
    + by apply exited_no_step.
    + intros sched. apply no_step_run. by apply exited_no_step.
  - intros s w e. apply setupDevices_never_returns_error.
  - intros s w devices Hread Hex.
    rewrite (setupDevices_unfold E s w devices Hread). unfold outcome_of. simpl.
    by rewrite Hex.
  - intros s w Hinit. destruct (start_phases E s w) as [Hph Hout].
    rewrite Hinit in Hph, Hout. simpl in Hph, Hout. split; [| exact Hph].
    intros Hret. apply Hout in Hret as [[=] _].
Qed.

(** C5 where the management API refuses to create devices: the first task to
    reach its create call ends the process, and [setupDevices] exits. *)
Lemma task_failure_is_fatal_witness :
  outcome_of (setupDevices create_refused_env example_simulation empty_world) = Exited.
Proof.
  pose (t := mkTask (mkDevice "A" "p1" "0102030405060708" "k1" "j1" "first") T_create
               [Byte.x01; Byte.x02; Byte.x03; Byte.x04; Byte.x05; Byte.x06; Byte.x07;
                Byte.x08] (repeat Byte.x5a 16)).
  pose (st := mkPState (M_add [mkDevice "B" "p1" "0102030405060709" "k2" "j1" "second"])
                [t] 1 false ∅ [Enter F_setupDevices] false).
  destruct (task_failure_is_fatal create_refused_env "" st 0 t) as (_ & _ & Hexit & _).
  - reflexivity.
  - reflexivity.
  - right. left. split; [reflexivity | eexists; reflexivity].
  - eapply Hexit.
    + vm_compute. reflexivity.
    + vm_compute. reflexivity.
Defined.

(** *** The key of a device (C7) *)








(** The root-key field of the rows plays no part: a step on the state with
    the field blanked is the step on the state, blanked. *)
Lemma parse_devEUI_without_NwkKey (d : Device) :
  parse_devEUI (without_NwkKey d) = parse_devEUI d.
Proof. reflexivity. Qed.






(** ** The device list reader (C2) *)

(** The row check of the reader lets through any record of four fields or
    more, while the reader then indexes six. *)
Lemma readDevices_loop_short_row (i : Z) (record : list string) (rest : list (list string))
    (devices : list Device) :
  0 < i -> (4 <= length record < 6)%nat ->
  readDevices_loop i (record :: rest) devices =
    Panicked (IndexOutOfRange (len record) (len record)).
Proof.
  intros Hi Hlen. simpl.
  destruct (i =? 0) eqn:Hz; [apply Z.eqb_eq in Hz; lia |].
  destruct record as [| f0 [| f1 [| f2 [| f3 [| f4 [| f5 r]]]]]]; simpl in Hlen; try lia;
    reflexivity.
Qed.

Lemma readDevices_loop_rejected_row (i : Z) (record : list string) (rest : list (list string))
    (devices : list Device) :
  0 < i -> (length record < 4)%nat ->
  readDevices_loop i (record :: rest) devices = Returned ([], Some (ErrTooFewFields (i + 1))).
Proof.
  intros Hi Hlen. simpl.
  destruct (i =? 0) eqn:Hz; [apply Z.eqb_eq in Hz; lia |].
  assert (Hlt : (len record <? 4) = true) by (apply Z.ltb_lt; unfold len; lia).
  by rewrite Hlt.
Qed.

(** C2, on the code. The reader rejects a row only when it has fewer than
    four fields. The five-field row of the claim, in a file whose header has
    five fields too, passes the csv reader and the row check, and the reader
    panics on its sixth field, index 5 of a record of length 5: no error is
    returned. [setupDevices] ends in that panic, having made no remote call. *)
Theorem five_field_row_panics :
  csv_ReadAll five_field_file = (five_field_file, None) /\
  readDevicesFromCSV (Some five_field_file) = Panicked (IndexOutOfRange 5 5) /\
  (forall E s w,
     devices_csv E = Some five_field_file ->
     outcome_of (setupDevices E s w) = Panicked (IndexOutOfRange 5 5) /\
     trace (world_after (setupDevices E s w)) = trace w ++ [Enter F_setupDevices]) /\
  outcome_of (start five_field_env example_simulation empty_world) =
    Panicked (IndexOutOfRange 5 5).
Proof.
  split; [reflexivity |]. split; [reflexivity |]. split.
  - intros E s w Hcsv. unfold setupDevices, bind, enter, emit, outcome_of, world_after.
    simpl. rewrite Hcsv. split; reflexivity.
  - vm_compute. reflexivity.
Qed.

(** * Further properties of the code *)

(** ** The device list reader *)

Lemma omap_device_of_record_rows (rows : list (list string)) :
  Forall (fun r => (6 <= length r)%nat) rows ->
  Forall2 row_of_device rows (omap device_of_record rows).
Proof.
  induction 1 as [| r rows Hr _ IH]; [constructor |].
  destruct r as [| f0 [| f1 [| f2 [| f3 [| f4 [| f5 more]]]]]]; simpl in Hr; try lia.
  change (omap device_of_record ((f0 :: f1 :: f2 :: f3 :: f4 :: f5 :: more) :: rows))
    with (mkDevice f0 f1 f2 f3 f4 f5 :: omap device_of_record rows).
  constructor; [by exists more | exact IH].
Qed.

Lemma uniform_rows (header : list string) (rows : list (list string)) :
  uniform (header :: rows) = true <-> Forall (fun r => length r = length header) rows.
Proof.
  unfold uniform. rewrite forallb_forall, Forall_forall. split.
  - intros H r Hr. apply Nat.eqb_eq, H. by apply list_elem_of_In.
  - intros H r Hr. apply Nat.eqb_eq, H. by apply list_elem_of_In.
Qed.

(** X1. The reader skips the first record as the header, whatever it holds,
    and gives one device per further record, in the order of the file, made
    of the first six fields of the record; fields beyond the sixth are
    ignored. A file with no record, or with a header only, gives the empty
    list and no error. *)
Theorem readDevicesFromCSV_one_device_per_row (header : list string)
    (rows : list (list string)) :
  uniform (header :: rows) = true ->
  (6 <= length header)%nat ->
  exists devices,
    readDevicesFromCSV (Some (header :: rows)) = Returned (devices, None) /\
    Forall2 row_of_device rows devices /\
    readDevicesFromCSV (Some [header]) = Returned ([], None) /\
    readDevicesFromCSV (Some []) = Returned ([], None).
Proof.
  intros Hu Hsix. apply uniform_rows in Hu.
  assert (Hrows : Forall (fun r => (6 <= length r)%nat) rows).
  { eapply Forall_impl; [exact Hu |]. simpl. intros r ->. exact Hsix. }
  destruct (readDevicesFromCSV_valid header rows Hu Hrows) as [Hread _].
  exists (omap device_of_record rows). split; [exact Hread |].
  split; [by apply omap_device_of_record_rows |]. split; reflexivity.
Qed.

(** X1 on a list of two devices, the second row with a seventh field. *)
Lemma readDevicesFromCSV_one_device_per_row_witness :
  exists devices,
    readDevicesFromCSV
      (Some [ ["name"; "profile"; "eui"; "key"; "join"; "description"; "site"];
              ["A"; "p1"; "0102030405060708"; "k1"; "j1"; "first"; "north"];
              ["B"; "p1"; "0102030405060709"; "k2"; "j1"; "second"; "south"] ])
      = Returned (devices, None) /\
    length devices = 2%nat.
Proof.
  destruct (readDevicesFromCSV_one_device_per_row
              ["name"; "profile"; "eui"; "key"; "join"; "description"; "site"]
              [ ["A"; "p1"; "0102030405060708"; "k1"; "j1"; "first"; "north"];
                ["B"; "p1"; "0102030405060709"; "k2"; "j1"; "second"; "south"] ])
    as (devices & Hread & Hrows & _).
  - reflexivity.
  - simpl. lia.
  - exists devices. split; [exact Hread |].
    apply Forall2_length in Hrows. simpl in Hrows. lia.
Defined.

(** X2. What the reader does with a file that has data rows is decided by the
    number of fields: records that differ in their number of fields are a csv
    error; with fewer than four fields everywhere, the first data row is
    rejected with the error of line 2; with four or five fields everywhere,
    the reader panics on the first data row, at the index just past its
    fields. In none of these cases is a device returned. *)
Theorem readDevicesFromCSV_by_field_count (header row : list string)
    (rows : list (list string)) :
  (uniform (header :: row :: rows) = false ->
   readDevicesFromCSV (Some (header :: row :: rows)) = Returned ([], Some ErrFieldCount)) /\
  (uniform (header :: row :: rows) = true ->
   (length header < 4)%nat ->
   readDevicesFromCSV (Some (header :: row :: rows)) =
     Returned ([], Some (ErrTooFewFields 2))) /\
  (uniform (header :: row :: rows) = true ->
   (4 <= length header < 6)%nat ->
   readDevicesFromCSV (Some (header :: row :: rows)) =
     Panicked (IndexOutOfRange (len header) (len header))).
Proof.
  unfold readDevicesFromCSV, csv_ReadAll, uniform.
  split; [| split].
  - by intros ->.
  - intros Hu Hc. rewrite Hu.
    change (readDevices_loop 0 (header :: row :: rows) [])
      with (readDevices_loop 1 (row :: rows) []).
    simpl in Hu. apply andb_prop in Hu as [Hrow _]. apply Nat.eqb_eq in Hrow.
    rewrite readDevices_loop_rejected_row by lia. reflexivity.
  - intros Hu Hc. rewrite Hu.
    change (readDevices_loop 0 (header :: row :: rows) [])
      with (readDevices_loop 1 (row :: rows) []).
    simpl in Hu. apply andb_prop in Hu as [Hrow _]. apply Nat.eqb_eq in Hrow.
    rewrite readDevices_loop_short_row by lia. unfold len. by rewrite Hrow.
Qed.

(** X2 on a file of three-field records. *)
Lemma readDevicesFromCSV_by_field_count_witness :
  readDevicesFromCSV (Some [ ["name"; "profile"; "eui"]; ["A"; "p1"; "0102030405060708"] ])
    = Returned ([], Some (ErrTooFewFields 2)).
Proof.
  apply (readDevicesFromCSV_by_field_count ["name"; "profile"; "eui"]
           ["A"; "p1"; "0102030405060708"] []).
  - reflexivity.
  - simpl. lia.
Defined.

(** X3. [setupDevices] turns every error of the reader into the end of the
    process: a device list that cannot be opened, whose records differ in
    their number of fields, or whose rows have fewer than four fields makes
    [log.Fatal] exit, before any goroutine is spawned and any remote call is
    made, with the simulation as it was; [setupDevices] does not return the
    error. *)
Theorem setupDevices_reader_error_exits (E : Env) (s : simulation) (w : World) :
  (devices_csv E = None \/
   (exists header row rows, devices_csv E = Some (header :: row :: rows) /\
      (uniform (header :: row :: rows) = false \/ (length header < 4)%nat))) ->
  (exists err, readDevicesFromCSV (devices_csv E) = Returned ([], Some err)) /\
  setupDevices E s w =
    (Exited, s, mkWorld (trace w ++ [Enter F_setupDevices]) (draws w) (ranges w)).
Proof.
  intros Hfile.
  assert (Herr : exists err, readDevicesFromCSV (devices_csv E) = Returned ([], Some err)).
  { destruct Hfile as [-> | (header & row & rows & -> & Hcase)]; [by eexists |].
    unfold readDevicesFromCSV, csv_ReadAll. unfold uniform in Hcase.
    destruct Hcase as [Hu | Hc]; [rewrite Hu; by eexists |].
    match goal with
    | |- context [if ?b then _ else _] => destruct b eqn:Hu
    end; [| by eexists].
    change (readDevices_loop 0 (header :: row :: rows) [])
      with (readDevices_loop 1 (row :: rows) []).
    simpl in Hu. apply andb_prop in Hu as [Hrow _]. apply Nat.eqb_eq in Hrow.
    rewrite readDevices_loop_rejected_row by lia. by eexists. }
  split; [exact Herr |]. destruct Herr as [err Herr].
  unfold setupDevices, bind, enter, emit. by rewrite Herr.
Qed.

(** X3 where the device list is missing. *)
Lemma setupDevices_reader_error_exits_witness :
  outcome_of (setupDevices unreachable_env example_simulation empty_world) = Exited.
Proof.
  destruct (setupDevices_reader_error_exits unreachable_env example_simulation empty_world)
    as [_ Hexit].
  - left. reflexivity.
  - by rewrite Hexit.
Defined.

(** ** The sampler and the draws at their edges *)

Lemma fill_loop_no_panic (ds : list Z) :
  forall (k : Z) (gws : list Gateway) (m : gmap Z Gateway),
    0 < len gws ->
    (exists m' rest, fill_loop ds k gws m = (Returned m', rest)) \/
    (exists rest, fill_loop ds k gws m = (Pending, rest)).
Proof.
  induction ds as [| d ds IH]; intros k gws m HP;
    rewrite fill_loop_unfold; destruct (map_len m <? k) eqn:Hlt; eauto.
  - unfold Intn. destruct (len gws <=? 0) eqn:Hz; [apply Z.leb_le in Hz; lia |]. eauto.
  - unfold Intn. destruct (len gws <=? 0) eqn:Hz; [apply Z.leb_le in Hz; lia |].
    pose proof (Z.mod_pos_bound d (len gws) HP) as Hmod.
    destruct (gws !! Z.to_nat (d mod len gws)) as [g |] eqn:Hg; [by apply IH |].
    apply lookup_ge_None in Hg. unfold len in *. lia.
Qed.

Lemma map_len_bounded (P : Z) (m : gmap Z Gateway) :
  0 <= P ->
  (forall n g, m !! n = Some g -> 0 <= n < P) ->
  map_len m <= P.
Proof.
  intros HP Hin. unfold map_len. rewrite <- size_dom.
  assert (Hsub : dom m ⊆ (list_to_set (seqZ 0 P) : gset Z)).
  { intros n Hn. apply elem_of_dom in Hn as [g Hg].
    apply elem_of_list_to_set, elem_of_seqZ. specialize (Hin n g Hg). lia. }
  apply subseteq_size in Hsub.
  rewrite size_list_to_set in Hsub by apply NoDup_seqZ.
  rewrite length_seqZ in Hsub. lia.
Qed.

(** X4. The sampling loop has no exit when a device is to get more gateways
    than the pool holds: for a range that is the right way round,
    [gatewayMinCount <= gatewayMaxCount] with a width below [int64_max], and
    a pool smaller than [gatewayMinCount], the sampler returns for no sequence
    of draws. On an empty pool the first iteration panics in [mrand.Intn(0)];
    on a pool that is not empty the loop neither panics nor ends, however
    many draws it is given. *)
Theorem sampleGateways_pool_too_small (min max : Z) (gateways : list Gateway) (ds : list Z) :
  is_int64 min -> is_int64 max ->
  min <= max -> max - min < int64_max ->
  len gateways < min ->
  (forall m rest, sampleGateways min max gateways ds <> (Returned m, rest)) /\
  (gateways = [] ->
   forall r ds', ds = r :: ds' ->
     sampleGateways min max gateways ds = (Panicked InvalidArgumentIntn, ds')) /\
  (gateways <> [] ->
   exists rest, sampleGateways min max gateways ds = (Pending, rest)).
Proof.
  intros Hmin Hmax Hle Hov Hsmall.
  destruct (span_no_overflow min max Hmin Hmax Hle) as [_ Hno]. specialize (Hno Hov).
  pose proof (len_nonneg gateways) as HP0.
  assert (Hnever : forall m rest, sampleGateways min max gateways ds <> (Returned m, rest)).
  { intros m rest Hrun. unfold sampleGateways in Hrun. rewrite Hno in Hrun.
    destruct (Intn (max - min + 1) ds) as [[r | | p |] ds'] eqn:HI; try discriminate.
    apply Intn_returned in HI as (_ & Hr & _).
    rewrite wrap64_id in Hrun by (unfold is_int64 in *; lia).
    apply fill_loop_returned in Hrun as (Hsize & _ & Hsub).
    change (map_len ∅) with 0 in Hsize. specialize (Hsize ltac:(lia)).
    assert (Hb : map_len m <= len gateways).
    { apply map_len_bounded; [done |]. intros n g Hg.
      destruct (Hsub n g Hg) as [Hemp | [Hrange _]]; [| done].
      by rewrite lookup_empty in Hemp. }
    lia. }
  split; [exact Hnever |]. split.
  - intros -> r ds' ->. unfold sampleGateways. rewrite Hno. unfold Intn at 1.
    destruct (max - min + 1 <=? 0) eqn:Hz; [apply Z.leb_le in Hz; lia |].
    apply Z.leb_gt in Hz. pose proof (Z.mod_pos_bound r (max - min + 1) Hz) as Hr.
    rewrite wrap64_id by (unfold is_int64 in *; lia).
    rewrite fill_loop_unfold. change (map_len ∅) with 0.
    change (len (@nil Gateway)) with 0 in *.
    destruct (0 <? min + r mod (max - min + 1)) eqn:Hk; [reflexivity |].
    apply Z.ltb_ge in Hk. lia.
  - intros Hne.
    assert (HP : 0 < len gateways) by (destruct gateways; [done | unfold len; simpl; lia]).
    destruct (sampleGateways min max gateways ds) as [[m | | p |] rest] eqn:Hrun.
    + by destruct (Hnever m rest).
    + exfalso. unfold sampleGateways in Hrun.
      destruct (Intn _ ds) as [[r | | p |] ds'] eqn:HI; try discriminate.
      * destruct (fill_loop_no_panic ds' (wrap64 (min + r)) gateways ∅ HP)
          as [(m' & rest' & Heq) | (rest' & Heq)]; congruence.
      * unfold Intn in HI. destruct (_ <=? 0); [discriminate |]. by destruct ds.
    + exfalso. unfold sampleGateways in Hrun. rewrite Hno in Hrun.
      destruct (Intn (max - min + 1) ds) as [[r | | p' |] ds'] eqn:HI; try discriminate.
      * destruct (fill_loop_no_panic ds' (wrap64 (min + r)) gateways ∅ HP)
          as [(m' & rest' & Heq) | (rest' & Heq)]; congruence.
      * unfold Intn in HI.
        destruct (max - min + 1 <=? 0) eqn:Hz; [apply Z.leb_le in Hz; lia |].
        by destruct ds.
    + by exists rest.
Qed.

(** X4 for two gateways at least and a pool of one: the eight draws all give
    index 0, and the loop asks for more. *)
Lemma sampleGateways_pool_too_small_witness :
  exists rest,
    sampleGateways 2 3 [mkGateway gateway_identity 0] [1; 4; 0; 7; 7; 2; 9; 5] = (Pending, rest).
Proof.
  apply (sampleGateways_pool_too_small 2 3 [mkGateway gateway_identity 0]
           [1; 4; 0; 7; 7; 2; 9; 5]).
  - unfold is_int64, int64_min, int64_max. lia.
  - unfold is_int64, int64_min, int64_max. lia.
  - lia.
  - unfold int64_max. lia.
  - reflexivity.
  - discriminate.
Defined.

(** X5. A gateway range that is the wrong way round, [gatewayMaxCount <
    gatewayMinCount], with a difference that 64 bits can hold ([int64_min <=
    gatewayMaxCount - gatewayMinCount], as for any two counts of the same
    sign), makes the first draw of the sampler panic: [mrand.Intn] is called
    with an argument that is not positive. No draw is consumed and no gateway
    is assigned. *)
Theorem sampleGateways_inverted_range (min max : Z) (gateways : list Gateway) (ds : list Z) :
  is_int64 min -> is_int64 max ->
  max < min -> int64_min <= max - min ->
  sampleGateways min max gateways ds = (Panicked InvalidArgumentIntn, ds).
Proof.
  intros Hmin Hmax Hlt Hfit. unfold sampleGateways, Intn.
  assert (Hn : wrap64 (wrap64 (max - min) + 1) = max - min + 1).
  { unfold is_int64, int64_min, int64_max in *.
    rewrite (wrap64_id (max - min)) by (unfold is_int64, int64_min, int64_max; lia).
    apply wrap64_id. unfold is_int64, int64_min, int64_max. lia. }
  rewrite Hn. destruct (max - min + 1 <=? 0) eqn:Hz; [done |].
  apply Z.leb_gt in Hz. lia.
Qed.

(** X5 for the range from 3 down to 1. *)
Lemma sampleGateways_inverted_range_witness :
  sampleGateways 3 1 [mkGateway gateway_identity 0] [5; 6] = (Panicked InvalidArgumentIntn, [5; 6]).
Proof.
  apply sampleGateways_inverted_range.
  - unfold is_int64, int64_min, int64_max. lia.
  - unfold is_int64, int64_min, int64_max. lia.
  - lia.
  - unfold int64_min. lia.
Defined.

(** X6. With an activation time that is zero or negative no device is ever
    made, in the run phase or in a whole life cycle: [mrand.Int63n] panics on
    its argument before [simulator.NewDevice] is called. *)
Theorem no_device_without_activation_time (E : Env) (s : simulation) (w : World) :
  activationTime s <= 0 ->
  (forall ds, Int63n (activationTime s) ds = (Panicked InvalidArgumentInt63n, ds)) /\
  (forall c o, NewDevice c o ∉ events_since w (runSimulation E s w)) /\
  (forall c o, NewDevice c o ∉ events_since w (start E s w)).
Proof.
  intros Hact.
  assert (Hev : forall evs, Forall (event_ok (settings s)) evs ->
                  forall c o, NewDevice c o ∉ evs).
  { intros evs HF c o Hin. eapply Forall_forall in HF; [| exact Hin].
    unfold event_ok in HF. rewrite settings_activationTime in HF. lia. }
  split; [| split].
  - intros ds. unfold Int63n.
    destruct (activationTime s <=? 0) eqn:Hz; [done | apply Z.leb_gt in Hz; lia].
  - destruct (runSimulation E s w) as [[o s'] w'] eqn:Hrun.
    assert (Hk : keeps (fun _ => tt) (settings s) tt (event_ok (settings s))
                   (runSimulation E))
      by (eapply enters_keeps; by apply enters_runSimulation).
    destruct (Hk s w o s' w' eq_refl eq_refl Hrun) as (_ & _ & evs & Ht & HF).
    rewrite (events_since_app w (o, s', w') evs Ht). by apply Hev.
  - destruct (start_events E s w) as (_ & evs & Ht & HF).
    rewrite (events_since_app w _ evs Ht). by apply Hev.
Qed.

(** X6 for an activation time of zero and two provisioned devices. *)
Lemma no_device_without_activation_time_witness :
  Int63n 0 [7] = (Panicked InvalidArgumentInt63n, [7]) /\
  forall c o,
    NewDevice c o ∉
      events_since (mkWorld [] [3; 1; 4; 1; 5; 9; 2; 6] 0)
        (start two_devices_env
           (newSimulation (External 0)
              (mkSimulatorConfig "t" 0 0 2 1 1 "00" 1 1 1 1 3 "e" "c") [Byte.x00])
           (mkWorld [] [3; 1; 4; 1; 5; 9; 2; 6] 0)).
Proof.
  destruct (no_device_without_activation_time two_devices_env
              (newSimulation (External 0)
                 (mkSimulatorConfig "t" 0 0 2 1 1 "00" 1 1 1 1 3 "e" "c") [Byte.x00])
              (mkWorld [] [3; 1; 4; 1; 5; 9; 2; 6] 0)) as (Hpanic & _ & Hnone).
  - simpl. lia.
  - split; [exact (Hpanic [7]) | exact Hnone].
Defined.

(** ** Set-up, step by step *)

Lemma entered_provisioning_calls (evs : list Event) :
  Forall provisioning_call evs -> entered evs = [].
Proof.
  induction 1 as [| ev evs [call ->] _ IH]; [done |]. simpl. exact IH.
Qed.

Lemma step_enters_setupTenant (E : Env) : step_enters F_setupTenant (setupTenant E).
Proof.
  intros s w. unfold setupTenant, bind, enter, emit, get, modify, ret, world_after. simpl.
  destruct (as_Tenant_Get E (tenantID s)); simpl;
    eexists [_]; (split; [by rewrite <- app_assoc | done]).
Qed.

Lemma step_enters_setupGateways : step_enters F_setupGateways setupGateways.
Proof.
  intros s w. exists []. split; reflexivity.
Qed.

Lemma step_enters_setupDeviceProfile : step_enters F_setupDeviceProfile setupDeviceProfile.
Proof.
  intros s w. unfold setupDeviceProfile.
  generalize (uuid_FromString deviceProfileID_text). intros [dpID [err |]];
    exists []; split; reflexivity.
Qed.

Lemma step_enters_setupApplication (E : Env) :
  step_enters F_setupApplication (setupApplication E).
Proof.
  intros s w. unfold setupApplication, bind, enter, emit, get, modify, ret, world_after.
  simpl. destruct (as_Application_Get E applicationID_text); simpl;
    eexists [_]; (split; [by rewrite <- app_assoc | done]).
Qed.

Lemma step_enters_setupDevices (E : Env) : step_enters F_setupDevices (setupDevices E).
Proof.
  intros s w. unfold setupDevices, bind, enter, emit, world_after. simpl.
  destruct (readDevicesFromCSV (devices_csv E)) as [[devices [err |]] | | p |]; simpl;
    try (exists []; split; reflexivity).
  match goal with
  | |- context [run E ?a ?sc ?st0] =>
      destruct (run_trace E a sc st0) as (evs & Ht & HF); set (st := run E a sc st0) in *
  end.
  exists evs. split; [| by apply entered_provisioning_calls].
  simpl in Ht. rewrite <- app_assoc in Ht. simpl in Ht.
  destruct (p_exited st); [exact Ht |]. destruct (p_main st); exact Ht.
Qed.

Lemma step_enters_setupApplicationIntegration (E : Env) :
  step_enters F_setupApplicationIntegration (setupApplicationIntegration E).
Proof.
  intros s w.
  unfold setupApplicationIntegration, bind, enter, emit, get, ret, world_after. simpl.
  destruct (mqtt_Subscribe E (uplink_topic (applicationID s))); simpl;
    eexists [_]; (split; [by rewrite <- app_assoc | done]).
Qed.

Lemma in_order_ret : in_order [] (ret None).
Proof. intros s w. exists []. split; [by rewrite app_nil_r | split; done]. Qed.

Lemma in_order_check (F : Fn) (m k : M (option error)) (order : list Fn) :
  step_enters F m -> in_order order k -> in_order (F :: order) (check m k).
Proof.
  intros Hm Hk s w. destruct (Hm s w) as (evs1 & Ht1 & He1).
  unfold check, bind, world_after, outcome_of in *.
  destruct (m s w) as [[o s1] w1]. simpl in Ht1.
  assert (Hstop : entered (Enter F :: evs1) `prefix_of` F :: order).
  { simpl. rewrite He1. by apply prefix_cons, prefix_nil. }
  destruct o as [[err |] | | p |]; simpl;
    try (exists (Enter F :: evs1); split; [done | split; [done | discriminate]]).
  destruct (Hk s1 w1) as (evs2 & Ht2 & Hp2 & Hall2).
  unfold world_after, outcome_of in *.
  destruct (k s1 w1) as [[o2 s2] w2]. simpl in *.
  exists (Enter F :: evs1 ++ evs2). split; [| split].
  - rewrite Ht2, Ht1, <- app_assoc. reflexivity.
  - simpl. rewrite entered_app, He1. simpl. by apply prefix_cons.
  - intros Ho. simpl. rewrite entered_app, He1. simpl. f_equal. by apply Hall2.
Qed.

Lemma entered_chain (steps : list (Fn * M (option error))) :
  Forall (fun step => step_enters step.1 step.2) steps ->
  forall s w, exists evs,
    trace (world_after (chain steps s w)) = trace w ++ evs /\
    entered evs = attempted steps s w.
Proof.
  induction 1 as [| [F m] steps Hm _ IH]; intros s w.
  - exists []. by rewrite app_nil_r.
  - simpl in Hm. destruct (Hm s w) as (evs1 & Ht1 & He1).
    cbn [chain foldr attempted snd]. fold (chain steps).
    unfold check, bind, world_after in *.
    destruct (m s w) as [[o s1] w1]. simpl in Ht1.
    destruct o as [[err |] | | p |]; simpl;
      try (exists (Enter F :: evs1); split; [done | by rewrite <- He1]).
    destruct (IH s1 w1) as (evs2 & Ht2 & He2). unfold world_after in Ht2.
    destruct (chain steps s1 w1) as [[o2 s2] w2]. simpl in *.
    exists (Enter F :: evs1 ++ evs2). split.
    + by rewrite Ht2, Ht1, <- app_assoc.
    + simpl. rewrite entered_app, He1, He2. done.
Qed.

(** X7. [init] enters its six steps in the order tenant, gateways, device
    profile, application, devices, application integration, and enters no
    step after one that did not return [nil]: the steps entered are exactly
    those up to and including the first that does not return [nil], each run
    in the state the one before it left. So they are always an initial part
    of that order, and all six when [init] returns without an error; when the
    tenant cannot be resolved only the tenant step is entered, and when the
    tenant is resolved and the application is not, only the first four. *)
Theorem init_steps_in_order (E : Env) (s : simulation) (w : World) :
  exists evs,
    events_since w (init E s w) = Enter F_init :: evs /\
    entered evs `prefix_of` setup_order /\
    (outcome_of (init E s w) = Returned None -> entered evs = setup_order) /\
    entered evs =
      attempted (init_steps E) s (mkWorld (trace w ++ [Enter F_init]) (draws w) (ranges w)) /\
    ((exists err, as_Tenant_Get E (tenantID s) = inl err) ->
     entered evs = [F_setupTenant]) /\
    ((exists t, as_Tenant_Get E (tenantID s) = inr t) ->
     (exists err, as_Application_Get E applicationID_text = inl err) ->
     entered evs =
       [F_setupTenant; F_setupGateways; F_setupDeviceProfile; F_setupApplication]).
Proof.
  assert (Hbody : in_order setup_order
            (check (setupTenant E) (check setupGateways (check setupDeviceProfile
               (check (setupApplication E) (check (setupDevices E)
                  (check (setupApplicationIntegration E) (ret None)))))))).
  { repeat apply in_order_check;
      auto using step_enters_setupTenant, step_enters_setupGateways,
        step_enters_setupDeviceProfile, step_enters_setupApplication,
        step_enters_setupDevices, step_enters_setupApplicationIntegration, in_order_ret. }
  set (w1 := mkWorld (trace w ++ [Enter F_init]) (draws w) (ranges w)).
  destruct (Hbody s w1) as (evs & Ht & Hp & Hall).
  assert (Hsteps : Forall (fun step => step_enters step.1 step.2) (init_steps E)).
  { repeat constructor; simpl;
      auto using step_enters_setupTenant, step_enters_setupGateways,
        step_enters_setupDeviceProfile, step_enters_setupApplication,
        step_enters_setupDevices, step_enters_setupApplicationIntegration. }
  destruct (entered_chain (init_steps E) Hsteps s w1) as (evs' & Ht' & He').
  change (chain (init_steps E) s w1)
    with (check (setupTenant E) (check setupGateways (check setupDeviceProfile
            (check (setupApplication E) (check (setupDevices E)
               (check (setupApplicationIntegration E) (ret None))))))  s w1) in Ht'.
  rewrite Ht in Ht'. apply app_inv_head in Ht'. subst evs'.
  exists evs. split; [| split; [exact Hp | split; [exact Hall | split; [exact He' |]]]].
  { apply events_since_app. unfold init, bind, enter, emit at 1.
    fold w1. rewrite Ht. simpl. by rewrite <- app_assoc. }
  rewrite He'. clear.
  assert (Hparse : (uuid_FromString deviceProfileID_text).2 = None)
    by (vm_compute; reflexivity).
  split.
  - intros [err Herr]. cbn [attempted init_steps].
    unfold setupTenant at 1. unfold bind, enter, emit, get, modify, ret. simpl.
    by rewrite Herr.
  - intros [t Ht] [err Herr]. cbn [attempted init_steps].
    unfold setupTenant at 1. unfold bind, enter, emit, get, modify, ret. simpl.
    rewrite Ht. simpl.
    unfold setupDeviceProfile.
    destruct (uuid_FromString deviceProfileID_text) as [dpID [e |]]; [done |].
    unfold bind, enter, emit, get, modify, ret. simpl.
    unfold setupApplication. unfold bind, enter, emit, get, modify, ret. simpl.
    by rewrite Herr.
Qed.

(** ** The life cycle as a whole *)

(** [start], phase by phase: a phase that does not return ends [start] there. *)
Lemma start_unfold (E : Env) (s : simulation) (w : World) :
  let r1 := logged "simulator: init simulation error" (init E) s w in
  let r2 := logged "simulator: simulation error" (runSimulation E)
              (sim_after r1) (world_after r1) in
  let r3 := logged "simulator: tear-down simulation error" (tearDown E)
              (sim_after r2) (world_after r2) in
  start E s w =
    match outcome_of r1 with
    | Returned _ =>
        match outcome_of r2 with
        | Returned _ =>
            match outcome_of r3 with
            | Returned _ =>
                (Returned tt, sim_after r3,
                 mkWorld (trace (world_after r3) ++ [WgDone])
                   (draws (world_after r3)) (ranges (world_after r3)))
            | _ => r3
            end
        | _ => r2
        end
    | _ => r1
    end.
Proof.
  intros r1 r2 r3. unfold start. unfold bind at 1. fold r1.
  destruct r1 as [[[[] | | p1 |] s1] w1]; try reflexivity.
  unfold bind at 1. unfold sim_after, world_after in r2. simpl in r2. fold r2.
  destruct r2 as [[[[] | | p2 |] s2] w2]; try reflexivity.
  unfold bind at 1. unfold sim_after, world_after in r3. simpl in r3. fold r3.
  destruct r3 as [[[[] | | p3 |] s3] w3]; reflexivity.
Qed.

(** A phase run under [logged] keeps the settings and never marks the
    simulation done. *)
Lemma logged_no_done (msg : string) (F : Fn) (m : M (option error)) (b : simulation) :
  enters (fun _ => tt) b tt F m ->
  forall s w, settings s = b ->
    settings (sim_after (logged msg m s w)) = b /\
    exists evs, trace (world_after (logged msg m s w)) = trace w ++ evs /\ WgDone ∉ evs.
Proof.
  intros Hm s w Hb. unfold logged, bind, sim_after, world_after.
  destruct (m s w) as [[o s1] w1] eqn:Hrun.
  destruct (Hm _ _ _ _ _ Hb eq_refl Hrun) as (Hb1 & _ & evs & Ht & Hin).
  assert (Hno : WgDone ∉ Enter F :: evs).
  { intros [[=] | Hin']%elem_of_cons.
    eapply Forall_forall in Hin; [| exact Hin']. exact Hin. }
  destruct o as [[err |] | | p |]; simpl; (split; [done |]); eauto.
  exists ((Enter F :: evs) ++ [LogError msg err]). split; [by rewrite Ht, app_assoc |].
  intros [Hl | [[=] | Hr%elem_of_nil]%elem_of_cons]%elem_of_app; done.
Qed.

(** X8. [start] calls [wg.Done()] at most once, and only as the last thing it
    does: when [start] returns, the done mark is the last event it added and
    occurs nowhere before; when it does not return (the process exited, a
    panic, or the run phase still waiting), the WaitGroup is never released. *)
Theorem start_releases_waitgroup_once_at_the_end (E : Env) (s : simulation) (w : World) :
  let evs := events_since w (start E s w) in
  if returned (outcome_of (start E s w))
  then exists before, evs = before ++ [WgDone] /\ WgDone ∉ before
  else WgDone ∉ evs.
Proof.
  intros evs. subst evs. rewrite start_unfold.
  destruct (logged_no_done "simulator: init simulation error" F_init (init E) (settings s)
              (enters_init E (settings s)) s w eq_refl) as (Hb1 & evs1 & Ht1 & Hn1).
  set (r1 := logged "simulator: init simulation error" (init E) s w) in *.
  assert (Hrun : enters (fun _ => tt) (settings s) tt F_runSimulation (runSimulation E))
    by by apply enters_runSimulation.
  destruct (logged_no_done "simulator: simulation error" F_runSimulation (runSimulation E)
              (settings s) Hrun (sim_after r1) (world_after r1) Hb1)
    as (Hb2 & evs2 & Ht2 & Hn2).
  set (r2 := logged "simulator: simulation error" (runSimulation E)
               (sim_after r1) (world_after r1)) in *.
  assert (Htd : enters (fun _ => tt) (settings s) tt F_tearDown (tearDown E))
    by by apply enters_tearDown.
  destruct (logged_no_done "simulator: tear-down simulation error" F_tearDown (tearDown E)
              (settings s) Htd (sim_after r2) (world_after r2) Hb2)
    as (Hb3 & evs3 & Ht3 & Hn3).
  set (r3 := logged "simulator: tear-down simulation error" (tearDown E)
               (sim_after r2) (world_after r2)) in *.
  assert (H12 : WgDone ∉ evs1 ++ evs2) by (intros [? | ?]%elem_of_app; done).
  assert (H123 : WgDone ∉ (evs1 ++ evs2) ++ evs3) by (intros [? | ?]%elem_of_app; done).
  assert (Ht12 : trace (world_after r2) = trace w ++ evs1 ++ evs2)
    by (by rewrite Ht2, Ht1, <- app_assoc).
  assert (Ht123 : trace (world_after r3) = trace w ++ (evs1 ++ evs2) ++ evs3)
    by (by rewrite Ht3, Ht12, <- !app_assoc).
  destruct (outcome_of r1) as [[] | | p1 |] eqn:Ho1.
  2-4: rewrite Ho1; simpl; by rewrite (events_since_app w r1 evs1 Ht1).
  destruct (outcome_of r2) as [[] | | p2 |] eqn:Ho2.
  2-4: rewrite Ho2; simpl; by rewrite (events_since_app w r2 (evs1 ++ evs2) Ht12).
  destruct (outcome_of r3) as [[] | | p3 |] eqn:Ho3.
  2-4: rewrite Ho3; simpl; by rewrite (events_since_app w r3 _ Ht123).
  simpl. exists ((evs1 ++ evs2) ++ evs3). split; [| done].
  apply events_since_app. simpl. by rewrite Ht123, <- !app_assoc.
Qed.

(** X9. The run phase and tear-down only read the simulation: whatever
    happens in them, every field (the device keys and the gateway identities
    among them) is afterwards what set-up left. Tear-down in particular
    deletes the devices remotely and keeps their keys in [deviceAppKeys]. *)
Theorem simulation_fixed_after_setup (E : Env) (s : simulation) (w : World) :
  sim_after (runSimulation E s w) = s /\
  sim_after (tearDown E s w) = s /\
  sim_after (start E s w) = sim_after (init E s w).
Proof.
  assert (Hrun : forall s w, sim_after (runSimulation E s w) = s).
  { intros s0 w0. destruct (runSimulation E s0 w0) as [[o s'] w'] eqn:Hr.
    by destruct (enters_runSimulation E (fun s => s) (settings s0) s0 s0 w0 o s' w'
                   eq_refl eq_refl Hr) as (_ & Hs & _). }
  assert (Htd : forall s w, sim_after (tearDown E s w) = s).
  { intros s0 w0. destruct (tearDown E s0 w0) as [[o s'] w'] eqn:Hr.
    by destruct (enters_tearDown E (fun s => s) (settings s0) s0 s0 w0 o s' w'
                   eq_refl eq_refl Hr) as (_ & Hs & _). }
  assert (Hlog : forall msg (m : M (option error)) s w,
            sim_after (logged msg m s w) = sim_after (m s w)).
  { intros msg m s0 w0. unfold logged, bind, sim_after.
    by destruct (m s0 w0) as [[[[err |] | | p |] s'] w']. }
  split; [apply Hrun | split; [apply Htd |]].
  rewrite start_unfold. rewrite <- (Hlog "simulator: init simulation error").
  set (r1 := logged "simulator: init simulation error" (init E) s w).
  set (r2 := logged "simulator: simulation error" (runSimulation E)
               (sim_after r1) (world_after r1)).
  set (r3 := logged "simulator: tear-down simulation error" (tearDown E)
               (sim_after r2) (world_after r2)).
  assert (H2 : sim_after r2 = sim_after r1) by (unfold r2; by rewrite Hlog, Hrun).
  assert (H3 : sim_after r3 = sim_after r1) by (unfold r3; by rewrite Hlog, Htd).
  destruct (outcome_of r1) as [[] | | |]; [| done ..].
  destruct (outcome_of r2) as [[] | | |]; [| done ..].
  by destruct (outcome_of r3) as [[] | | |].
Qed.

(** ** The run phase *)

(** The gateway loop when [simulator.NewGateway] refuses the [i]-th identity
    and none before. *)
Lemma newGateways_refused (E : Env) (ids : list EUI64) :
  forall (acc : list Gateway) (i : nat) (id : EUI64) (err : error) s w,
    ids !! i = Some id ->
    simulator_NewGateway E id (length acc + i) = Some err ->
    (forall j idj, (j < i)%nat -> ids !! j = Some idj ->
       simulator_NewGateway E idj (length acc + j) = None) ->
    newGateways E ids acc s w =
      (Returned (inl (ErrWrap "new gateway error" err)), s,
       mkWorld (trace w ++ (NewGateway <$> take (S i) ids)) (draws w) (ranges w)).
Proof.
  induction ids as [| id0 ids IH]; intros acc i id err s w Hi Herr Hbefore; [done |].
  simpl. unfold bind at 1. unfold emit. simpl.
  destruct i as [| i]; simpl in Hi.
  - injection Hi as ->. rewrite Nat.add_0_r in Herr. rewrite Herr. unfold ret.
    by rewrite take_0.
  - rewrite <- (Nat.add_0_r (length acc)), (Hbefore 0%nat id0) by (done || lia).
    rewrite Nat.add_0_r.
    rewrite (IH _ i id err); simpl.
    + by rewrite <- app_assoc.
    + done.
    + by rewrite length_app, <- Nat.add_assoc.
    + intros j idj Hj Hidj. rewrite length_app, <- Nat.add_assoc.
      apply (Hbefore (S j)); [lia | done].
Qed.

(** X10. When [simulator.NewGateway] refuses one of the gateway identities,
    the run phase returns that error wrapped as "new gateway error" right
    there: the identities up to the refused one were tried, no context was
    made (so none is cancelled), no random number was drawn and no device
    constructed. *)
Theorem runSimulation_gateway_refused (E : Env) (s : simulation) (w : World)
    (i : nat) (id : EUI64) (err : error) :
  gatewayIDs s !! i = Some id ->
  simulator_NewGateway E id i = Some err ->
  (forall j idj, (j < i)%nat -> gatewayIDs s !! j = Some idj ->
     simulator_NewGateway E idj j = None) ->
  runSimulation E s w =
    (Returned (Some (ErrWrap "new gateway error" err)), s,
     mkWorld (trace w ++ Enter F_runSimulation :: (NewGateway <$> take (S i) (gatewayIDs s)))
       (draws w) (ranges w)).
Proof.
  intros Hi Herr Hbefore. unfold runSimulation.
  unfold bind at 1. unfold enter, emit. unfold bind at 1. unfold get. unfold bind at 1.
  rewrite (newGateways_refused E (gatewayIDs s) [] i id err); [| done ..].
  unfold ret. simpl. by rewrite <- app_assoc.
Qed.

(** X10 for a simulation of three gateway identities the second of which is
    refused. *)
Lemma runSimulation_gateway_refused_witness :
  let E := mkEnv (as_Tenant_Get tenant_missing_env) (as_Application_Get tenant_missing_env)
             (fun _ => None) (fun _ => None) (fun _ => None) (fun _ => None) (fun _ => None)
             (fun _ n => if (n =? 1)%nat then Some (ErrRemote "refused") else None)
             (fun _ => None) (fun _ => None) None [] (fun _ _ => 0%nat) true in
  let s := set_gatewayIDs (repeat gateway_identity 3) example_simulation in
  outcome_of (runSimulation E s empty_world) =
    Returned (Some (ErrWrap "new gateway error" (ErrRemote "refused"))) /\
  trace (world_after (runSimulation E s empty_world)) =
    [Enter F_runSimulation; NewGateway gateway_identity; NewGateway gateway_identity] /\
  draws (world_after (runSimulation E s empty_world)) = draws empty_world.
Proof.
  intros E s.
  rewrite (runSimulation_gateway_refused E s empty_world 1 gateway_identity
             (ErrRemote "refused")).
  - repeat split.
  - reflexivity.
  - reflexivity.
  - intros [| j] idj Hj Hid; [reflexivity | lia].
Defined.

Lemma devices_made_app (evs1 evs2 : list Event) :
  devices_made (evs1 ++ evs2) = devices_made evs1 ++ devices_made evs2.
Proof.
  induction evs1 as [| [] evs1 IH]; simpl; by rewrite ?IH.
Qed.

Lemma devices_made_NewGateway (ids : list EUI64) : devices_made (NewGateway <$> ids) = [].
Proof. by induction ids. Qed.

(** The events of the gateway loop: one construction per identity, all of
    them when the loop returns the gateways. *)
Lemma newGateways_events (E : Env) (ids : list EUI64) :
  forall acc s w, exists n,
    trace (world_after (newGateways E ids acc s w)) = trace w ++ (NewGateway <$> take n ids) /\
    draws (world_after (newGateways E ids acc s w)) = draws w /\
    ranges (world_after (newGateways E ids acc s w)) = ranges w /\
    (forall gateways, outcome_of (newGateways E ids acc s w) = Returned (inr gateways) ->
       take n ids = ids).
Proof.
  induction ids as [| id ids IH]; intros acc s w.
  - exists 0%nat. simpl. by rewrite app_nil_r.
  - simpl. unfold bind at 1 2 3 4. unfold emit. simpl.
    destruct (simulator_NewGateway E id (length acc)).
    + exists 1%nat. simpl. by rewrite ?take_0.
    + destruct (IH (acc ++ [mkGateway id (length acc)]) s
                  (mkWorld (trace w ++ [NewGateway id]) (draws w) (ranges w)))
        as (n & Ht & Hd & Hr & Hfull).
      exists (S n). split; [| split; [done | split; [done |]]].
      * rewrite Ht. simpl. by rewrite <- app_assoc.
      * intros gateways Hg. simpl. f_equal. by eapply Hfull.
Qed.

Lemma sampleGateways_indices (min max : Z) (gateways : list Gateway) (ds : list Z)
    (m : gmap Z Gateway) (rest : list Z) :
  sampleGateways min max gateways ds = (Returned m, rest) ->
  forall n g, m !! n = Some g -> 0 <= n /\ gateways !! Z.to_nat n = Some g.
Proof.
  unfold sampleGateways. intros Hrun n g Hg.
  destruct (Intn _ ds) as [[r | | p |] ds']; try discriminate.
  apply fill_loop_returned in Hrun as (_ & _ & Hsub).
  destruct (Hsub n g Hg) as [Hemp | [[H0 _] Hgw]]; [| done].
  by rewrite lookup_empty in Hemp.
Qed.

(** The device loop, one entry after the other. *)
Lemma newDevices_events (E : Env) (s0 : simulation) (c : Ctx) (gateways : list Gateway)
    (entries : list (EUI64 * AES128Key)) :
  forall made s w o s' w',
    newDevices E s0 c gateways entries made s w = (o, s', w') ->
    exists evs,
      trace w' = trace w ++ evs /\
      devices_made evs `prefix_of` entries /\
      Forall (sampled_from gateways) evs /\
      Forall (fun ev => device_configured s0 ev /\ exists o, ev = NewDevice c o) evs /\
      (forall n, o = Returned (inr n) ->
         devices_made evs = entries /\ n = (made + length entries)%nat).
Proof.
  induction entries as [| [devEUI appKey] entries IH]; intros made s w o s' w' Hrun.
  { injection Hrun as <- <- <-. exists []. simpl. rewrite app_nil_r.
    split; [done | split; [done | split; [done | split; [done |]]]].
    intros n [= <-]. split; [done | lia]. }
  assert (Hstop : trace w' = trace w -> (forall n, o <> Returned (inr n)) ->
            exists evs,
              trace w' = trace w ++ evs /\
              devices_made evs `prefix_of` (devEUI, appKey) :: entries /\
              Forall (sampled_from gateways) evs /\
              Forall (fun ev => device_configured s0 ev /\ exists o, ev = NewDevice c o) evs /\
              (forall n, o = Returned (inr n) ->
                 devices_made evs = (devEUI, appKey) :: entries /\
                 n = (made + length ((devEUI, appKey) :: entries))%nat)).
  { intros Ht Hno. exists []. simpl. rewrite app_nil_r.
    split; [done | split; [apply prefix_nil | split; [done | split; [done |]]]].
    intros n Hn. by destruct (Hno n). }
  cbn [newDevices] in Hrun. unfold bind at 1 in Hrun. unfold draw at 1 in Hrun.
  destruct (sampleGateways _ _ gateways (draws w)) as [[m | | p |] ds1] eqn:Hsample;
    [| injection Hrun as <- <- <-; by apply Hstop ..].
  unfold bind at 1 in Hrun. unfold range_over at 1 in Hrun. simpl in Hrun.
  unfold bind at 1 in Hrun. unfold draw at 1 in Hrun. simpl in Hrun.
  set (picked := range_order _ (map_to_list m)) in Hrun.
  destruct (Int63n (activationTime s0) ds1) as [[delay | | p |] ds2];
    [| injection Hrun as <- <- <-; by apply Hstop ..].
  unfold bind at 1 in Hrun. unfold emit at 1 in Hrun. simpl in Hrun.
  match type of Hrun with
  | context [NewDevice c ?opts] => set (opts0 := opts) in *
  end.
  assert (Hsampled : sampled_from gateways (NewDevice c opts0)).
  { assert (Hperm : picked ≡ₚ map_to_list m) by apply range_order_Permutation.
    exists picked.*1. split; [| split].
    - rewrite Hperm. apply NoDup_fst_map_to_list.
    - apply Forall_forall. intros n [[n' g] [-> Hin]]%list_elem_of_fmap. simpl.
      rewrite Hperm in Hin. apply elem_of_map_to_list in Hin.
      by destruct (sampleGateways_indices _ _ _ _ _ _ Hsample n' g Hin).
    - simpl. rewrite <- !list_fmap_compose. apply list_fmap_ext.
      intros i [n g] Hi. simpl.
      assert (Hin : (n, g) ∈ map_to_list m).
      { rewrite <- Hperm. by eapply list_elem_of_lookup_2. }
      apply elem_of_map_to_list in Hin.
      by destruct (sampleGateways_indices _ _ _ _ _ _ Hsample n g Hin) as [_ ->]. }
  assert (Hconf : device_configured s0 (NewDevice c opts0) /\
                  exists o, NewDevice c opts0 = NewDevice c o)
    by (split; [by repeat split | by exists opts0]).
  destruct (simulator_NewDevice E devEUI) as [err |].
  - injection Hrun as <- <- <-. exists [NewDevice c opts0]. simpl.
    split; [done | split; [by apply prefix_cons, prefix_nil |]].
    split; [by constructor | split; [by constructor | discriminate]].
  - apply IH in Hrun as (evs & Ht & Hp & Hs & Hc & Hall).
    exists (NewDevice c opts0 :: evs). split; [| split; [| split; [| split]]].
    + rewrite Ht. simpl. by rewrite <- app_assoc.
    + simpl. by apply prefix_cons.
    + by constructor.
    + by constructor.
    + intros n Hn. destruct (Hall n Hn) as [Hd ->]. simpl. rewrite Hd.
      split; [done | lia].
Qed.

(** Neither the sampler nor a draw ends the process. *)
Lemma fill_loop_no_exit (ds : list Z) :
  forall (k : Z) (gws : list Gateway) (m : gmap Z Gateway),
    (fill_loop ds k gws m).1 <> Exited.
Proof.
  induction ds as [| d ds IH]; intros k gws m; rewrite fill_loop_unfold;
    destruct (map_len m <? k); try done; unfold Intn; destruct (len gws <=? 0); try done.
  destruct (gws !! Z.to_nat (d mod len gws)); [apply IH | done].
Qed.

Lemma sampleGateways_no_exit (min max : Z) (gateways : list Gateway) (ds : list Z) :
  (sampleGateways min max gateways ds).1 <> Exited.
Proof.
  unfold sampleGateways, Intn. destruct (_ <=? 0); [done |].
  destruct ds as [| r ds]; [done |]. apply fill_loop_no_exit.
Qed.

(** The gateway loop always returns, and its error is the wrapped refusal. *)
Lemma newGateways_error (E : Env) (ids : list EUI64) :
  forall acc s w,
    exists r, outcome_of (newGateways E ids acc s w) = Returned r /\
      forall e, r = inl e -> exists err, e = ErrWrap "new gateway error" err.
Proof.
  induction ids as [| id ids IH]; intros acc s w.
  - by exists (inr acc).
  - cbn [newGateways]. unfold bind at 1. unfold emit.
    destruct (simulator_NewGateway E id (length acc)) as [err |]; [| apply IH].
    eexists. split; [reflexivity |]. intros e [= <-]. by exists err.
Qed.

(** The device loop never exits the process, and its error is the wrapped
    refusal. *)
Lemma newDevices_error (E : Env) (s0 : simulation) (c : Ctx) (gateways : list Gateway)
    (entries : list (EUI64 * AES128Key)) :
  forall made s w o s' w',
    newDevices E s0 c gateways entries made s w = (o, s', w') ->
    o <> Exited /\
    forall e, o = Returned (inl e) -> exists err, e = ErrWrap "new device error" err.
Proof.
  induction entries as [| [devEUI appKey] entries IH]; intros made s w o s' w' Hrun.
  { by injection Hrun as <- <- <-. }
  cbn [newDevices] in Hrun. unfold bind at 1 in Hrun. unfold draw at 1 in Hrun.
  pose proof (sampleGateways_no_exit (gatewayMinCount s0) (gatewayMaxCount s0) gateways
                (draws w)) as Hs.
  destruct (sampleGateways _ _ gateways (draws w)) as [[m | | p |] ds1];
    [| done | by injection Hrun as <- <- <- ..].
  unfold bind at 1 in Hrun. unfold range_over at 1 in Hrun. simpl in Hrun.
  unfold bind at 1 in Hrun. unfold draw at 1 in Hrun. simpl in Hrun.
  assert (Hi : (Int63n (activationTime s0) ds1).1 <> Exited).
  { unfold Int63n. destruct (_ <=? 0); [done |]. by destruct ds1. }
  destruct (Int63n (activationTime s0) ds1) as [[delay | | p |] ds2];
    [| done | by injection Hrun as <- <- <- ..].
  unfold bind at 1 in Hrun. unfold emit at 1 in Hrun. simpl in Hrun.
  destruct (simulator_NewDevice E devEUI) as [err |]; [| by eapply IH].
  injection Hrun as <- <- <-. split; [done |]. intros e [= <-]. by exists err.
Qed.

Lemma run_tail_rest (s : simulation) (o : Outcome (option error)) (evs rest : list Event) :
  run_tail s o evs rest ->
  Forall (fun ev => ev = SignalNotify \/ exists c, ev = Cancel c) rest.
Proof.
  assert (Hc : forall c, Cancel c = SignalNotify \/ exists c', Cancel c = Cancel c')
    by (intros c; right; eauto).
  destruct o as [[e |] | | p |]; simpl.
  - intros [(err & _ & _ & ->) | (err & _ & ->)]; [done |].
    constructor; [apply Hc | constructor].
  - intros ->. constructor; [by left |]. constructor; [apply Hc | constructor].
  - by intros ->.
  - intros ->. constructor; [apply Hc | constructor].
  - intros [-> | ->]; [done |]. constructor; [by left | constructor].
Qed.

(** What the run phase adds to the trace: the gateways it builds, the devices
    it makes, and what follows the device loop. *)
Lemma runSimulation_events (E : Env) (s : simulation) (w : World) :
  exists gateways entries n evs rest,
    events_since w (runSimulation E s w) =
      Enter F_runSimulation :: (NewGateway <$> take n (gatewayIDs s)) ++ evs ++ rest /\
    Forall (fun ev => ev = SignalNotify \/ exists c, ev = Cancel c) rest /\
    entries ≡ₚ map_to_list (deviceAppKeys s) /\
    devices_made evs `prefix_of` entries /\
    Forall (sampled_from gateways) evs /\
    Forall (fun ev => device_configured s ev /\ exists c o, ev = NewDevice c o) evs /\
    (evs <> [] ->
       gatewayID <$> gateways = gatewayIDs s /\
       addr <$> gateways = seq 0 (length (gatewayIDs s))) /\
    (outcome_of (runSimulation E s w) = Returned None -> devices_made evs = entries) /\
    run_tail s (outcome_of (runSimulation E s w)) evs rest /\
    ((forall err, outcome_of (runSimulation E s w) <>
                    Returned (Some (ErrWrap "new gateway error" err))) ->
     take n (gatewayIDs s) = gatewayIDs s).
Proof.
  destruct (runSimulation E s w) as [[o s'] w'] eqn:Hrun.
  unfold outcome_of. simpl.
  unfold runSimulation in Hrun. unfold bind at 1 in Hrun. unfold enter, emit in Hrun.
  unfold bind at 1 in Hrun. unfold get in Hrun. unfold bind at 1 in Hrun.
  set (w1 := mkWorld (trace w ++ [Enter F_runSimulation]) (draws w) (ranges w)) in Hrun.
  destruct (newGateways_events E (gatewayIDs s) [] s w1) as (n & Htg & _ & _ & Hfull).
  destruct (newGateways_error E (gatewayIDs s) [] s w1) as (r1 & Hr1 & Herr1).
  destruct (newGateways E (gatewayIDs s) [] s w1) as [[o1 s1] w2] eqn:Hgw.
  unfold world_after in Htg. unfold outcome_of in Hr1, Hfull. simpl in Htg, Hr1, Hfull.
  subst o1.
  destruct r1 as [err | gateways].
  { injection Hrun as <- <- <-. destruct (Herr1 err eq_refl) as [cause ->].
    exists [], (map_to_list (deviceAppKeys s)), n, [], [].
    split; [| split; [done | split; [done | split; [apply prefix_nil |]]]].
    - apply events_since_app. unfold world_after. simpl. rewrite Htg. simpl.
      by rewrite app_nil_r, <- app_assoc.
    - split; [done | split; [done | split; [done | split; [done | split]]]].
      + left. by exists cause.
      + intros Hno. by destruct (Hno cause). }
  clear Herr1. specialize (Hfull gateways eq_refl).
  destruct (newGateways_returned E _ _ _ _ _ _ _ Hgw) as [Hids Haddrs].
  simpl in Hids, Haddrs.
  unfold deferred in Hrun. unfold bind at 1 in Hrun. unfold range_over at 1 in Hrun.
  set (entries := range_order _ (map_to_list (deviceAppKeys s))) in Hrun.
  assert (Hperm : entries ≡ₚ map_to_list (deviceAppKeys s))
    by apply range_order_Permutation.
  unfold bind at 1 in Hrun.
  match type of Hrun with
  | context [newDevices E s ?c gateways entries 0%nat ?s2 ?w2'] =>
      destruct (newDevices E s c gateways entries 0%nat s2 w2') as [[o3 s3] w3] eqn:Hdev
  end.
  destruct (newDevices_error _ _ _ _ _ _ _ _ _ _ _ Hdev) as [Hnx Herr3].
  apply newDevices_events in Hdev as (evs & Ht & Hp & Hs & Hc & Hall).
  simpl in Ht. rewrite Htg in Ht.
  assert (Hshape : forall rest,
            trace w' = trace w3 ++ rest ->
            run_tail s o evs rest ->
            (o = Returned None -> exists made, o3 = Returned (inr made)) ->
            exists gateways entries n evs rest,
              events_since w (o, s', w') =
                Enter F_runSimulation :: (NewGateway <$> take n (gatewayIDs s)) ++ evs ++ rest /\
              Forall (fun ev => ev = SignalNotify \/ exists c, ev = Cancel c) rest /\
              entries ≡ₚ map_to_list (deviceAppKeys s) /\
              devices_made evs `prefix_of` entries /\
              Forall (sampled_from gateways) evs /\
              Forall (fun ev => device_configured s ev /\ exists c o, ev = NewDevice c o) evs /\
              (evs <> [] ->
                 gatewayID <$> gateways = gatewayIDs s /\
                 addr <$> gateways = seq 0 (length (gatewayIDs s))) /\
              (o = Returned None -> devices_made evs = entries) /\
              run_tail s o evs rest /\
              ((forall err, o <> Returned (Some (ErrWrap "new gateway error" err))) ->
               take n (gatewayIDs s) = gatewayIDs s)).
  { intros rest Ht4 Htail Hsucc. exists gateways, entries, n, evs, rest.
    split; [| split; [by eapply run_tail_rest | split; [done | split; [done |]]]].
    - apply events_since_app. unfold world_after. simpl. rewrite Ht4, Ht. simpl.
      by rewrite <- !app_assoc.
    - split; [done | split].
      + eapply Forall_impl; [exact Hc |]. intros ev [Hcf [o' ->]]. split; [done | eauto].
      + split; [done | split; [| done]]. intros Ho.
        destruct (Hsucc Ho) as [made Hmade]. by destruct (Hall made Hmade). }
  clear Hfull.
  destruct o3 as [[err | made] | | p |]; simpl in Hrun.
  - injection Hrun as <- <- <-. destruct (Herr3 err eq_refl) as [cause ->].
    eapply (Hshape [Cancel _]); [reflexivity | | discriminate].
    right. by exists cause.
  - unfold bind, wait_devices, ret, stop in Hrun.
    destruct made as [| made]; [| destruct (devices_stop E)]; simpl in Hrun;
      injection Hrun as <- <- <-.
    + eapply (Hshape [SignalNotify; Cancel _]);
        [simpl; by rewrite <- app_assoc | done | eauto].
    + eapply (Hshape [SignalNotify; Cancel _]);
        [simpl; by rewrite <- app_assoc | done | eauto].
    + eapply (Hshape [SignalNotify]); [reflexivity | by right | discriminate].
  - done.
  - injection Hrun as <- <- <-.
    eapply (Hshape [Cancel _]); [reflexivity | done | discriminate].
  - injection Hrun as <- <- <-.
    eapply (Hshape []); [by rewrite app_nil_r | by left | discriminate].
Qed.

Lemma devices_made_rest (rest : list Event) :
  Forall (fun ev => ev = SignalNotify \/ exists c, ev = Cancel c) rest ->
  devices_made rest = [].
Proof.
  induction 1 as [| ev rest [-> | [c ->]] _ IH]; simpl; done.
Qed.

(** X11. The run phase constructs a device at most once per entry of
    [deviceAppKeys]: no identity is used twice, every device is given the root
    key that [deviceAppKeys] holds for its identity, and when the run phase
    returns [nil] a device was made for every entry. *)
Theorem run_makes_each_provisioned_device_once (E : Env) (s : simulation) (w : World) :
  let made := devices_made (events_since w (runSimulation E s w)) in
  NoDup made.*1 /\
  (forall devEUI appKey, (devEUI, appKey) ∈ made -> deviceAppKeys s !! devEUI = Some appKey) /\
  (outcome_of (runSimulation E s w) = Returned None ->
     made ≡ₚ map_to_list (deviceAppKeys s)).
Proof.
  intros made. subst made.
  destruct (runSimulation_events E s w)
    as (gateways & entries & n & evs & rest & -> & Hrest & Hperm & Hp & _ & _ & _ & Hall & _).
  simpl. rewrite !devices_made_app, devices_made_NewGateway, (devices_made_rest rest Hrest).
  simpl. rewrite app_nil_r.
  destruct Hp as [later Hentries].
  assert (Hnd : NoDup entries.*1) by (rewrite Hperm; apply NoDup_fst_map_to_list).
  split; [| split].
  - rewrite Hentries, fmap_app in Hnd. by apply NoDup_app in Hnd as [Hnd _].
  - intros devEUI appKey Hin. apply elem_of_map_to_list. rewrite <- Hperm, Hentries.
    apply elem_of_app. by left.
  - intros Hret. by rewrite (Hall Hret).
Qed.

(** In a pool built position by position, the gateways at distinct indices
    are distinct objects that carry the identities of those positions. *)
Lemma sampled_gateways_distinct (gateways : list Gateway) (ids : list EUI64) :
  gatewayID <$> gateways = ids ->
  addr <$> gateways = seq 0 (length ids) ->
  forall (idxs : list Z) (gws : list Gateway),
    (Some <$> gws) = ((fun n => gateways !! Z.to_nat n) <$> idxs) ->
    addr <$> gws = Z.to_nat <$> idxs /\
    Forall (fun g => ids !! addr g = Some (gatewayID g)) gws.
Proof.
  intros Hids Haddrs.
  induction idxs as [| n idxs IH]; intros [| g gws] Heq; try discriminate; [done |].
  simpl in Heq. injection Heq as Hg Heq. symmetry in Hg.
  destruct (IH gws Heq) as [Hrest Hall].
  assert (Ha : (addr <$> gateways) !! Z.to_nat n = Some (addr g))
    by (by rewrite list_lookup_fmap, Hg).
  rewrite Haddrs in Ha. apply lookup_seq in Ha as [Ha _]. simpl in Ha.
  split.
  - by rewrite !fmap_cons, Ha, Hrest.
  - constructor; [| done]. rewrite Ha, <- Hids, list_lookup_fmap, Hg. done.
Qed.

(** X12. Every device the run phase constructs is handed gateway objects
    that are pairwise distinct and were each built, in this run phase, from
    the identity [gatewayIDs] holds at the object's position; the other
    settings of the device (uplink interval, port, payload, and frequency,
    bandwidth and spreading factor reduced to 32 bits, unconfirmed uplinks) are
    those of the simulation. *)
Theorem devices_get_distinct_gateways_of_the_pool (E : Env) (s : simulation) (w : World) :
  Forall (device_gateways_ok s) (events_since w (runSimulation E s w)) /\
  Forall (device_configured s) (events_since w (runSimulation E s w)).
Proof.
  destruct (runSimulation_events E s w)
    as (gateways & entries & n & evs & rest & -> & Hrest & _ & _ & Hs & Hc & Hpool & _).
  assert (Hgw : forall P : Event -> Prop,
            (forall id, P (NewGateway id)) -> Forall P (NewGateway <$> take n (gatewayIDs s))).
  { intros P HP. apply Forall_fmap, Forall_forall. intros id _. apply HP. }
  split.
  - constructor; [done |]. apply Forall_app. split; [by apply Hgw |].
    apply Forall_app. split.
    + destruct evs as [| ev0 evs0]; [done |].
      destruct Hpool as [Hids Haddrs]; [done |].
      eapply Forall_impl; [exact Hs |]. intros [] Hev; try done.
      destruct Hev as (idxs & Hnd & Hpos & Heq).
      destruct (sampled_gateways_distinct gateways (gatewayIDs s) Hids Haddrs idxs _ Heq)
        as [Ha Hall].
      split; [| done]. rewrite Ha.
      apply NoDup_fmap_2_strong; [| done].
      intros x y Hx Hy Hxy.
      eapply Forall_forall in Hx; [| exact Hpos]. eapply Forall_forall in Hy; [| exact Hpos].
      simpl in Hx, Hy. lia.
    + eapply Forall_impl; [exact Hrest |]. by intros ev [-> | [c ->]].
  - constructor; [done |]. apply Forall_app. split; [by apply Hgw |].
    apply Forall_app. split; [eapply Forall_impl; [exact Hc |]; by intros ev [? _] |].
    eapply Forall_impl; [exact Hrest |]. by intros ev [-> | [c ->]].
Qed.

(** ** Tear-down *)

(** The loop of [tearDownDevices]: a delete per identity, up to the first that
    is refused. *)
Lemma tearDownDevices_loop_deletes (E : Env) (ks : list EUI64) :
  forall s w,
    (Forall (deletable E) ks /\
     tearDownDevices_loop E ks s w =
       (Returned None, s, mkWorld (trace w ++ (delete_call <$> ks)) (draws w) (ranges w))) \/
    (exists deleted k later err,
       ks = deleted ++ k :: later /\ Forall (deletable E) deleted /\
       as_Device_Delete E (EUI64_String k) = Some err /\
       tearDownDevices_loop E ks s w =
         (Returned (Some (ErrWrap "delete device error" err)), s,
          mkWorld (trace w ++ (delete_call <$> deleted ++ [k])) (draws w) (ranges w))).
Proof.
  induction ks as [| k ks IH]; intros s w.
  - left. split; [done |]. simpl. rewrite app_nil_r. by destruct w.
  - destruct (as_Device_Delete E (EUI64_String k)) as [err |] eqn:Hk.
    + right. exists [], k, ks, err.
      split; [done | split; [done | split; [done |]]].
      cbn [tearDownDevices_loop]. unfold bind, emit. by rewrite Hk.
    + destruct (IH s (mkWorld (trace w ++ [delete_call k]) (draws w) (ranges w)))
        as [[Hall Hrun] | (deleted & k' & later & err & Hks & Hall & Herr & Hrun)].
      * left. split; [by constructor |].
        cbn [tearDownDevices_loop]. unfold bind, emit. rewrite Hk.
        unfold delete_call in *. rewrite Hrun. simpl. by rewrite <- app_assoc.
      * right. exists (k :: deleted), k', later, err.
        split; [by rewrite Hks | split; [by constructor | split; [done |]]].
        cbn [tearDownDevices_loop]. unfold bind, emit. rewrite Hk.
        unfold delete_call in *. rewrite Hrun. simpl. by rewrite <- app_assoc.
Qed.

(** X13. [tearDownDevices] asks the management API to delete the devices of
    [deviceAppKeys], each identity once, in the order the range over the map
    delivers them. It returns [nil] when every delete was accepted; at the
    first refused delete it returns that error wrapped as "delete device
    error", and the identities that come later in the range are left
    provisioned. It always returns, and under the background context. *)
Theorem tearDownDevices_deletes_until_refused (E : Env) (s : simulation) (w : World) :
  exists ks,
    ks ≡ₚ (map_to_list (deviceAppKeys s)).*1 /\
    ((Forall (deletable E) ks /\
      outcome_of (tearDownDevices E s w) = Returned None /\
      events_since w (tearDownDevices E s w) =
        Enter F_tearDownDevices :: (delete_call <$> ks)) \/
     (exists deleted k later err,
        ks = deleted ++ k :: later /\ Forall (deletable E) deleted /\
        as_Device_Delete E (EUI64_String k) = Some err /\
        outcome_of (tearDownDevices E s w) =
          Returned (Some (ErrWrap "delete device error" err)) /\
        events_since w (tearDownDevices E s w) =
          Enter F_tearDownDevices :: (delete_call <$> deleted ++ [k]))).
Proof.
  set (entries := range_order (range_pick E (ranges w)) (map_to_list (deviceAppKeys s))).
  set (w1 := mkWorld (trace w ++ [Enter F_tearDownDevices]) (draws w) (S (ranges w))).
  assert (Heq : tearDownDevices E s w = tearDownDevices_loop E entries.*1 s w1)
    by reflexivity.
  rewrite Heq.
  exists entries.*1. split; [apply fmap_Permutation, range_order_Permutation |].
  destruct (tearDownDevices_loop_deletes E entries.*1 s w1)
    as [[Hall Hrun] | (deleted & k & later & err & Hks & Hall & Herr & Hrun)];
    rewrite Hrun.
  - left. split; [done | split; [done |]].
    apply events_since_app. simpl. by rewrite <- app_assoc.
  - right. exists deleted, k, later, err.
    split; [done | split; [done | split; [done | split; [done |]]]].
    apply events_since_app. simpl. by rewrite <- app_assoc.
Qed.

(** ** The application integration over the life cycle *)

Lemma no_mqtt_topic_ok (app : string) (evs : list Event) :
  Forall no_mqtt evs -> Forall (topic_ok app) evs.
Proof. intros H. eapply Forall_impl; [exact H |]. by intros []. Qed.

Lemma quiet_setupTenant (E : Env) : quiet (setupTenant E).
Proof.
  intros s w. unfold setupTenant, bind, enter, emit, get, modify, ret, world_after. simpl.
  destruct (as_Tenant_Get E (tenantID s)); simpl;
    eexists [_; _]; (split; [by rewrite <- app_assoc | by repeat constructor]).
Qed.

Lemma quiet_setupGateways : quiet setupGateways.
Proof. intros s w. eexists [_]. split; [reflexivity | by repeat constructor]. Qed.

Lemma quiet_setupDeviceProfile : quiet setupDeviceProfile.
Proof.
  intros s w. unfold setupDeviceProfile.
  generalize (uuid_FromString deviceProfileID_text). intros [dpID [err |]];
    eexists [_]; (split; [reflexivity | by repeat constructor]).
Qed.

Lemma quiet_setupApplication (E : Env) : quiet (setupApplication E).
Proof.
  intros s w. unfold setupApplication, bind, enter, emit, get, modify, ret, world_after.
  simpl. destruct (as_Application_Get E applicationID_text); simpl;
    eexists [_; _]; (split; [by rewrite <- app_assoc | by repeat constructor]).
Qed.

Lemma quiet_setupDevices (E : Env) : quiet (setupDevices E).
Proof.
  intros s w. destruct (step_enters_setupDevices E s w) as (evs & Ht & _).
  exists (Enter F_setupDevices :: evs). split; [exact Ht |]. constructor; [done |].
  revert Ht. unfold setupDevices, bind, enter, emit, world_after. simpl.
  destruct (readDevicesFromCSV (devices_csv E)) as [[devices [err |]] | | p |]; simpl;
    try (intros Ht; apply (f_equal (drop (length (trace w)))) in Ht;
         rewrite !drop_app_length in Ht; by injection Ht as <-).
  match goal with
  | |- context [run E ?a ?sc ?st0] =>
      destruct (run_trace E a sc st0) as (evs' & Ht' & HF); set (st := run E a sc st0) in *
  end.
  simpl in Ht'. rewrite <- app_assoc in Ht'. simpl in Ht'.
  intros Ht.
  assert (Htr : trace w ++ Enter F_setupDevices :: evs' = trace w ++ Enter F_setupDevices :: evs).
  { rewrite <- Ht', <- Ht. destruct (p_exited st); [done |]. by destruct (p_main st). }
  apply app_inv_head in Htr. injection Htr as <-.
  eapply Forall_impl; [exact HF |]. by intros ev [call ->].
Qed.

Lemma steady_setupApplicationIntegration (E : Env) : steady (setupApplicationIntegration E).
Proof.
  intros s w.
  unfold setupApplicationIntegration, bind, enter, emit, get, ret, world_after, sim_after.
  simpl. destruct (mqtt_Subscribe E (uplink_topic (applicationID s))); simpl;
    (split; [done |]); eexists [_; _];
    (split; [by rewrite <- app_assoc | by repeat constructor]).
Qed.

Lemma steady_speaks {A} (m : M A) : steady m -> speaks m.
Proof.
  intros Hm s w. destruct (Hm s w) as (Hs & evs & Ht & HF). exists evs. by rewrite Hs.
Qed.

Lemma steady_ret {A} (a : A) : steady (ret a).
Proof. intros s w. split; [done |]. exists []. by rewrite app_nil_r. Qed.

Lemma speaks_check (m k : M (option error)) : quiet m -> speaks k -> speaks (check m k).
Proof.
  intros Hm Hk s w. destruct (Hm s w) as (evs1 & Ht1 & Hq).
  unfold check, bind, world_after, sim_after in *.
  destruct (m s w) as [[o s1] w1]. simpl in Ht1.
  destruct o as [[err |] | | p |]; simpl;
    try (exists evs1; split; [done | by apply no_mqtt_topic_ok]).
  destruct (Hk s1 w1) as (evs2 & Ht2 & HF2). unfold world_after, sim_after in *.
  destruct (k s1 w1) as [[o2 s2] w2]. simpl in *.
  exists (evs1 ++ evs2). split; [by rewrite Ht2, Ht1, <- app_assoc |].
  apply Forall_app. split; [by apply no_mqtt_topic_ok | done].
Qed.

Lemma steady_check (m k : M (option error)) : steady m -> steady k -> steady (check m k).
Proof.
  intros Hm Hk s w. destruct (Hm s w) as (Hs1 & evs1 & Ht1 & HF1).
  unfold check, bind, world_after, sim_after in *.
  destruct (m s w) as [[o s1] w1]. simpl in Ht1, Hs1. subst s1.
  destruct o as [[err |] | | p |]; simpl; try (split; [done |]; by exists evs1).
  destruct (Hk s w1) as (Hs2 & evs2 & Ht2 & HF2). unfold world_after, sim_after in *.
  destruct (k s w1) as [[o2 s2] w2]. simpl in *. split; [done |].
  exists (evs1 ++ evs2). split; [by rewrite Ht2, Ht1, <- app_assoc |].
  apply Forall_app. by split.
Qed.

Lemma steady_enter {A} (F : Fn) (m : M A) : steady m -> steady (enter F ;; m).
Proof.
  intros Hm s w. unfold bind, enter, emit.
  destruct (Hm s (mkWorld (trace w ++ [Enter F]) (draws w) (ranges w)))
    as (Hs & evs & Ht & HF).
  split; [done |]. exists (Enter F :: evs). split; [| by constructor].
  rewrite Ht. simpl. by rewrite <- app_assoc.
Qed.

Lemma steady_tearDownApplicationIntegration (E : Env) :
  steady (tearDownApplicationIntegration E).
Proof.
  intros s w.
  unfold tearDownApplicationIntegration, bind, enter, emit, get, ret, world_after, sim_after.
  simpl. destruct (mqtt_Unsubscribe E (uplink_topic (applicationID s))); simpl;
    (split; [done |]); eexists [_; _];
    (split; [by rewrite <- app_assoc | by repeat constructor]).
Qed.

Lemma steady_tearDownDevices (E : Env) : steady (tearDownDevices E).
Proof.
  intros s w.
  set (entries := range_order (range_pick E (ranges w)) (map_to_list (deviceAppKeys s))).
  set (w1 := mkWorld (trace w ++ [Enter F_tearDownDevices]) (draws w) (S (ranges w))).
  assert (Heq : tearDownDevices E s w = tearDownDevices_loop E entries.*1 s w1)
    by reflexivity.
  rewrite Heq.
  assert (Hdel : forall ks, Forall (topic_ok (applicationID s)) (delete_call <$> ks))
    by (intros ks; apply Forall_fmap, Forall_forall; by intros k _).
  destruct (tearDownDevices_loop_deletes E entries.*1 s w1)
    as [[_ Hrun] | (deleted & k & later & err & _ & _ & _ & Hrun)];
    rewrite Hrun; (split; [done |]); eexists (Enter F_tearDownDevices :: _);
    (split; [simpl; by rewrite <- app_assoc | constructor; [done | apply Hdel]]).
Qed.

Lemma steady_tearDown (E : Env) : steady (tearDown E).
Proof.
  unfold tearDown. apply steady_enter.
  repeat apply steady_check;
    auto using steady_tearDownApplicationIntegration, steady_tearDownDevices, steady_ret.
  all: apply steady_enter, steady_ret.
Qed.

Lemma steady_runSimulation (E : Env) : steady (runSimulation E).
Proof.
  intros s w.
  destruct (runSimulation_events E s w)
    as (gateways & entries & n & evs & rest & Hev & Hrest & _ & _ & _ & Hc & _ & _).
  destruct (runSimulation E s w) as [[o s'] w'] eqn:Hr.
  destruct (enters_runSimulation E (fun s => s) (settings s) s s w o s' w'
              eq_refl eq_refl Hr) as (_ & Hs & evs' & Ht & _).
  split; [done |]. unfold events_since, world_after in Hev. simpl in Hev |- *.
  rewrite Ht, drop_app_length in Hev. rewrite Ht, Hev.
  eexists. split; [reflexivity |]. constructor; [done |].
  apply Forall_app. split; [apply Forall_fmap, Forall_forall; by intros id _ |].
  apply Forall_app. split.
  - eapply Forall_impl; [exact Hc |]. by intros ev [_ (c & o' & ->)].
  - eapply Forall_impl; [exact Hrest |]. by intros ev [-> | [c ->]].
Qed.

Lemma speaks_init (E : Env) : speaks (init E).
Proof.
  assert (Hbody : speaks
            (check (setupTenant E) (check setupGateways (check setupDeviceProfile
               (check (setupApplication E) (check (setupDevices E)
                  (check (setupApplicationIntegration E) (ret None)))))))).
  { do 5 (apply speaks_check;
            [auto using quiet_setupTenant, quiet_setupGateways, quiet_setupDeviceProfile,
               quiet_setupApplication, quiet_setupDevices |]).
    apply steady_speaks, steady_check;
      [apply steady_setupApplicationIntegration | apply steady_ret]. }
  intros s w. unfold init, bind, enter, emit.
  destruct (Hbody s (mkWorld (trace w ++ [Enter F_init]) (draws w) (ranges w)))
    as (evs & Ht & HF).
  exists (Enter F_init :: evs). split; [| by constructor].
  rewrite Ht. simpl. by rewrite <- app_assoc.
Qed.

Lemma applicationID_for_lt (fuel : nat) :
  forall i n s, applicationID (for_lt fuel i n setupGateways_body s) = applicationID s.
Proof.
  induction fuel as [| fuel IH]; intros i n s; simpl; [done |].
  destruct (i <? n); [| done]. by rewrite IH.
Qed.

Lemma application_from_setupTenant (E : Env) : application_from E (setupTenant E).
Proof.
  intros s w. left. unfold setupTenant, bind, enter, emit, get, modify, ret, sim_after.
  simpl. by destruct (as_Tenant_Get E (tenantID s)).
Qed.

Lemma application_from_setupGateways (E : Env) : application_from E setupGateways.
Proof. intros s w. left. apply applicationID_for_lt. Qed.

Lemma application_from_setupDeviceProfile (E : Env) : application_from E setupDeviceProfile.
Proof.
  intros s w. left. unfold setupDeviceProfile.
  generalize (uuid_FromString deviceProfileID_text). by intros [dpID [err |]].
Qed.

Lemma application_from_setupApplication (E : Env) : application_from E (setupApplication E).
Proof.
  intros s w. unfold setupApplication, bind, enter, emit, get, modify, ret, sim_after.
  simpl. destruct (as_Application_Get E applicationID_text) as [err | id]; simpl;
    [by left | right; by exists id].
Qed.

Lemma application_from_setupDevices (E : Env) : application_from E (setupDevices E).
Proof.
  intros s w. left. unfold setupDevices, bind, enter, emit, sim_after. simpl.
  destruct (readDevicesFromCSV (devices_csv E)) as [[devices [err |]] | | p |]; simpl;
    try done.
  match goal with |- context [run E ?a ?sc ?st0] => set (st := run E a sc st0) end.
  destruct (p_exited st); [done |]. by destruct (p_main st).
Qed.

Lemma application_from_setupApplicationIntegration (E : Env) :
  application_from E (setupApplicationIntegration E).
Proof.
  intros s w. left. by destruct (steady_setupApplicationIntegration E s w) as [-> _].
Qed.

Lemma application_from_check (E : Env) (m k : M (option error)) :
  application_from E m -> application_from E k -> application_from E (check m k).
Proof.
  intros Hm Hk s w. specialize (Hm s w). unfold check, bind, sim_after in *.
  destruct (m s w) as [[o s1] w1]. simpl in Hm.
  destruct o as [[err |] | | p |]; simpl; try done.
  specialize (Hk s1 w1). unfold sim_after in Hk.
  destruct (k s1 w1) as [[o2 s2] w2]. simpl in *.
  destruct Hk as [-> | Hid]; [done | by right].
Qed.

Lemma speaks_logged (msg : string) (m : M (option error)) : speaks m -> speaks (logged msg m).
Proof.
  intros Hm s w. destruct (Hm s w) as (evs & Ht & HF).
  unfold logged, bind, emit, ret, world_after, sim_after in *.
  destruct (m s w) as [[[[err |] | | p |] s1] w1]; simpl in *; try by exists evs.
  exists (evs ++ [LogError msg err]). split; [by rewrite Ht, <- app_assoc |].
  apply Forall_app. split; [done | by repeat constructor].
Qed.

Lemma steady_logged (msg : string) (m : M (option error)) : steady m -> steady (logged msg m).
Proof.
  intros Hm s w. destruct (Hm s w) as (Hs & evs & Ht & HF).
  unfold logged, bind, emit, ret, world_after, sim_after in *.
  destruct (m s w) as [[[[err |] | | p |] s1] w1]; simpl in *;
    (split; [done |]); try by exists evs.
  exists (evs ++ [LogError msg err]). split; [by rewrite Ht, <- app_assoc |].
  apply Forall_app. split; [done | by repeat constructor].
Qed.

(** X14. Over a whole life cycle the broker is only ever asked about one
    topic: every subscription (at quality of service 0) and every removal of
    a subscription names the uplink topic of the application identity that
    set-up left in the simulation. So tear-down removes the subscription
    that set-up made; and when set-up ended before the application was
    resolved, tear-down still asks to remove the topic of the identity left
    there, although nothing was subscribed. *)
Theorem life_cycle_uses_one_uplink_topic (E : Env) (s : simulation) (w : World) :
  Forall (topic_ok (applicationID (sim_after (init E s w)))) (events_since w (start E s w)) /\
  Forall no_mqtt (events_since w (runSimulation E s w)) /\
  (applicationID (sim_after (init E s w)) = applicationID s \/
   exists id, as_Application_Get E applicationID_text = inr id /\
              applicationID (sim_after (init E s w)) = id).
Proof.
  split; [| split].
  - assert (Hlog : sim_after (logged "simulator: init simulation error" (init E) s w) =
                   sim_after (init E s w)).
    { unfold logged, bind, sim_after.
      by destruct (init E s w) as [[[[err |] | | p |] s'] w']. }
    rewrite start_unfold. rewrite <- Hlog.
    destruct (speaks_logged "simulator: init simulation error" (init E) (speaks_init E) s w)
      as (evs1 & Ht1 & HF1).
    set (r1 := logged "simulator: init simulation error" (init E) s w) in *.
    destruct (steady_logged "simulator: simulation error" (runSimulation E)
                (steady_runSimulation E) (sim_after r1) (world_after r1))
      as (Hs2 & evs2 & Ht2 & HF2).
    set (r2 := logged "simulator: simulation error" (runSimulation E)
                 (sim_after r1) (world_after r1)) in *.
    destruct (steady_logged "simulator: tear-down simulation error" (tearDown E)
                (steady_tearDown E) (sim_after r2) (world_after r2))
      as (Hs3 & evs3 & Ht3 & HF3).
    set (r3 := logged "simulator: tear-down simulation error" (tearDown E)
                 (sim_after r2) (world_after r2)) in *.
    rewrite Hs2 in HF3.
    assert (H12 : Forall (topic_ok (applicationID (sim_after r1))) (evs1 ++ evs2))
      by (apply Forall_app; by split).
    assert (H123 : Forall (topic_ok (applicationID (sim_after r1))) ((evs1 ++ evs2) ++ evs3))
      by (apply Forall_app; by split).
    assert (Ht12 : trace (world_after r2) = trace w ++ evs1 ++ evs2)
      by (by rewrite Ht2, Ht1, <- app_assoc).
    assert (Ht123 : trace (world_after r3) = trace w ++ (evs1 ++ evs2) ++ evs3)
      by (by rewrite Ht3, Ht12, <- !app_assoc).
    destruct (outcome_of r1) as [[] | | p1 |].
    2-4: by rewrite (events_since_app w r1 evs1 Ht1).
    destruct (outcome_of r2) as [[] | | p2 |].
    2-4: by rewrite (events_since_app w r2 (evs1 ++ evs2) Ht12).
    destruct (outcome_of r3) as [[] | | p3 |].
    2-4: by rewrite (events_since_app w r3 _ Ht123).
    erewrite events_since_app; [| simpl; rewrite Ht123, <- !app_assoc; reflexivity].
    rewrite !app_assoc. apply Forall_app. split; [done | by repeat constructor].
  - destruct (steady_runSimulation E s w) as (_ & evs & Ht & _).
    destruct (runSimulation_events E s w)
      as (gateways & entries & n & evs' & rest & -> & Hrest & _ & _ & _ & Hc & _ & _).
    constructor; [done |].
    apply Forall_app. split; [apply Forall_fmap, Forall_forall; by intros id _ |].
    apply Forall_app. split.
    + eapply Forall_impl; [exact Hc |]. by intros ev [_ (c & o' & ->)].
    + eapply Forall_impl; [exact Hrest |]. by intros ev [-> | [c ->]].
  - assert (Hbody : application_from E
              (check (setupTenant E) (check setupGateways (check setupDeviceProfile
                 (check (setupApplication E) (check (setupDevices E)
                    (check (setupApplicationIntegration E) (ret None)))))))).
    { repeat apply application_from_check;
        auto using application_from_setupTenant, application_from_setupGateways,
          application_from_setupDeviceProfile, application_from_setupApplication,
          application_from_setupDevices, application_from_setupApplicationIntegration.
      intros s0 w0. by left. }
    exact (Hbody s (mkWorld (trace w ++ [Enter F_init]) (draws w) (ranges w))).
Qed.

(** ** The provisioning goroutines under any schedule *)

(** A statement of a task keeps the invariant, given what it does to the task,
    the counter, the mutex and the map. *)
Lemma SyncInv_task_update (E : Env) (devices : list Device) (keys0 : gmap EUI64 AES128Key)
    (st : PState) (i : nat) (t t' : Task) (wg' : Z) (mutex' : bool)
    (keys' : gmap EUI64 AES128Key) (tr' : list Event) :
  SyncInv E devices keys0 st ->
  p_tasks st !! i = Some t ->
  t_dev t' = t_dev t ->
  t_pc t <> T_finished ->
  wg' = p_wg st - task_counts t + task_counts t' ->
  (t_pc t' <> T_start ->
     t_devEUI t' = parse_devEUI (t_dev t') /\
     rand_Read 16 (rand_entropy E i) = inr (t_appKey t')) ->
  (inserted (t_pc t) = true ->
     inserted (t_pc t') = true /\ t_devEUI t' = t_devEUI t /\ t_appKey t' = t_appKey t) ->
  ((keys' = p_keys st /\ inserted (t_pc t') = inserted (t_pc t)) \/
   (keys' = <[t_devEUI t' := t_appKey t']> (p_keys st) /\ inserted (t_pc t') = true /\
    t_pc t' <> T_start)) ->
  ((in_critical_section (t_pc t') = in_critical_section (t_pc t) /\ mutex' = p_mutex st) \/
   (in_critical_section (t_pc t) = false /\ in_critical_section (t_pc t') = true /\
    p_mutex st = false /\ mutex' = true) \/
   (in_critical_section (t_pc t) = true /\ in_critical_section (t_pc t') = false /\
    mutex' = false)) ->
  SyncInv E devices keys0
    (mkPState (p_main st) (<[i := t']> (p_tasks st)) wg' mutex' keys' tr' (p_exited st)).
Proof.
  intros Hinv Hi Hdev Hlive Hwg Hstart Hkeep Hkeys Hmutex.
  pose proof (lookup_lt_Some _ _ _ Hi) as Hlt.
  assert (Hlook : forall j tj, <[i := t']> (p_tasks st) !! j = Some tj ->
            (j = i /\ tj = t') \/ (j <> i /\ p_tasks st !! j = Some tj)).
  { intros j tj Hj. destruct (decide (j = i)) as [-> | Hne].
    - rewrite list_lookup_insert_eq in Hj by done. left. by injection Hj as <-.
    - rewrite list_lookup_insert_ne in Hj by done. by right. }
  assert (Hnew : <[i := t']> (p_tasks st) !! i = Some t')
    by (by rewrite list_lookup_insert_eq).
  assert (Hback : forall j tj, j <> i -> p_tasks st !! j = Some tj ->
            <[i := t']> (p_tasks st) !! j = Some tj)
    by (intros j tj Hne Hj; by rewrite list_lookup_insert_ne).
  assert (Hheld : forall j tj, p_tasks st !! j = Some tj ->
            in_critical_section (t_pc tj) = true -> p_mutex st = true)
    by (intros j tj Hj Hc; apply (sync_holder _ _ _ _ Hinv); eauto).
  constructor; simpl.
  - rewrite (fmap_insert_same_dev _ _ t) by done. apply (sync_devices _ _ _ _ Hinv).
  - rewrite (live_insert _ _ t) by done. rewrite Hwg, (sync_wg _ _ _ _ Hinv). lia.
  - intros Hret. exfalso. apply Hlive.
    pose proof (sync_returned _ _ _ _ Hinv Hret) as H0.
    rewrite (sync_wg _ _ _ _ Hinv), Hret in H0. simpl in H0.
    assert (Hz : live (p_tasks st) = 0) by lia.
    apply live_zero in Hz. eapply Forall_lookup_1 in Hz; [| exact Hi]. done.
  - intros j tj Hj Hpc. destruct (Hlook j tj Hj) as [[-> ->] | [Hne Hj']].
    + by apply Hstart.
    + by apply (sync_started _ _ _ _ Hinv).
  - intros j tj Hj Hins. destruct (Hlook j tj Hj) as [[-> ->] | [Hne Hj']].
    + destruct Hkeys as [[-> Heq] | [-> _]]; [| by rewrite lookup_insert_eq].
      rewrite Heq in Hins. destruct (Hkeep Hins) as (_ & -> & _).
      by apply (sync_stored _ _ _ _ Hinv i).
    + pose proof (sync_stored _ _ _ _ Hinv j tj Hj' Hins) as Hold.
      destruct Hkeys as [[-> _] | [-> _]]; [done |].
      apply lookup_insert_is_Some.
      destruct (decide (t_devEUI t' = t_devEUI tj)); [by left | by right].
  - intros k Hk. pose proof (sync_kept _ _ _ _ Hinv k Hk) as Hold.
    destruct Hkeys as [[-> _] | [-> _]]; [done |].
    apply lookup_insert_is_Some. destruct (decide (t_devEUI t' = k)); [by left | by right].
  - intros k v Hk.
    assert (Hold : p_keys st !! k = Some v ->
              keys0 !! k = Some v \/
              exists j tj, <[i := t']> (p_tasks st) !! j = Some tj /\
                           inserted (t_pc tj) = true /\ t_devEUI tj = k /\ t_appKey tj = v).
    { intros Hk0. destruct (sync_nothing_else _ _ _ _ Hinv k v Hk0)
        as [H0 | (j & tj & Hj & Hins & Heui & Hkey)]; [by left | right].
      destruct (decide (j = i)) as [-> | Hne].
      - rewrite Hi in Hj. injection Hj as <-.
        destruct (Hkeep Hins) as (Hins' & Heui' & Hkey').
        exists i, t'. repeat split; congruence.
      - exists j, tj. auto. }
    destruct Hkeys as [[-> _] | [-> [Hins' _]]]; [by apply Hold |].
    destruct (decide (t_devEUI t' = k)) as [<- | Hne].
    + rewrite lookup_insert_eq in Hk. injection Hk as <-. right. by exists i, t'.
    + rewrite lookup_insert_ne in Hk by done. by apply Hold.
  - intros j1 j2 t1 t2 H1 H2 Hc1 Hc2.
    destruct (Hlook j1 t1 H1) as [[-> ->] | [Hne1 H1']],
             (Hlook j2 t2 H2) as [[-> ->] | [Hne2 H2']]; [done | | |].
    + exfalso.
      destruct Hmutex as [[Heq _] | [(_ & _ & Hfree & _) | (_ & Hcs' & _)]].
      * rewrite Heq in Hc1. apply Hne2. symmetry.
        by apply (sync_excl _ _ _ _ Hinv i j2 t t2).
      * pose proof (Hheld j2 t2 H2' Hc2). congruence.
      * congruence.
    + exfalso.
      destruct Hmutex as [[Heq _] | [(_ & _ & Hfree & _) | (_ & Hcs' & _)]].
      * rewrite Heq in Hc2. apply Hne1.
        by apply (sync_excl _ _ _ _ Hinv j1 i t1 t).
      * pose proof (Hheld j1 t1 H1' Hc1). congruence.
      * congruence.
    + by apply (sync_excl _ _ _ _ Hinv j1 j2 t1 t2).
  - destruct Hmutex as [[Heq ->] | [(_ & Hcs' & _ & ->) | (Hcs & Hcs' & ->)]].
    + rewrite (sync_holder _ _ _ _ Hinv). split.
      * intros (j & tj & Hj & Hc). destruct (decide (j = i)) as [-> | Hne].
        -- rewrite Hi in Hj. injection Hj as <-. exists i, t'. by rewrite Heq.
        -- exists j, tj. auto.
      * intros (j & tj & Hj & Hc). destruct (Hlook j tj Hj) as [[-> ->] | [Hne Hj']].
        -- exists i, t. by rewrite <- Heq.
        -- by exists j, tj.
    + split; [| done]. intros _. by exists i, t'.
    + split; [done |]. intros (j & tj & Hj & Hc).
      destruct (Hlook j tj Hj) as [[-> ->] | [Hne Hj']]; [congruence |].
      exfalso. apply Hne. by apply (sync_excl _ _ _ _ Hinv j i tj t).
Qed.

Lemma SyncInv_trace (E : Env) (devices : list Device) (keys0 : gmap EUI64 AES128Key)
    (st : PState) (tr : list Event) (ex : bool) :
  SyncInv E devices keys0 st ->
  SyncInv E devices keys0
    (mkPState (p_main st) (p_tasks st) (p_wg st) (p_mutex st) (p_keys st) tr ex).
Proof. intros []. by constructor. Qed.

Lemma task_step_sync (E : Env) (appID : string) (devices : list Device)
    (keys0 : gmap EUI64 AES128Key) (st st' : PState) (i : nat) (t : Task) :
  SyncInv E devices keys0 st ->
  p_tasks st !! i = Some t ->
  task_step E appID i t st = Some st' ->
  SyncInv E devices keys0 st'.
Proof.
  intros Hinv Hi Hstep. unfold task_step in Hstep.
  assert (Hold : t_pc t <> T_start ->
            t_devEUI t = parse_devEUI (t_dev t) /\
            rand_Read 16 (rand_entropy E i) = inr (t_appKey t))
    by (by apply (sync_started _ _ _ _ Hinv)).
  destruct (t_pc t) eqn:Hpc.
  - destruct (rand_Read 16 (rand_entropy E i)) as [err | appKey] eqn:Hrand;
      injection Hstep as <-; [by apply SyncInv_trace |].
    apply (SyncInv_task_update E devices keys0 st i t); task_update_tac Hpc.
  - destruct (as_Device_Create E i); injection Hstep as <-;
      [by apply (SyncInv_trace E devices keys0 st) |].
    apply (SyncInv_task_update E devices keys0 st i t); task_update_tac Hpc.
  - destruct (as_Device_CreateKeys E i); injection Hstep as <-;
      [by apply (SyncInv_trace E devices keys0 st) |].
    apply (SyncInv_task_update E devices keys0 st i t); task_update_tac Hpc.
  - destruct (p_mutex st) eqn:Hm; [discriminate |]. injection Hstep as <-.
    apply (SyncInv_task_update E devices keys0 st i t); task_update_tac Hpc.
  - injection Hstep as <-.
    apply (SyncInv_task_update E devices keys0 st i t); task_update_tac Hpc.
  - injection Hstep as <-.
    apply (SyncInv_task_update E devices keys0 st i t); task_update_tac Hpc.
  - injection Hstep as <-.
    apply (SyncInv_task_update E devices keys0 st i t); task_update_tac Hpc.
  - discriminate.
Qed.

Lemma main_step_sync (E : Env) (devices : list Device) (keys0 : gmap EUI64 AES128Key)
    (st st' : PState) :
  SyncInv E devices keys0 st ->
  main_step st = Some st' ->
  SyncInv E devices keys0 st'.
Proof.
  intros Hinv Hstep. unfold main_step in Hstep.
  destruct (p_main st) as [[| dev rest] | dev rest | |] eqn:Hmain.
  - injection Hstep as <-. destruct Hinv. rewrite Hmain in *.
    constructor; simpl; auto. done.
  - injection Hstep as <-. destruct Hinv. rewrite Hmain in *.
    constructor; simpl in *; auto; [lia | done].
  - injection Hstep as <-.
    assert (Hfresh : forall j tj,
              (p_tasks st ++ [mkTask dev T_start EUI64_zero AES128Key_zero]) !! j = Some tj ->
              p_tasks st !! j = Some tj \/ t_pc tj = T_start).
    { intros j tj Hj. apply lookup_app_Some in Hj as [Hj | [_ Hj]]; [by left | right].
      apply list_lookup_singleton_Some in Hj as [_ <-]. done. }
    destruct Hinv. rewrite Hmain in *. constructor; simpl in *.
    + by rewrite fmap_app, <- app_assoc.
    + rewrite live_app. unfold live at 2. simpl. unfold task_counts. simpl. lia.
    + done.
    + intros j tj Hj Hpc. destruct (Hfresh j tj Hj) as [Hj' | Hs]; [eauto | done].
    + intros j tj Hj Hins. destruct (Hfresh j tj Hj) as [Hj' | Hs]; [eauto |].
      by rewrite Hs in Hins.
    + done.
    + intros k v Hk. destruct (sync_nothing_else0 k v Hk)
        as [H0 | (j & tj & Hj & Hrest)]; [by left | right].
      exists j, tj. split; [| done]. by apply lookup_app_l_Some.
    + intros j1 j2 t1 t2 H1 H2 Hc1 Hc2.
      destruct (Hfresh j1 t1 H1) as [H1' | Hs]; [| by rewrite Hs in Hc1].
      destruct (Hfresh j2 t2 H2) as [H2' | Hs]; [| by rewrite Hs in Hc2].
      by apply (sync_excl0 j1 j2 t1 t2).
    + rewrite sync_holder0. split.
      * intros (j & tj & Hj & Hc). exists j, tj. split; [| done].
        by apply lookup_app_l_Some.
      * intros (j & tj & Hj & Hc).
        destruct (Hfresh j tj Hj) as [Hj' | Hs]; [eauto | by rewrite Hs in Hc].
  - destruct (p_wg st =? 0) eqn:Hz; [| discriminate]. injection Hstep as <-.
    apply Z.eqb_eq in Hz. destruct Hinv. rewrite Hmain in *.
    constructor; simpl in *; auto.
  - discriminate.
Qed.

Lemma pstep_sync (E : Env) (appID : string) (devices : list Device)
    (keys0 : gmap EUI64 AES128Key) (c : nat) (st st' : PState) :
  SyncInv E devices keys0 st ->
  pstep E appID c st = Some st' ->
  SyncInv E devices keys0 st'.
Proof.
  intros Hinv Hstep. unfold pstep in Hstep.
  destruct (p_exited st); [discriminate |].
  destruct c as [| i]; [by eapply main_step_sync |].
  destruct (p_tasks st !! i) as [t |] eqn:Hi; [| discriminate].
  by eapply task_step_sync.
Qed.

Lemma run_sync (E : Env) (appID : string) (devices : list Device)
    (keys0 : gmap EUI64 AES128Key) (sched : list nat) :
  forall st, SyncInv E devices keys0 st -> SyncInv E devices keys0 (run E appID sched st).
Proof.
  induction sched as [| c sched IH]; intros st Hinv; simpl; [done |].
  apply IH. destruct (pstep E appID c st) as [st1 |] eqn:Hstep; simpl; [| done].
  by eapply pstep_sync.
Qed.

Lemma provision_init_sync (E : Env) (devices : list Device) (keys0 : gmap EUI64 AES128Key)
    (tr : list Event) :
  SyncInv E devices keys0 (provision_init devices keys0 tr).
Proof.
  constructor; simpl; try done.
  - intros k v Hk. by left.
  - split; [done |]. by intros (i & t & Hi & _).
Qed.

(** X15. Mutual exclusion on [deviceAppKeys]. Whatever the device list and
    however the scheduler interleaves the goroutines of [setupDevices], at most
    one task is between [deviceAppKeysMutex.Lock()] and [Unlock()] at any
    time, and the mutex is held exactly when one is; so the writes to the map
    never overlap. *)
Theorem provisioning_mutual_exclusion (E : Env) (appID : string) (devices : list Device)
    (keys0 : gmap EUI64 AES128Key) (tr : list Event) (sched : list nat) :
  let st := run E appID sched (provision_init devices keys0 tr) in
  (forall i j ti tj,
     p_tasks st !! i = Some ti -> p_tasks st !! j = Some tj ->
     in_critical_section (t_pc ti) = true -> in_critical_section (t_pc tj) = true ->
     i = j) /\
  (p_mutex st = true <->
   exists i t, p_tasks st !! i = Some t /\ in_critical_section (t_pc t) = true).
Proof.
  intros st.
  assert (Hinv : SyncInv E devices keys0 st) by apply run_sync, provision_init_sync.
  split; [apply (sync_excl _ _ _ _ Hinv) | apply (sync_holder _ _ _ _ Hinv)].
Qed.

Lemma live_pos (tasks : list Task) :
  live tasks <> 0 -> exists i t, tasks !! i = Some t /\ t_pc t <> T_finished.
Proof.
  induction tasks as [| t tasks IH]; intros Hl; [done |].
  destruct (decide (t_pc t = T_finished)) as [Hf | Hf].
  - destruct IH as (i & t' & Hi & Hpc).
    { intros Hz. apply Hl. change (live (t :: tasks)) with (task_counts t + live tasks).
      unfold task_counts at 1. rewrite Hf. lia. }
    by exists (S i), t'.
  - by exists 0%nat, t.
Qed.

(** X16. The provisioning cannot deadlock, and its WaitGroup is used
    correctly. In every state the goroutines of [setupDevices] can reach, the
    counter of the WaitGroup is the number of tasks that have not yet called
    [Done] (plus one while a task is about to be spawned), hence never
    negative; and unless the process has exited or [wg.Wait()] has returned,
    some goroutine can take a step: a task blocked on the mutex always finds
    the holder able to release it. *)
Theorem provisioning_never_deadlocks (E : Env) (appID : string) (devices : list Device)
    (keys0 : gmap EUI64 AES128Key) (tr : list Event) (sched : list nat) :
  let st := run E appID sched (provision_init devices keys0 tr) in
  p_wg st = live (p_tasks st) + pending_go (p_main st) /\
  0 <= p_wg st /\
  (p_exited st = true \/ p_main st = M_returned \/
   exists c st', pstep E appID c st = Some st').
Proof.
  intros st.
  assert (Hinv : SyncInv E devices keys0 st) by apply run_sync, provision_init_sync.
  pose proof (sync_wg _ _ _ _ Hinv) as Hwg.
  split; [done |]. split.
  { rewrite Hwg. pose proof (live_nonneg (p_tasks st)). destruct (p_main st); simpl; lia. }
  destruct (p_exited st) eqn:Hex; [by left |]. right.
  unfold pstep. rewrite Hex.
  destruct (p_main st) as [[| dev rest] | dev rest | |] eqn:Hmain; [| | | | by left]; right.
  - exists 0%nat. unfold main_step. rewrite Hmain. eauto.
  - exists 0%nat. unfold main_step. rewrite Hmain. eauto.
  - exists 0%nat. unfold main_step. rewrite Hmain. eauto.
  - destruct (p_wg st =? 0) eqn:Hz.
    { exists 0%nat. unfold main_step. rewrite Hmain, Hz. eauto. }
    apply Z.eqb_neq in Hz. simpl in Hwg.
    destruct (live_pos (p_tasks st)) as (i & t & Hi & Hpc); [lia |].
    destruct (p_mutex st) eqn:Hm.
    + apply (sync_holder _ _ _ _ Hinv) in Hm as (j & tj & Hj & Hc).
      exists (S j). rewrite Hj. unfold task_step.
      destruct (t_pc tj); try discriminate; eauto.
    + exists (S i). rewrite Hi. unfold task_step.
      destruct (t_pc t); try done; try rewrite Hm; eauto.
      * destruct (rand_Read 16 (rand_entropy E i)); eauto.
      * destruct (as_Device_Create E i); eauto.
      * destruct (as_Device_CreateKeys E i); eauto.
Qed.

(** A text that is not an identity leaves the zero identity. *)
Lemma parse_devEUI_unparsed (dev : Device) :
  (EUI64_UnmarshalText EUI64_zero (DevEui dev)).2 <> None ->
  parse_devEUI dev = EUI64_zero.
Proof.
  unfold parse_devEUI, EUI64_UnmarshalText.
  destruct (hex.DecodeString (DevEui dev)) as [b [err |]]; [done |].
  by destruct (len EUI64_zero =? len b).
Qed.

(** X17. What [setupDevices] leaves in [deviceAppKeys], for any device list.
    When it returns, the identities in the map are those it held before and
    the identities parsed from the rows; every entry is one it held before or
    the 16 random bytes of a task whose row has that identity. Rows that share
    an identity share one entry, and, the error of [UnmarshalText] being
    dropped, every row whose DevEui does not parse is provisioned under the
    zero identity. *)
Theorem setupDevices_keys_for_any_device_list (E : Env) (s : simulation) (w : World)
    (devices : list Device) :
  readDevicesFromCSV (devices_csv E) = Returned (devices, None) ->
  outcome_of (setupDevices E s w) = Returned None ->
  let keys := deviceAppKeys (sim_after (setupDevices E s w)) in
  dom keys = dom (deviceAppKeys s) ∪ list_to_set (parse_devEUI <$> devices) /\
  (forall k v, keys !! k = Some v ->
     deviceAppKeys s !! k = Some v \/
     exists i dev, devices !! i = Some dev /\ parse_devEUI dev = k /\
                   rand_Read 16 (rand_entropy E i) = inr v) /\
  (forall dev, dev ∈ devices ->
     (EUI64_UnmarshalText EUI64_zero (DevEui dev)).2 <> None ->
     EUI64_zero ∈ dom keys).
Proof.
  intros Hread Hret keys. subst keys.
  rewrite (setupDevices_unfold E s w devices Hread) in Hret |- *.
  set (st := provisioning_end E s w devices) in *.
  unfold outcome_of, sim_after in *. simpl in Hret |- *.
  rewrite ?deviceAppKeys_set_deviceAppKeys.
  assert (Hinv : SyncInv E devices (deviceAppKeys s) st)
    by apply run_sync, provision_init_sync.
  assert (Hmain : p_main st = M_returned).
  { destruct (p_exited st); [discriminate |]. by destruct (p_main st). }
  pose proof (sync_returned _ _ _ _ Hinv Hmain) as Hwg.
  pose proof (sync_wg _ _ _ _ Hinv) as Hlive.
  pose proof (sync_devices _ _ _ _ Hinv) as Hdev.
  rewrite Hmain in Hlive, Hdev. simpl in Hlive, Hdev. rewrite app_nil_r in Hdev.
  assert (Hfin : Forall (fun t => t_pc t = T_finished) (p_tasks st))
    by (apply live_zero; lia).
  assert (Htask : forall i t, p_tasks st !! i = Some t ->
            devices !! i = Some (t_dev t) /\ inserted (t_pc t) = true /\
            t_devEUI t = parse_devEUI (t_dev t) /\
            rand_Read 16 (rand_entropy E i) = inr (t_appKey t)).
  { intros i t Hi.
    assert (Hpc : t_pc t = T_finished) by (by eapply Forall_lookup_1 in Hfin).
    split; [by rewrite <- Hdev, list_lookup_fmap, Hi |].
    split; [by rewrite Hpc |].
    apply (sync_started _ _ _ _ Hinv i t Hi). by rewrite Hpc. }
  assert (Hin : forall dev, dev ∈ devices -> parse_devEUI dev ∈ dom (p_keys st)).
  { intros dev Hd. rewrite <- Hdev in Hd.
    apply list_elem_of_fmap in Hd as (t & -> & Ht).
    apply list_elem_of_lookup in Ht as [i Hi].
    destruct (Htask i t Hi) as (_ & Hins & <- & _).
    apply elem_of_dom. by apply (sync_stored _ _ _ _ Hinv i t Hi). }
  split; [| split].
  - apply set_eq. intros k. rewrite elem_of_union, elem_of_list_to_set, !elem_of_dom.
    split.
    + intros [v Hk].
      destruct (sync_nothing_else _ _ _ _ Hinv k v Hk)
        as [H0 | (i & t & Hi & _ & <- & _)]; [left; eauto | right].
      destruct (Htask i t Hi) as (Hd & _ & -> & _).
      apply list_elem_of_fmap. exists (t_dev t). split; [done |].
      by eapply list_elem_of_lookup_2.
    + intros [H0 | Hk]; [by apply (sync_kept _ _ _ _ Hinv) |].
      apply list_elem_of_fmap in Hk as (dev & -> & Hd).
      apply elem_of_dom. by apply Hin.
  - intros k v Hk.
    destruct (sync_nothing_else _ _ _ _ Hinv k v Hk)
      as [H0 | (i & t & Hi & _ & <- & <-)]; [by left | right].
    destruct (Htask i t Hi) as (Hd & _ & -> & Hrand).
    by exists i, (t_dev t).
  - intros dev Hd Herr. rewrite <- (parse_devEUI_unparsed dev Herr). by apply Hin.
Qed.

(** X17 for a device list of three rows, two with the same identity and one
    with none: the map ends with two entries. *)
Lemma setupDevices_keys_for_any_device_list_witness :
  let keys := deviceAppKeys (sim_after (setupDevices shared_identity_env example_simulation
                                          empty_world)) in
  dom keys =
    dom (deviceAppKeys example_simulation) ∪
    list_to_set (parse_devEUI <$> omap device_of_record (tail shared_identity_file)) /\
  EUI64_zero ∈ dom keys /\
  size keys = 2%nat.
Proof.
  destruct (setupDevices_keys_for_any_device_list shared_identity_env example_simulation
              empty_world (omap device_of_record (tail shared_identity_file)))
    as (Hdom & _ & Hzero).
  - vm_compute. reflexivity.
  - vm_compute. reflexivity.
  - split; [exact Hdom | split].
    + apply (Hzero (mkDevice "C" "p1" "not an identity" "k3" "j1" "third")).
      * apply list_elem_of_In. simpl. tauto.
      * vm_compute. discriminate.
    + vm_compute. reflexivity.
Defined.

(** ** Starting the simulations *)

Lemma Start_one_started_for (parent : Ctx) (c : SimulatorConfig) (sim : simulation) :
  Start_one parent c = inr sim -> started_for parent c sim.
Proof.
  intros Hone. split; [done |]. unfold Start_one in Hone.
  destruct (hex.DecodeString (c_Device_Payload c)) as [pl [err |]]; [done |].
  by injection Hone as <-.
Qed.

Lemma Start_loop_accounting (parent : Ctx) (cs : list SimulatorConfig) :
  forall added started,
    match Start_loop parent cs added started with
    | (None, added', started') =>
        exists new, started' = started ++ new /\ added' = added + len new /\
                    Forall2 (started_for parent) cs new
    | (Some err, added', started') =>
        exists new c e0,
          started' = started ++ new /\ added' = added + len new + 1 /\
          Forall2 (started_for parent) (take (length new) cs) new /\
          cs !! length new = Some c /\
          (hex.DecodeString (c_Device_Payload c)).2 = Some e0 /\
          err = ErrWrap "decode payload error" e0
    end.
Proof.
  induction cs as [| c cs IH]; intros added started; simpl.
  - exists []. rewrite app_nil_r. unfold len. simpl. split; [done | split; [lia | done]].
  - destruct (Start_one parent c) as [err | sim] eqn:Hone.
    + exists [], c. unfold Start_one in Hone.
      destruct (hex.DecodeString (c_Device_Payload c)) as [pl [e0 |]] eqn:Hdec; [| done].
      injection Hone as <-. exists e0. rewrite app_nil_r. unfold len. simpl.
      repeat split; (done || lia).
    + specialize (IH (added + 1) (started ++ [sim])).
      apply Start_one_started_for in Hone.
      destruct (Start_loop parent cs (added + 1) (started ++ [sim]))
        as [[[err |] added'] started'].
      * destruct IH as (new & c' & e0 & -> & -> & HF & Hc & Hdec & ->).
        exists (sim :: new), c', e0. rewrite <- app_assoc. unfold len in *. simpl.
        split; [done | split; [lia | split; [by constructor | done]]].
      * destruct IH as (new & -> & -> & HF).
        exists (sim :: new). rewrite <- app_assoc. unfold len in *. simpl.
        split; [done | split; [lia | by constructor]].
Qed.

(** X18. [Start] adds a unit to the WaitGroup for an entry before it decodes
    the entry's payload. When every payload is hex it returns [nil] with one
    unit added and one simulation started per entry, in order, each with the
    parent context and an empty key map of its own. At the first payload that
    is not hex it returns "decode payload error" with the simulations of the
    entries before it started, and one unit more added than simulations
    started: no goroutine exists that would release that unit. *)
Theorem Start_adds_before_it_decodes (parent : Ctx) (cs : list SimulatorConfig) :
  match Start parent cs with
  | (None, added, started) =>
      added = len started /\ Forall2 (started_for parent) cs started
  | (Some err, added, started) =>
      added = len started + 1 /\
      Forall2 (started_for parent) (take (length started) cs) started /\
      exists c e0,
        cs !! length started = Some c /\
        (hex.DecodeString (c_Device_Payload c)).2 = Some e0 /\
        err = ErrWrap "decode payload error" e0
  end.
Proof.
  unfold Start. pose proof (Start_loop_accounting parent cs 0 []) as H.
  destruct (Start_loop parent cs 0 []) as [[[err |] added] started].
  - destruct H as (new & c & e0 & -> & -> & HF & Hc & Hdec & ->). simpl.
    split; [lia | split; [done |]]. by exists c, e0.
  - destruct H as (new & -> & -> & HF). simpl. split; [lia | done].
Qed.

(** ** The errors of the three phases *)













(** ** The order of the run phase *)

(** X20. The run phase in order. It first constructs a gateway for each
    identity of [gatewayIDs], in the order of the list, and stops at the
    first refusal with "new gateway error", before the run context exists.
    Only when all gateways are built does it construct devices; then it
    installs the signal handler, and waits. Once the context exists, the
    deferred cancel of that context is the last thing the phase does
    whenever it returns or panics: after the devices stopped, after a refused
    device ("new device error") and after a panic of the random draws; it has
    not run while the phase is still waiting for devices or for a draw. *)
Theorem run_phase_order (E : Env) (s : simulation) (w : World) :
  exists n evs rest,
    events_since w (runSimulation E s w) =
      Enter F_runSimulation :: (NewGateway <$> take n (gatewayIDs s)) ++ evs ++ rest /\
    Forall (fun ev => exists c o, ev = NewDevice c o) evs /\
    run_tail s (outcome_of (runSimulation E s w)) evs rest /\
    ((forall err, outcome_of (runSimulation E s w) <>
                    Returned (Some (ErrWrap "new gateway error" err))) ->
     take n (gatewayIDs s) = gatewayIDs s) /\
    outcome_of (runSimulation E s w) <> Exited.
Proof.
  destruct (runSimulation_events E s w)
    as (gateways & entries & n & evs & rest & Hev & _ & _ & _ & _ & Hc & _ & _ & Htail & Hfull).
  exists n, evs, rest. split; [done | split; [| split; [done | split; [done |]]]].
  - eapply Forall_impl; [exact Hc |]. by intros ev [_ Hnew].
  - intros Hex. rewrite Hex in Htail. simpl in Htail. subst rest.
    destruct (runSimulation E s w) as [[o s'] w'] eqn:Hrun.
    unfold outcome_of in Hex. simpl in Hex. subst o.
    revert Hrun. unfold runSimulation. unfold bind at 1. unfold enter, emit.
    unfold bind at 1. unfold get. unfold bind at 1.
    match goal with
    | |- context [newGateways E ?ids ?acc ?s1 ?w1] =>
        destruct (newGateways_error E ids acc s1 w1) as (r1 & Hr1 & _);
        destruct (newGateways E ids acc s1 w1) as [[o1 s2] w2]
    end.
    unfold outcome_of in Hr1. simpl in Hr1. subst o1.
    destruct r1 as [err | gws]; [done |].
    unfold deferred. unfold bind at 1. unfold range_over at 1. unfold bind at 1.
    match goal with
    | |- context [newDevices E ?s0 ?c ?g ?en ?made ?s1 ?w1] =>
        destruct (newDevices E s0 c g en made s1 w1) as [[o3 s3] w3] eqn:Hdev
    end.
    destruct (newDevices_error _ _ _ _ _ _ _ _ _ _ _ Hdev) as [Hnx _].
    destruct o3 as [[err | made] | | p |]; try done.
    unfold bind, emit, wait_devices, ret, stop.
    destruct made as [| made]; [done |]. by destruct (devices_stop E).
Qed.

(** ** The requests of the provisioning *)

Lemma main_step_trace (st st' : PState) :
  main_step st = Some st' -> p_trace st' = p_trace st.
Proof.
  unfold main_step. intros H. by repeat (case_match; simplify_eq).
Qed.

Lemma pstep_calls (E : Env) (appID : string) (devices : list Device)
    (keys0 : gmap EUI64 AES128Key) (c : nat) (st st' : PState) :
  SyncInv E devices keys0 st ->
  pstep E appID c st = Some st' ->
  exists evs, p_trace st' = p_trace st ++ evs /\ Forall (row_call E devices appID) evs.
Proof.
  intros Hinv Hstep. unfold pstep in Hstep.
  destruct (p_exited st); [discriminate |].
  destruct c as [| i].
  { exists []. rewrite app_nil_r. split; [by apply main_step_trace | constructor]. }
  destruct (p_tasks st !! i) as [t |] eqn:Hi; [| discriminate].
  assert (Hrow : devices !! i = Some (t_dev t)).
  { rewrite <- (sync_devices _ _ _ _ Hinv). apply lookup_app_l_Some.
    by rewrite list_lookup_fmap, Hi. }
  pose proof (sync_started _ _ _ _ Hinv i t Hi) as Hid.
  assert (Hquiet : forall st1, p_trace st1 = p_trace st ->
            exists evs, p_trace st1 = p_trace st ++ evs /\
                        Forall (row_call E devices appID) evs).
  { intros st1 ->. exists []. by rewrite app_nil_r. }
  unfold task_step in Hstep. destruct (t_pc t) eqn:Hpc.
  - destruct (rand_Read 16 (rand_entropy E i)); injection Hstep as <-; by apply Hquiet.
  - destruct Hid as [Hid _]; [done |].
    assert (Hcall : row_call E devices appID
              (Api Background
                 (DeviceCreate (EUI64_String (t_devEUI t)) (Name (t_dev t))
                    (Description (t_dev t)) appID (DeviceProfileId (t_dev t))))).
    { split; [done | split; [done |]]. exists (t_dev t).
      split; [by eapply list_elem_of_lookup_2 | by rewrite Hid]. }
    destruct (as_Device_Create E i); injection Hstep as <-; simpl;
      eexists [_]; (split; [done | by constructor]).
  - destruct Hid as [Hid Hrand]; [done |].
    assert (Hcall : row_call E devices appID
              (Api Background
                 (DeviceCreateKeys (EUI64_String (t_devEUI t))
                    (AES128Key_String (t_appKey t))))).
    { split; [done |]. exists i, (t_dev t), (t_appKey t). by rewrite Hid. }
    destruct (as_Device_CreateKeys E i); injection Hstep as <-; simpl;
      eexists [_]; (split; [done | by constructor]).
  - destruct (p_mutex st); [discriminate |]. injection Hstep as <-. by apply Hquiet.
  - injection Hstep as <-. by apply Hquiet.
  - injection Hstep as <-. by apply Hquiet.
  - injection Hstep as <-. by apply Hquiet.
  - discriminate.
Qed.

Lemma run_calls (E : Env) (appID : string) (devices : list Device)
    (keys0 : gmap EUI64 AES128Key) (sched : list nat) :
  forall st, SyncInv E devices keys0 st ->
    exists evs, p_trace (run E appID sched st) = p_trace st ++ evs /\
                Forall (row_call E devices appID) evs.
Proof.
  induction sched as [| c sched IH]; intros st Hinv; simpl.
  - exists []. split; [by rewrite app_nil_r | constructor].
  - destruct (pstep E appID c st) as [st1 |] eqn:Hstep; simpl; [| by apply IH].
    destruct (pstep_calls _ _ _ _ _ _ _ Hinv Hstep) as (e1 & H1 & F1).
    destruct (IH st1 (pstep_sync _ _ _ _ _ _ _ Hinv Hstep)) as (e2 & H2 & F2).
    exists (e1 ++ e2). split; [by rewrite H2, H1, app_assoc | by apply Forall_app].
Qed.

(** X21. What [setupDevices] asks of the management API. Whatever the
    schedule, every request it makes is for a row of the device list: a
    device is created under the identity parsed from the row's DevEui, with
    the row's name, description and device profile identifier, in the
    application of the simulation; its keys are created under that same
    identity, with the key the row's own task drew. The device profile that
    [setupDeviceProfile] stored in the simulation is not used, and nothing
    else is requested. *)
Theorem provisioning_requests_carry_the_rows (E : Env) (s : simulation) (w : World)
    (devices : list Device) :
  readDevicesFromCSV (devices_csv E) = Returned (devices, None) ->
  exists evs,
    events_since w (setupDevices E s w) = Enter F_setupDevices :: evs /\
    Forall (row_call E devices (applicationID s)) evs.
Proof.
  intros Hread. rewrite (setupDevices_unfold E s w devices Hread).
  unfold provisioning_end.
  destruct (run_calls E (applicationID s) devices (deviceAppKeys s) (schedule E)
              (provision_init devices (deviceAppKeys s) (trace w ++ [Enter F_setupDevices]))
              (provision_init_sync _ _ _ _)) as (evs & Ht & HF).
  exists evs. split; [| done].
  apply events_since_app. unfold world_after. simpl. rewrite Ht. simpl.
  by rewrite <- app_assoc.
Qed.

(** X21 for the device list of two rows. *)
Lemma provisioning_requests_carry_the_rows_witness :
  exists evs,
    events_since empty_world (setupDevices two_devices_env example_simulation empty_world) =
      Enter F_setupDevices :: evs /\
    Forall (row_call two_devices_env
              [ mkDevice "A" "p1" "0102030405060708" "k1" "j1" "first";
                mkDevice "B" "p1" "0102030405060709" "k2" "j1" "second" ]
              (applicationID example_simulation)) evs.
Proof.
  apply (provisioning_requests_carry_the_rows two_devices_env example_simulation
           empty_world
           [ mkDevice "A" "p1" "0102030405060708" "k1" "j1" "first";
             mkDevice "B" "p1" "0102030405060709" "k2" "j1" "second" ]).
  vm_compute. reflexivity.
Defined.

(** ** The run context (C6) *)

Lemma derived_from_refl (c : Ctx) : derived_from c c = true.
Proof. destruct c; cbn [derived_from]; by rewrite bool_decide_eq_true_2. Qed.

Lemma only_ret {A} (P : Event -> Prop) (a : A) : only P (ret a).
Proof. intros s w. exists []. by rewrite app_nil_r. Qed.

Lemma only_enter {A} (P : Event -> Prop) (F : Fn) (m : M A) :
  P (Enter F) -> only P m -> only P (enter F ;; m).
Proof.
  intros HF Hm s w. unfold bind, enter, emit.
  destruct (Hm s (mkWorld (trace w ++ [Enter F]) (draws w) (ranges w))) as (evs & Ht & HP).
  exists (Enter F :: evs). split; [| by constructor].
  rewrite Ht. simpl. by rewrite <- app_assoc.
Qed.

Lemma only_check (P : Event -> Prop) (m k : M (option error)) :
  only P m -> only P k -> only P (check m k).
Proof.
  intros Hm Hk s w. destruct (Hm s w) as (evs1 & Ht1 & HP1).
  unfold check, bind, world_after in *.
  destruct (m s w) as [[o s1] w1]. simpl in Ht1.
  destruct o as [[err |] | | p |]; simpl; try by exists evs1.
  destruct (Hk s1 w1) as (evs2 & Ht2 & HP2). unfold world_after in *.
  destruct (k s1 w1) as [[o2 s2] w2]. simpl in *.
  exists (evs1 ++ evs2). split; [by rewrite Ht2, Ht1, <- app_assoc |].
  apply Forall_app. by split.
Qed.

Lemma fixture_setupTenant (E : Env) : only fixture_event (setupTenant E).
Proof.
  intros s w. unfold setupTenant, bind, enter, emit, get, modify, ret, world_after. simpl.
  destruct (as_Tenant_Get E (tenantID s)); simpl;
    eexists [_; _]; (split; [by rewrite <- app_assoc | by repeat constructor]).
Qed.

Lemma fixture_setupGateways : only fixture_event setupGateways.
Proof. intros s w. eexists [_]. split; [reflexivity | by repeat constructor]. Qed.

Lemma fixture_setupDeviceProfile : only fixture_event setupDeviceProfile.
Proof.
  intros s w. unfold setupDeviceProfile.
  generalize (uuid_FromString deviceProfileID_text). intros [dpID [err |]];
    eexists [_]; (split; [reflexivity | by repeat constructor]).
Qed.

Lemma fixture_setupApplication (E : Env) : only fixture_event (setupApplication E).
Proof.
  intros s w. unfold setupApplication, bind, enter, emit, get, modify, ret, world_after.
  simpl. destruct (as_Application_Get E applicationID_text); simpl;
    eexists [_; _]; (split; [by rewrite <- app_assoc | by repeat constructor]).
Qed.

Lemma fixture_setupDevices (E : Env) : only fixture_event (setupDevices E).
Proof.
  intros s w. destruct (step_enters_setupDevices E s w) as (evs & Ht & _).
  exists (Enter F_setupDevices :: evs). split; [exact Ht |]. constructor; [done |].
  revert Ht. unfold setupDevices, bind, enter, emit, world_after. simpl.
  destruct (readDevicesFromCSV (devices_csv E)) as [[devices [err |]] | | p |]; simpl;
    try (intros Ht; apply (f_equal (drop (length (trace w)))) in Ht;
         rewrite !drop_app_length in Ht; by injection Ht as <-).
  match goal with
  | |- context [run E ?a ?sc ?st0] =>
      destruct (run_trace E a sc st0) as (evs' & Ht' & HF); set (st := run E a sc st0) in *
  end.
  simpl in Ht'. rewrite <- app_assoc in Ht'. simpl in Ht'.
  intros Ht.
  assert (Htr : trace w ++ Enter F_setupDevices :: evs' = trace w ++ Enter F_setupDevices :: evs).
  { rewrite <- Ht', <- Ht. destruct (p_exited st); [done |]. by destruct (p_main st). }
  apply app_inv_head in Htr. injection Htr as <-.
  eapply Forall_impl; [exact HF |]. by intros ev [call ->].
Qed.

Lemma fixture_setupApplicationIntegration (E : Env) :
  only fixture_event (setupApplicationIntegration E).
Proof.
  intros s w.
  unfold setupApplicationIntegration, bind, enter, emit, get, ret, world_after.
  simpl. destruct (mqtt_Subscribe E (uplink_topic (applicationID s))); simpl;
    eexists [_; _]; (split; [by rewrite <- app_assoc | by repeat constructor]).
Qed.

Lemma fixture_tearDownApplicationIntegration (E : Env) :
  only fixture_event (tearDownApplicationIntegration E).
Proof.
  intros s w.
  unfold tearDownApplicationIntegration, bind, enter, emit, get, ret, world_after.
  simpl. destruct (mqtt_Unsubscribe E (uplink_topic (applicationID s))); simpl;
    eexists [_; _]; (split; [by rewrite <- app_assoc | by repeat constructor]).
Qed.

Lemma fixture_tearDownDevices (E : Env) : only fixture_event (tearDownDevices E).
Proof.
  intros s w.
  set (entries := range_order (range_pick E (ranges w)) (map_to_list (deviceAppKeys s))).
  set (w1 := mkWorld (trace w ++ [Enter F_tearDownDevices]) (draws w) (S (ranges w))).
  assert (Heq : tearDownDevices E s w = tearDownDevices_loop E entries.*1 s w1)
    by reflexivity.
  rewrite Heq.
  assert (Hdel : forall ks, Forall fixture_event (delete_call <$> ks))
    by (intros ks; apply Forall_fmap, Forall_forall; by intros k _).
  destruct (tearDownDevices_loop_deletes E entries.*1 s w1)
    as [[_ Hrun] | (deleted & k & later & err & _ & _ & _ & Hrun)];
    rewrite Hrun; eexists (Enter F_tearDownDevices :: _);
    (split; [simpl; by rewrite <- app_assoc | constructor; [done | apply Hdel]]).
Qed.

Lemma fixture_init (E : Env) : only fixture_event (init E).
Proof.
  unfold init. apply only_enter; [done |].
  repeat apply only_check;
    auto using fixture_setupTenant, fixture_setupGateways, fixture_setupDeviceProfile,
      fixture_setupApplication, fixture_setupDevices, fixture_setupApplicationIntegration,
      only_ret.
Qed.

Lemma fixture_tearDown (E : Env) : only fixture_event (tearDown E).
Proof.
  unfold tearDown. apply only_enter; [done |].
  repeat apply only_check;
    auto using fixture_tearDownApplicationIntegration, fixture_tearDownDevices, only_ret.
  all: apply only_enter; [done | apply only_ret].
Qed.

(** C6. The context of the run phase is made from the context of the
    simulation: that context under a cancel, wrapped in a timeout exactly
    when the configured duration is not zero. It is the only context the run
    phase hands on and the only one that is ever cancelled: in a whole life
    cycle every device is made with it, so that its end, or the end of the
    parent, reaches the devices, while every call to the management API, in
    set-up, provisioning and tear-down, is under the background context,
    which the end of no context reaches. Set-up and tear-down consist of
    nothing but entries of steps, such calls, and requests to the broker,
    which take no context; they start no signal handler and cancel nothing.
    The run phase does use its context: when it returns [nil] it has made a
    device for every entry of [deviceAppKeys], started the signal goroutine,
    and cancelled the run context as its last action. A signal makes that
    goroutine cancel the run context and nothing else. *)
Theorem run_context_only_cancellation (E : Env) (s : simulation) (w : World) :
  let c := if duration s =? 0 then WithCancel (ctx s)
           else WithTimeout (WithCancel (ctx s)) (duration s) in
  (own_deadline c = true <-> duration s <> 0) /\
  derived_from c (ctx s) = true /\
  Forall (context_use (ctx s) c) (events_since w (start E s w)) /\
  Forall fixture_event (events_since w (init E s w)) /\
  Forall fixture_event (events_since w (tearDown E s w)) /\
  (outcome_of (runSimulation E s w) = Returned None ->
   exists before,
     events_since w (runSimulation E s w) = before ++ [SignalNotify; Cancel c] /\
     devices_made before ≡ₚ map_to_list (deviceAppKeys s) /\
     Forall (context_use (ctx s) c) before) /\
  (forall wake, Forall (fun ev => ev = Cancel c) (signal_goroutine s wake)).
Proof.
  intros c.
  assert (Hc : c = runContext s) by reflexivity.
  assert (Hder : derived_from c (ctx s) = true).
  { subst c. destruct (duration s =? 0); cbn [derived_from];
      rewrite derived_from_refl; by rewrite ?orb_true_r. }
  assert (Hcan : cancellable c = true) by (subst c; by destruct (duration s =? 0)).
  assert (Huse : forall ev, event_ok (settings s) ev -> context_use (ctx s) c ev).
  { intros [f | c' call | | | | c' o | | c' | |]; unfold event_ok; simpl; auto.
    - intros ->. split; [done |]. by intros c0.
    - rewrite settings_runContext. intros [-> _]. rewrite <- Hc.
      split; [done |]. by rewrite Hcan, Hder, derived_from_refl. }
  split; [| split; [exact Hder | split; [| split; [| split; [| split]]]]].
  - subst c. destruct (duration s =? 0) eqn:Hd; simpl.
    + apply Z.eqb_eq in Hd. split; [discriminate | lia].
    + apply Z.eqb_neq in Hd. split; auto.
  - destruct (start_events E s w) as (_ & evs & Ht & HF).
    rewrite (events_since_app w _ evs Ht).
    eapply Forall_impl; [exact HF | exact Huse].
  - destruct (fixture_init E s w) as (evs & Ht & HF).
    by rewrite (events_since_app w _ evs Ht).
  - destruct (fixture_tearDown E s w) as (evs & Ht & HF).
    by rewrite (events_since_app w _ evs Ht).
  - intros Hret.
    destruct (runSimulation_events E s w)
      as (gateways & entries & n & evs & rest & Hev & _ & Hperm & _ & _ & _ & _ & Hall
          & Htail & _).
    rewrite Hret in Htail. simpl in Htail. subst rest. rewrite <- Hc in Hev.
    exists (Enter F_runSimulation :: (NewGateway <$> take n (gatewayIDs s)) ++ evs).
    split; [| split].
    + rewrite Hev. simpl. by rewrite <- app_assoc.
    + simpl. rewrite devices_made_app, devices_made_NewGateway. simpl.
      by rewrite (Hall Hret).
    + destruct (runSimulation E s w) as [[o1 s1] w1] eqn:Hrun.
      assert (Hk : keeps (fun _ => tt) (settings s) tt (event_ok (settings s))
                     (runSimulation E))
        by (eapply enters_keeps; by apply enters_runSimulation).
      destruct (Hk s w o1 s1 w1 eq_refl eq_refl Hrun) as (_ & _ & evs0 & Ht0 & HF0).
      unfold events_since, world_after in Hev. simpl in Hev.
      rewrite Ht0, drop_app_length in Hev. subst evs0.
      apply Forall_cons in HF0 as [H1 HF0].
      apply Forall_app in HF0 as [H2 HF0]. apply Forall_app in HF0 as [H3 _].
      constructor; [by apply Huse |]. apply Forall_app.
      split; (eapply Forall_impl; [eassumption | exact Huse]).
  - intros [|]; simpl; [| constructor]. constructor; [by rewrite Hc | constructor].
Qed.

(** C6 for a simulation that set-up left with three gateway identities and
    one device: the run phase returns, having made the device with the run
    context, started the signal goroutine and cancelled the run context. *)
Lemma run_context_only_cancellation_witness :
  outcome_of (runSimulation two_devices_env provisioned_simulation three_draws)
    = Returned None /\
  exists before,
    events_since three_draws
      (runSimulation two_devices_env provisioned_simulation three_draws) =
      before ++ [SignalNotify; Cancel (WithCancel (External 0))] /\
    devices_made before ≡ₚ map_to_list (deviceAppKeys provisioned_simulation) /\
    Forall (context_use (External 0) (WithCancel (External 0))) before.
Proof.
  assert (Hret : outcome_of (runSimulation two_devices_env provisioned_simulation
                               three_draws) = Returned None)
    by (vm_compute; reflexivity).
  split; [exact Hret |].
  pose proof (run_context_only_cancellation two_devices_env provisioned_simulation
                three_draws) as H.
  cbv zeta in H. destruct H as (_ & _ & _ & _ & _ & Hrun & _).
  exact (Hrun Hret).
Defined.
